(** * chess3d: the rules engine of [chess.c], embedded and checked

    The board is the [board_component_t] of [components.h]; the functions
    [perform_move], [revert_move], [is_legal_move], [is_piece_attacked],
    [is_checked_after_move], [check_end_condition_reached],
    [update_legal_move_indices_for_piece], [try_move_selected_piece] and
    [on_entity_pressed] of [chess.c] are written in a small state monad over
    that record, one monadic step per C statement that reads or writes
    [*board].

    C [int] values are modelled as [Z] (square indices stay far from the
    limits of [int]); [uint8_t] stores that could leave 0..255 go through
    [u8], [uint32_t] ones through [u32].  C's [/] and [%] truncate toward
    zero: [Z.quot] and [Z.rem]. *)

From Stdlib Require Import String ZArith List Bool Lia.
Import ListNotations.
Local Open Scope Z_scope.

(** ** chess.h: piece codes and masks *)

Definition PIECE_PAWN   : Z := 0x1.
Definition PIECE_KNIGHT : Z := 0x2.
Definition PIECE_KING   : Z := 0x3.
Definition PIECE_BISHOP : Z := 0x5.
Definition PIECE_ROOK   : Z := 0x6.
Definition PIECE_QUEEN  : Z := 0x7.
Definition PIECE_WHITE  : Z := 0x0.
Definition PIECE_BLACK  : Z := 0x8.

Definition MASK_COLOR : Z := 0x8.
Definition MASK_TYPE  : Z := 0x7.
Definition MASK_SLIDE : Z := 0x4.
Definition MASK_ROW   : Z := 0x70.

(** ** chess.c: the two anonymous enums and [move_info_t] *)

Definition MOVE_TYPE_MOVE    : Z := 0.
Definition MOVE_TYPE_CAPTURE : Z := 1.
Definition MOVE_TYPE_CASTLE  : Z := 2.

Definition STATE_PLAYING                : Z := 0.
Definition STATE_WHITE_WIN_BY_CHECKMATE : Z := 1.
Definition STATE_BLACK_WIN_BY_CHECKMATE : Z := 2.
Definition STATE_DRAW_BY_STALEMATE      : Z := 3.

Record move_info_t : Type := mk_move_info {
  move_type : Z;
  capture : Z;
  capture_pos : Z;
  rook_pos : Z;
  last_castle_bits : Z;
  last_en_passant_pos : Z;
  promotion : Z
}.

(** ** components.h: [board_component_t]

    [selected_piece] is the 64-bit entity id; [indices] is the 128-cell
    0x88 grid. *)

Record board_component_t : Type := mk_board {
  selected_piece : Z;
  legal_move_indices : list bool;
  indices : list Z;
  current_player : Z;
  castle_bits : Z;
  num_white_captures : Z;
  num_black_captures : Z;
  en_passant_pos : Z;
  move_count : Z;
  game_state : Z
}.

Definition UINT64_MAX : Z := 2 ^ 64 - 1.

Definition u8 (v : Z) : Z := v mod 256.
Definition u32 (v : Z) : Z := v mod 2 ^ 32.

(** ** The grid as an array of 128 cells

    [cell g i] is [g[i]]; [store_cell g i v] is [g[i] = v].  An index
    outside 0..127 is outside the C array (undefined behaviour there): the
    model reads 0 and drops the write.  A grid is a list of 128 cells
    ([grid_ok]); on a shorter list the cells that are missing read as 0 and
    a store fills the gap with zeros, so that reading back what was stored
    needs no side condition. *)

Definition in_grid (i : Z) : bool := (0 <=? i) && (i <? 128).

Fixpoint store_nth (n : nat) (g : list Z) (v : Z) : list Z :=
  match n, g with
  | O, [] => [v]
  | O, _ :: t => v :: t
  | S k, [] => 0 :: store_nth k [] v
  | S k, h :: t => h :: store_nth k t v
  end.

Definition cell (g : list Z) (i : Z) : Z :=
  if in_grid i then nth (Z.to_nat i) g 0 else 0.

Definition store_cell (g : list Z) (i : Z) (v : Z) : list Z :=
  if in_grid i then store_nth (Z.to_nat i) g v else g.

Definition grid_ok (g : list Z) : Prop := length g = 128%nat.

(** ** Field stores *)

Definition set_indices (g : list Z) (b : board_component_t) : board_component_t :=
  mk_board (selected_piece b) (legal_move_indices b) g (current_player b)
    (castle_bits b) (num_white_captures b) (num_black_captures b)
    (en_passant_pos b) (move_count b) (game_state b).

Definition set_current_player (v : Z) (b : board_component_t) : board_component_t :=
  mk_board (selected_piece b) (legal_move_indices b) (indices b) v
    (castle_bits b) (num_white_captures b) (num_black_captures b)
    (en_passant_pos b) (move_count b) (game_state b).

Definition set_castle_bits (v : Z) (b : board_component_t) : board_component_t :=
  mk_board (selected_piece b) (legal_move_indices b) (indices b) (current_player b)
    v (num_white_captures b) (num_black_captures b)
    (en_passant_pos b) (move_count b) (game_state b).

Definition set_en_passant_pos (v : Z) (b : board_component_t) : board_component_t :=
  mk_board (selected_piece b) (legal_move_indices b) (indices b) (current_player b)
    (castle_bits b) (num_white_captures b) (num_black_captures b)
    v (move_count b) (game_state b).

Definition set_move_count (v : Z) (b : board_component_t) : board_component_t :=
  mk_board (selected_piece b) (legal_move_indices b) (indices b) (current_player b)
    (castle_bits b) (num_white_captures b) (num_black_captures b)
    (en_passant_pos b) v (game_state b).

Definition set_game_state (v : Z) (b : board_component_t) : board_component_t :=
  mk_board (selected_piece b) (legal_move_indices b) (indices b) (current_player b)
    (castle_bits b) (num_white_captures b) (num_black_captures b)
    (en_passant_pos b) (move_count b) v.

Definition set_num_white_captures (v : Z) (b : board_component_t) : board_component_t :=
  mk_board (selected_piece b) (legal_move_indices b) (indices b) (current_player b)
    (castle_bits b) v (num_black_captures b)
    (en_passant_pos b) (move_count b) (game_state b).

Definition set_num_black_captures (v : Z) (b : board_component_t) : board_component_t :=
  mk_board (selected_piece b) (legal_move_indices b) (indices b) (current_player b)
    (castle_bits b) (num_white_captures b) v
    (en_passant_pos b) (move_count b) (game_state b).

Definition set_selected_piece (v : Z) (b : board_component_t) : board_component_t :=
  mk_board v (legal_move_indices b) (indices b) (current_player b)
    (castle_bits b) (num_white_captures b) (num_black_captures b)
    (en_passant_pos b) (move_count b) (game_state b).

Definition set_legal_move_indices (v : list bool) (b : board_component_t) : board_component_t :=
  mk_board (selected_piece b) v (indices b) (current_player b)
    (castle_bits b) (num_white_captures b) (num_black_captures b)
    (en_passant_pos b) (move_count b) (game_state b).

(** ** State monad over [*board] *)

Definition M (A : Type) : Type := board_component_t -> A * board_component_t.

Definition ret {A : Type} (a : A) : M A := fun b => (a, b).

Definition bind {A B : Type} (m : M A) (k : A -> M B) : M B :=
  fun b => let (a, b') := m b in k a b'.

Definition gets {A : Type} (f : board_component_t -> A) : M A :=
  fun b => (f b, b).

Definition modify (f : board_component_t -> board_component_t) : M unit :=
  fun b => (tt, f b).

Declare Scope chess_scope.
Delimit Scope chess_scope with chess.
Notation "x <- m ;; k" := (bind m (fun x => k))
  (at level 61, m at next level, right associativity) : chess_scope.
Notation "m ;; k" := (bind m (fun _ => k))
  (at level 61, right associativity) : chess_scope.
Local Open Scope chess_scope.

(** [board->indices[i]] as an rvalue, and [board->indices[i] = v]. *)
Definition load (i : Z) : M Z := gets (fun b => cell (indices b) i).
Definition store (i v : Z) : M unit :=
  modify (fun b => set_indices (store_cell (indices b) i v) b).

(** [if (c) { m }] with no else branch. *)
Definition when (c : bool) (m : M unit) : M unit := if c then m else ret tt.

Definition other_player (p : Z) : Z :=
  if p =? PIECE_WHITE then PIECE_BLACK else PIECE_WHITE.

(** ** [perform_move] (chess.c 46-128) *)

Definition with_move_type (t : Z) (i : move_info_t) : move_info_t :=
  mk_move_info t (capture i) (capture_pos i) (rook_pos i)
    (last_castle_bits i) (last_en_passant_pos i) (promotion i).

Definition with_rook_pos (p : Z) (i : move_info_t) : move_info_t :=
  mk_move_info (move_type i) (capture i) (capture_pos i) p
    (last_castle_bits i) (last_en_passant_pos i) (promotion i).

Definition with_capture (c p : Z) (i : move_info_t) : move_info_t :=
  mk_move_info (move_type i) c p (rook_pos i)
    (last_castle_bits i) (last_en_passant_pos i) (promotion i).

Definition with_promotion (p : Z) (i : move_info_t) : move_info_t :=
  mk_move_info (move_type i) (capture i) (capture_pos i) (rook_pos i)
    (last_castle_bits i) (last_en_passant_pos i) p.

(** [board->castle_bits &= ~(m << k)]. *)
Definition clear_castle_bits (m k : Z) : M unit :=
  modify (fun b =>
    set_castle_bits (u8 (Z.land (castle_bits b) (Z.lnot (Z.shiftl m k)))) b).

(** Lines 59-71: the king moves; on a castle the rook is relocated. *)
Definition king_phase (from to : Z) (info : move_info_t) : M move_info_t :=
  p <- load from ;;
  if Z.land p MASK_TYPE =? PIECE_KING then
    cp <- gets current_player ;;
    clear_castle_bits 3 (Z.quot cp 4) ;;
    if Z.abs (from - to) =? 2 then
      let rook_from := from + (if from >? to then -3 else 4) in
      let rook_to := from + (if from >? to then -1 else 1) in
      r <- load rook_from ;;
      store rook_to r ;;
      store rook_from 0 ;;
      ret (with_rook_pos rook_from (with_move_type MOVE_TYPE_CASTLE info))
    else ret info
  else ret info.

(** Lines 73-79: a rook leaves its corner. *)
Definition own_rook_phase (from : Z) : M unit :=
  p <- load from ;;
  when (Z.land p MASK_TYPE =? PIECE_ROOK)
    (cp <- gets current_player ;;
     if (from =? 0x0) || (from =? 0x70) then
       clear_castle_bits 1 (Z.quot cp 4 + 0)
     else if (from =? 0x7) || (from =? 0x77) then
       clear_castle_bits 1 (Z.quot cp 4 + 1)
     else ret tt).

(** Lines 81-88: a rook is captured on its corner. *)
Definition captured_rook_phase (to : Z) : M unit :=
  p <- load to ;;
  when (Z.land p MASK_TYPE =? PIECE_ROOK)
    (cp <- gets current_player ;;
     let opponent := other_player cp in
     if (to =? 0x0) || (to =? 0x70) then
       clear_castle_bits 1 (Z.quot opponent 4 + 0)
     else if (to =? 0x7) || (to =? 0x77) then
       clear_castle_bits 1 (Z.quot opponent 4 + 1)
     else ret tt).

(** Lines 90-110: en-passant bookkeeping; [capture0] is the local
    [capture] of line 48. *)
Definition pawn_phase (from to capture0 : Z) (info : move_info_t) : M move_info_t :=
  p <- load from ;;
  if Z.land p MASK_TYPE =? PIECE_PAWN then
    let diff := Z.abs (from - to) in
    if diff =? 32 then
      modify (set_en_passant_pos to) ;;
      ret info
    else if ((diff =? 17) || (diff =? 15)) && (capture0 =? 0) then
      pos <- gets en_passant_pos ;;
      c <- load pos ;;
      store pos 0 ;;
      modify (set_en_passant_pos 0) ;;
      ret (with_capture c pos (with_move_type MOVE_TYPE_CAPTURE info))
    else
      modify (set_en_passant_pos 0) ;;
      ret info
  else
    modify (set_en_passant_pos 0) ;;
    ret info.

(** Lines 112-119: promotion, written to [indices[from]]. *)
Definition promotion_phase (from to : Z) (info : move_info_t) : M move_info_t :=
  p <- load from ;;
  if Z.land p MASK_TYPE =? PIECE_PAWN then
    let row := Z.land to MASK_ROW in
    if (row =? 0x00) || (row =? 0x70) then
      q <- load from ;;
      store from (Z.lor PIECE_QUEEN (Z.land q MASK_COLOR)) ;;
      ret (with_promotion PIECE_QUEEN info)
    else ret info
  else ret info.

(** Lines 121-125. *)
Definition relocate_phase (from to : Z) : M unit :=
  p <- load from ;;
  store to p ;;
  store from 0 ;;
  modify (fun b => set_current_player (other_player (current_player b)) b) ;;
  modify (fun b => set_move_count (u32 (move_count b + 1)) b).

Definition perform_move (from to : Z) : M move_info_t :=
  capture0 <- load to ;;
  cb0 <- gets castle_bits ;;
  ep0 <- gets en_passant_pos ;;
  let info0 :=
    mk_move_info (if capture0 =? 0 then MOVE_TYPE_MOVE else MOVE_TYPE_CAPTURE)
                 capture0 to 0 cb0 ep0 0 in
  info1 <- king_phase from to info0 ;;
  own_rook_phase from ;;
  captured_rook_phase to ;;
  info2 <- pawn_phase from to capture0 info1 ;;
  info3 <- promotion_phase from to info2 ;;
  relocate_phase from to ;;
  ret info3.

(** A run of makes with no undo in between, as the handler produces over a
    game. *)
Fixpoint perform_moves (moves : list (Z * Z)) : M unit :=
  match moves with
  | [] => ret tt
  | (from, to) :: rest => perform_move from to ;; perform_moves rest
  end.

(** ** [revert_move] (chess.c 130-155) *)

Definition revert_move (from to : Z) (info : move_info_t) : M unit :=
  p <- load to ;;
  store from p ;;
  store to 0 ;;
  store (capture_pos info) (capture info) ;;
  modify (set_castle_bits (last_castle_bits info)) ;;
  modify (set_en_passant_pos (last_en_passant_pos info)) ;;
  when (move_type info =? MOVE_TYPE_CASTLE)
    (let rook_from := from + (if from >? to then -3 else 4) in
     let rook_to := from + (if from >? to then -1 else 1) in
     r <- load rook_to ;;
     store rook_from r ;;
     store rook_to 0) ;;
  when (negb (promotion info =? 0))
    (q <- load from ;;
     store from (Z.lor PIECE_PAWN (Z.land q MASK_COLOR))) ;;
  modify (fun b => set_current_player (other_player (current_player b)) b) ;;
  modify (fun b => set_move_count (u32 (move_count b - 1)) b).

(** ** [is_legal_move] (chess.c 157-233)

    The function calls itself once, for the rook slide of a castling query.
    [is_legal_move_body self] is the C body with the recursive call bound to
    [self]; [is_legal_move] ties the knot with a call depth of three, which
    the code never exceeds ([is_legal_move_unfold], [is_legal_move_fuel_enough]).
    Every step is a read of [*board]. *)

(** The clearance loop, lines 226-229: [n] iterations are left. *)
Fixpoint slide_loop (n : nat) (path step : Z) (can_move : bool) : M bool :=
  match n with
  | O => ret can_move
  | S k =>
      c <- load path ;;
      slide_loop k (path + step) step (can_move && (c =? 0))
  end.

Definition pawn_case (from to piece_to_move piece_to_capture : Z) : M bool :=
  let diff := Z.abs (from - to) in
  let dir := if from - to >? 0 then 0 else 8 in
  let row := Z.land from MASK_ROW in
  if Z.land piece_to_move MASK_COLOR =? dir then
    let c1 := (diff =? 16) && (piece_to_capture =? 0) in
    let c2 := ((diff =? 15) || (diff =? 17)) && negb (piece_to_capture =? 0) in
    c3 <-
      (if (diff =? 32) && ((row =? 0x60) || (row =? 0x10))
          && (piece_to_capture =? 0) then
         mid <- load (from + (if negb (dir =? 0) then 16 else -16)) ;;
         ret (mid =? 0)
       else ret false) ;;
    ep <- gets en_passant_pos ;;
    c45 <-
      (if negb (ep =? 0) && (piece_to_capture =? 0) then
         c4 <-
           (if diff =? (if negb (dir =? 0) then 15 else 17) then
              e <- gets en_passant_pos ;; ret (from - 1 =? e)
            else ret false) ;;
         c5 <-
           (if diff =? (if negb (dir =? 0) then 17 else 15) then
              e <- gets en_passant_pos ;; ret (from + 1 =? e)
            else ret false) ;;
         ret (c4 || c5)
       else ret false) ;;
    ret (c1 || c2 || c3 || c45)
  else ret false.

Definition king_case (self : Z -> Z -> M bool) (from to : Z) : M bool :=
  let diff := Z.abs (from - to) in
  let dir := if from - to >? 0 then 1 else 0 in
  c1 <-
    (if diff =? 2 then
       cb <- gets castle_bits ;;
       cp <- gets current_player ;;
       if negb (Z.land (Z.shiftr cb (Z.quot cp 4 + dir)) 1 =? 0) then
         self (from + (if negb (dir =? 0) then -3 else 4))
              (from + (if negb (dir =? 0) then -1 else 1))
       else ret false
     else ret false) ;;
  ret (c1 || ((diff =? 1) || (diff =? 16) || (diff =? 17) || (diff =? 15))).

Definition bishop_geometry (from to : Z) : bool :=
  let diff := Z.abs (from - to) in
  (Z.rem diff 15 =? 0) || (Z.rem diff 17 =? 0).

Definition rook_geometry (from to : Z) : bool :=
  (Z.land from 0x0f =? Z.land to 0x0f) || (Z.land from 0xf0 =? Z.land to 0xf0).

Definition is_legal_move_body (self : Z -> Z -> M bool) (from to : Z) : M bool :=
  if negb (Z.land to 0x88 =? 0) then ret false else
  piece_to_move <- load from ;;
  if piece_to_move =? 0 then ret false else
  cp <- gets current_player ;;
  if negb (Z.land piece_to_move MASK_COLOR =? cp) then ret false else
  piece_to_capture <- load to ;;
  cp' <- gets current_player ;;
  if negb (piece_to_capture =? 0) && (Z.land piece_to_capture MASK_COLOR =? cp')
  then ret false else
  let diff := Z.abs (from - to) in
  let kind := Z.land piece_to_move MASK_TYPE in
  can_move <-
    (if kind =? PIECE_PAWN then pawn_case from to piece_to_move piece_to_capture
     else if kind =? PIECE_KNIGHT then
       ret ((diff =? 14) || (diff =? 18) || (diff =? 31) || (diff =? 33))
     else if kind =? PIECE_KING then king_case self from to
     else if kind =? PIECE_BISHOP then ret (bishop_geometry from to)
     else if kind =? PIECE_ROOK then ret (rook_geometry from to)
     else if kind =? PIECE_QUEEN then
       ret (bishop_geometry from to || rook_geometry from to)
     else ret false) ;;
  if can_move && negb (Z.land piece_to_move MASK_SLIDE =? 0) then
    let dir := to - from in
    let step :=
      if Z.rem dir 17 =? 0 then 17
      else if Z.rem dir 15 =? 0 then 15
      else if Z.rem dir 16 =? 0 then 16
      else 1 in
    let step := if Z.quot dir step <? 0 then - step else step in
    slide_loop (Z.to_nat (Z.quot (to - from) step - 1)) (from + step) step can_move
  else ret can_move.

Fixpoint is_legal_move_fuel (fuel : nat) (from to : Z) : M bool :=
  match fuel with
  | O => ret false
  | S k => is_legal_move_body (is_legal_move_fuel k) from to
  end.

Definition is_legal_move : Z -> Z -> M bool := is_legal_move_fuel 3.

(** ** [is_piece_attacked] (chess.c 235-256) *)

(** Lines 238-244: the first [i] with [indices[i] == piece], else 0. *)
Fixpoint find_piece_loop (n : nat) (i piece : Z) : M Z :=
  match n with
  | O => ret 0
  | S k =>
      c <- load i ;;
      if c =? piece then ret i else find_piece_loop k (i + 1) piece
  end.

(** Lines 247-253: stops at the first attacker. *)
Fixpoint attack_loop (n : nat) (i pos : Z) : M bool :=
  match n with
  | O => ret false
  | S k =>
      l <- is_legal_move i pos ;;
      if l then ret true else attack_loop k (i + 1) pos
  end.

Definition is_piece_attacked (piece : Z) : M bool :=
  pos <- find_piece_loop 128 0 piece ;;
  attack_loop 128 0 pos.

(** ** [is_checked_after_move] (chess.c 258-267) *)

Definition is_checked_after_move (from to : Z) : M bool :=
  info <- perform_move from to ;;
  cp <- gets current_player ;;
  let king_piece := Z.lor PIECE_KING (other_player cp) in
  checked <- is_piece_attacked king_piece ;;
  revert_move from to info ;;
  ret checked.

(** [is_legal_move(board, from, to) && !is_checked_after_move(board, from, to)],
    with C's short circuit: the second call is made only after the first
    returned true. *)
Definition legal_and_safe (from to : Z) : M bool :=
  l <- is_legal_move from to ;;
  if l then
    c <- is_checked_after_move from to ;;
    ret (negb c)
  else ret false.

(** ** [check_end_condition_reached] (chess.c 269-295)

    The [log_print] call does not touch the board and is left out. *)

Fixpoint count_to_loop (n : nat) (from to : Z) (num_legal_moves : Z) : M Z :=
  match n with
  | O => ret num_legal_moves
  | S k =>
      c <- legal_and_safe from to ;;
      count_to_loop k from (to + 1) (num_legal_moves + (if c then 1 else 0))
  end.

Fixpoint count_from_loop (n : nat) (from : Z) (num_legal_moves : Z) : M Z :=
  match n with
  | O => ret num_legal_moves
  | S k =>
      acc <- count_to_loop 128 from 0 num_legal_moves ;;
      count_from_loop k (from + 1) acc
  end.

Definition check_end_condition_reached : M unit :=
  player <- gets current_player ;;
  modify (set_current_player (other_player player)) ;;
  checked <- is_piece_attacked (Z.lor PIECE_KING player) ;;
  modify (set_current_player player) ;;
  num_legal_moves <- count_from_loop 128 0 0 ;;
  if num_legal_moves =? 0 then
    if checked then
      modify (set_game_state
                (if player =? PIECE_WHITE then STATE_BLACK_WIN_BY_CHECKMATE
                 else STATE_WHITE_WIN_BY_CHECKMATE))
    else modify (set_game_state STATE_DRAW_BY_STALEMATE)
  else modify (set_game_state STATE_PLAYING).

(** ** The default board of [register_all_components] (components.c 153-168) *)

Definition initial_indices : list Z :=
  [0xe; 0xa; 0xd; 0xb; 0xf; 0xd; 0xa; 0xe; 0; 0; 0; 0; 0; 0; 0; 0;
   0x9; 0x9; 0x9; 0x9; 0x9; 0x9; 0x9; 0x9; 0; 0; 0; 0; 0; 0; 0; 0;
   0; 0; 0; 0; 0; 0; 0; 0; 0; 0; 0; 0; 0; 0; 0; 0;
   0; 0; 0; 0; 0; 0; 0; 0; 0; 0; 0; 0; 0; 0; 0; 0;
   0; 0; 0; 0; 0; 0; 0; 0; 0; 0; 0; 0; 0; 0; 0; 0;
   0; 0; 0; 0; 0; 0; 0; 0; 0; 0; 0; 0; 0; 0; 0; 0;
   0x1; 0x1; 0x1; 0x1; 0x1; 0x1; 0x1; 0x1; 0; 0; 0; 0; 0; 0; 0; 0;
   0x6; 0x2; 0x5; 0x3; 0x7; 0x5; 0x2; 0x6; 0; 0; 0; 0; 0; 0; 0; 0].

Definition initial_board : board_component_t :=
  mk_board UINT64_MAX (repeat false 64) initial_indices 0x0 0xf 0 0 0 0 0.

(** ** [try_move_selected_piece] (chess.c 470-529)

    The entity context of the engine ([entity.h]) is not part of the
    sources.  The handler asks three things of it, taken here as
    parameters: whether the selected entity is alive, and the
    [board_position] and [mask] of its piece component.  Spawning the
    promoted piece and starting the move animations change that context
    only; what is kept is every read and write of the board component. *)

Section Handler.

Variable is_entity_alive : Z -> bool.
Variable piece_board_position : Z -> Z.
Variable piece_mask : Z -> Z.

Definition try_move_selected_piece (x z : Z) : M unit :=
  selected <- gets selected_piece ;;
  if negb (is_entity_alive selected) then ret tt else
  let from := piece_board_position selected in
  let to := x + z * 16 in
  ok <- legal_and_safe from to ;;
  if negb ok then ret tt else
  info <- perform_move from to ;;
  check_end_condition_reached ;;
  when (negb (move_type info =? MOVE_TYPE_MOVE))
    (if move_type info =? MOVE_TYPE_CASTLE then ret tt
     else if move_type info =? MOVE_TYPE_CAPTURE then
       let is_white := Z.land (piece_mask selected) MASK_COLOR =? PIECE_WHITE in
       if is_white then
         modify (fun b => set_num_black_captures (u8 (num_black_captures b + 1)) b)
       else
         modify (fun b => set_num_white_captures (u8 (num_white_captures b + 1)) b)
     else ret tt) ;;
  modify (set_selected_piece UINT64_MAX) ;;
  modify (set_legal_move_indices (repeat false 64)).

End Handler.

(** ** [update_legal_move_indices_for_piece] (chess.c 297-304)

    [legal_move_indices] is the array [bool[64]]: [flag l i] is [l[i]],
    [store_flag l i v] is [l[i] = v], with the conventions of [cell] and
    [store_cell] outside 0..63.  The piece enters through its
    [board_position]. *)

Definition in_mask (i : Z) : bool := (0 <=? i) && (i <? 64).

Fixpoint store_flag_nth (n : nat) (l : list bool) (v : bool) : list bool :=
  match n, l with
  | O, [] => [v]
  | O, _ :: t => v :: t
  | S k, [] => false :: store_flag_nth k [] v
  | S k, h :: t => h :: store_flag_nth k t v
  end.

Definition flag (l : list bool) (i : Z) : bool :=
  if in_mask i then nth (Z.to_nat i) l false else false.

Definition store_flag (l : list bool) (i : Z) (v : bool) : list bool :=
  if in_mask i then store_flag_nth (Z.to_nat i) l v else l.

Fixpoint update_loop (n : nat) (from board_idx : Z) : M unit :=
  match n with
  | O => ret tt
  | S k =>
      let to := Z.rem board_idx 8 + Z.quot board_idx 8 * 16 in
      v <- legal_and_safe from to ;;
      modify (fun b =>
        set_legal_move_indices (store_flag (legal_move_indices b) board_idx v) b) ;;
      update_loop k from (board_idx + 1)
  end.

Definition update_legal_move_indices_for_piece (from : Z) : M unit :=
  update_loop 64 from 0.

(** ** [update_tiles] (chess.c 586-604)

    What the function reads of the board: the tile [(x, z)] is shown when
    [legal_move_indices[x + z * 8]] is set. *)

Definition tile_shown (b : board_component_t) (x z : Z) : bool :=
  flag (legal_move_indices b) (x + z * 8).

(** ** [on_entity_pressed] (chess.c 531-560)

    The entity context is a parameter, as for the handler: which component
    the pressed entity has, and the fields of its piece or tile component.
    The state is the board component of the entity that the piece or tile
    names as its board. *)

Section Pressed.

Variable has_piece : Z -> bool.
Variable has_tile : Z -> bool.
Variable is_entity_alive : Z -> bool.
Variable piece_board_position : Z -> Z.
Variable piece_mask : Z -> Z.
Variable piece_board : Z -> Z.
Variable tile_board : Z -> Z.
Variable tile_x : Z -> Z.
Variable tile_z : Z -> Z.

Definition on_entity_pressed (e : Z) : M unit :=
  if has_piece e then
    if is_entity_alive (piece_board e) then
      cp <- gets current_player ;;
      let is_opponent := negb (Z.land (piece_mask e) MASK_COLOR =? cp) in
      wants_capture <-
        (if is_opponent then
           sel <- gets selected_piece ;; ret (negb (sel =? UINT64_MAX))
         else ret false) ;;
      if wants_capture then
        let x := Z.rem (piece_board_position e) 16 in
        let z := Z.quot (piece_board_position e) 16 in
        try_move_selected_piece is_entity_alive piece_board_position piece_mask x z
      else if negb is_opponent then
        modify (set_selected_piece e) ;;
        update_legal_move_indices_for_piece (piece_board_position e)
      else ret tt
    else ret tt
  else if has_tile e then
    if is_entity_alive (tile_board e) then
      try_move_selected_piece is_entity_alive piece_board_position piece_mask
        (tile_x e) (tile_z e)
    else ret tt
  else ret tt.

End Pressed.

(** ** [create_board] (chess.c 383-441) and [add_piece] (chess.c 306-361)

    The piece entities that [create_board] spawns, in the order of its two
    loops: the mask and the grid coordinates handed to [add_piece], which
    stores [x + z * 16] as the piece's [board_position] (line 328). *)

Definition add_piece_position (x z : Z) : Z := x + z * 16.

Definition back_rank_pieces (j : Z) : list (Z * Z * Z) :=
  let color := if j =? 0 then PIECE_WHITE else PIECE_BLACK in
  let row := if negb (j =? 0) then 0 else 7 in
  [(Z.lor PIECE_ROOK color, 0, row);
   (Z.lor PIECE_KNIGHT color, 1, row);
   (Z.lor PIECE_BISHOP color, 2, row);
   (Z.lor PIECE_KING color, 3, row);
   (Z.lor PIECE_QUEEN color, 4, row);
   (Z.lor PIECE_BISHOP color, 5, row);
   (Z.lor PIECE_KNIGHT color, 6, row);
   (Z.lor PIECE_ROOK color, 7, row)].

Definition pawn_pieces (i : Z) : list (Z * Z * Z) :=
  [(Z.lor PIECE_PAWN PIECE_WHITE, i, 6); (Z.lor PIECE_PAWN PIECE_BLACK, i, 1)].

Definition create_board_pieces : list (Z * Z * Z) :=
  flat_map back_rank_pieces [0; 1]
  ++ flat_map pawn_pieces [0; 1; 2; 3; 4; 5; 6; 7].

(** ** [get_piece_name] (chess.h 37-48) *)

Definition get_piece_name (piece_mask : Z) : string :=
  let kind := Z.land piece_mask MASK_TYPE in
  if kind =? PIECE_PAWN then "Pawn"%string
  else if kind =? PIECE_KNIGHT then "Knight"%string
  else if kind =? PIECE_KING then "King"%string
  else if kind =? PIECE_BISHOP then "Bishop"%string
  else if kind =? PIECE_ROOK then "Rook"%string
  else if kind =? PIECE_QUEEN then "Queen"%string
  else "Undefined"%string.

(** ** [draw_board_ui] (chess.c 606-637)

    The two lines of text drawn for the first board whose game is over; no
    text when every board is still playing. *)

Definition end_of_game_text (game_state : Z) : string * string :=
  let reason :=
    if game_state =? STATE_DRAW_BY_STALEMATE then "STALEMATE"%string else "CHECKMATE"%string in
  let winner :=
    if game_state =? STATE_DRAW_BY_STALEMATE then "Draw."%string
    else if game_state =? STATE_WHITE_WIN_BY_CHECKMATE then "White wins."%string
    else "Black wins."%string in
  (reason, winner).

Fixpoint draw_board_ui (boards : list board_component_t) : option (string * string) :=
  match boards with
  | [] => None
  | board :: rest =>
      if negb (game_state board =? STATE_PLAYING)
      then Some (end_of_game_text (game_state board))
      else draw_board_ui rest
  end.

(** * Notions used in the statements *)

(** [read_only m]: running [m] hands back the board it was given. *)
Definition read_only {A : Type} (m : M A) : Prop :=
  forall b, snd (m b) = b.

(** The value returned by [is_legal_move(board, from, to)]. *)
Definition pseudo_legal (b : board_component_t) (from to : Z) : bool :=
  fst (is_legal_move from to b).

(** Every bit that is clear in [before] is clear in [after]. *)
Definition bits_subset (after before : Z) : Prop :=
  forall i, Z.testbit before i = false -> Z.testbit after i = false.

(** ** Invariants of the board and positions used below *)

(** The board invariants of section 3.3 of the specification, as a check
    that computes: one king of each colour, side to move 0 or 8, the
    en-passant square 0 or the square of a pawn of the side that just moved,
    sentinel cells empty, 128 cells. *)
Definition invariants_3_3 (b : board_component_t) : bool :=
  let g := indices b in
  (length g =? 128)%nat
  && (count_occ Z.eq_dec g (Z.lor PIECE_KING PIECE_WHITE) =? 1)%nat
  && (count_occ Z.eq_dec g (Z.lor PIECE_KING PIECE_BLACK) =? 1)%nat
  && ((current_player b =? PIECE_WHITE) || (current_player b =? PIECE_BLACK))
  && ((en_passant_pos b =? 0)
      || (Z.land (en_passant_pos b) 0x88 =? 0)
         && (cell g (en_passant_pos b)
             =? Z.lor PIECE_PAWN (other_player (current_player b))))
  && forallb (fun i => (Z.land i 0x88 =? 0) || (cell g i =? 0))
       (map Z.of_nat (seq 0 128)).

(** Every move of the list is accepted by the test of the handler
    (pseudo-legal and king-safe) on the board reached so far. *)
Fixpoint all_legal (moves : list (Z * Z)) (b : board_component_t) : bool :=
  match moves with
  | [] => true
  | (from, to) :: rest =>
      fst (legal_and_safe from to b) && all_legal rest (snd (perform_move from to b))
  end.

(** A game of eight plies from the initial position: a Black knight takes
    the bishop on 0x72, next to the White king, while the knight of 0x71 is
    away. *)
Definition game_knight_on_72 : list (Z * Z) :=
  [(0x71, 0x50); (0x01, 0x22); (0x67, 0x57); (0x22, 0x43);
   (0x57, 0x47); (0x43, 0x64); (0x47, 0x37); (0x64, 0x72)].

Definition board_knight_on_72 : board_component_t :=
  mk_board UINT64_MAX (repeat false 64)
    [0xe; 0; 0xd; 0xb; 0xf; 0xd; 0xa; 0xe; 0; 0; 0; 0; 0; 0; 0; 0;
     0x9; 0x9; 0x9; 0x9; 0x9; 0x9; 0x9; 0x9; 0; 0; 0; 0; 0; 0; 0; 0;
     0; 0; 0; 0; 0; 0; 0; 0; 0; 0; 0; 0; 0; 0; 0; 0;
     0; 0; 0; 0; 0; 0; 0; 0x1; 0; 0; 0; 0; 0; 0; 0; 0;
     0; 0; 0; 0; 0; 0; 0; 0; 0; 0; 0; 0; 0; 0; 0; 0;
     0x2; 0; 0; 0; 0; 0; 0; 0; 0; 0; 0; 0; 0; 0; 0; 0;
     0x1; 0x1; 0x1; 0x1; 0; 0x1; 0x1; 0; 0; 0; 0; 0; 0; 0; 0; 0;
     0x6; 0; 0xa; 0x3; 0x7; 0x5; 0x2; 0x6; 0; 0; 0; 0; 0; 0; 0; 0]
    PIECE_WHITE 0xf 0 0 0 8 STATE_PLAYING.

(** A castle that is pseudo-legal and not king-safe, with a piece on the
    rook's destination: White king 0x73 and rook 0x70 unmoved, 0x71 empty,
    Black knights on 0x72 and on 0x52, from where 0x71 is attacked. *)
Definition board_castle_unsafe : board_component_t :=
  mk_board UINT64_MAX (repeat false 64)
    [0xe; 0; 0xd; 0xb; 0xf; 0xd; 0; 0xe; 0; 0; 0; 0; 0; 0; 0; 0;
     0x9; 0x9; 0x9; 0x9; 0x9; 0x9; 0x9; 0x9; 0; 0; 0; 0; 0; 0; 0; 0;
     0; 0; 0; 0; 0; 0; 0; 0x1; 0; 0; 0; 0; 0; 0; 0; 0;
     0; 0; 0; 0; 0; 0; 0; 0; 0; 0; 0; 0; 0; 0; 0; 0;
     0; 0; 0; 0; 0; 0; 0x1; 0; 0; 0; 0; 0; 0; 0; 0; 0;
     0x2; 0; 0xa; 0; 0; 0; 0; 0; 0; 0; 0; 0; 0; 0; 0; 0;
     0x1; 0x1; 0x1; 0x1; 0; 0x1; 0; 0; 0; 0; 0; 0; 0; 0; 0; 0;
     0x6; 0; 0xa; 0x3; 0x7; 0x5; 0x2; 0x6; 0; 0; 0; 0; 0; 0; 0; 0]
    PIECE_WHITE 0xf 0 0 0 14 STATE_PLAYING.

(** Ten plies from the initial position: knight, pawn and bishop clear
    0x71 and 0x72, the rook of 0x70 steps to 0x71 and back, Black shuffles a
    knight. *)
Definition game_rook_returned : list (Z * Z) :=
  [(0x71, 0x50); (0x01, 0x22); (0x61, 0x51); (0x22, 0x01); (0x72, 0x61);
   (0x01, 0x22); (0x70, 0x71); (0x22, 0x01); (0x71, 0x70); (0x01, 0x22)].

Definition board_rook_returned : board_component_t :=
  mk_board UINT64_MAX (repeat false 64)
    [0xe; 0; 0xd; 0xb; 0xf; 0xd; 0xa; 0xe; 0; 0; 0; 0; 0; 0; 0; 0;
     0x9; 0x9; 0x9; 0x9; 0x9; 0x9; 0x9; 0x9; 0; 0; 0; 0; 0; 0; 0; 0;
     0; 0; 0xa; 0; 0; 0; 0; 0; 0; 0; 0; 0; 0; 0; 0; 0;
     0; 0; 0; 0; 0; 0; 0; 0; 0; 0; 0; 0; 0; 0; 0; 0;
     0; 0; 0; 0; 0; 0; 0; 0; 0; 0; 0; 0; 0; 0; 0; 0;
     0x2; 0x1; 0; 0; 0; 0; 0; 0; 0; 0; 0; 0; 0; 0; 0; 0;
     0x1; 0x5; 0x1; 0x1; 0x1; 0x1; 0x1; 0x1; 0; 0; 0; 0; 0; 0; 0; 0;
     0x6; 0; 0; 0x3; 0x7; 0x5; 0x2; 0x6; 0; 0; 0; 0; 0; 0; 0; 0]
    PIECE_WHITE 0xe 0 0 0 10 STATE_PLAYING.

(** Seventeen plies from the initial position end in a mate: the White
    queen lands on 0x13 next to the Black king of 0x03, guarded by the White
    bishop that took on 0x02; the bishop of 0x45 covers 0x01 and 0x12.  The
    Black king and the rook of 0x00 have not moved and 0x01 is empty. *)
Definition game_mate : list (Z * Z) :=
  [(0x63, 0x43); (0x13, 0x33); (0x64, 0x44); (0x12, 0x32); (0x75, 0x20);
   (0x04, 0x40); (0x20, 0x11); (0x01, 0x22); (0x11, 0x02); (0x17, 0x27);
   (0x72, 0x45); (0x27, 0x37); (0x74, 0x64); (0x37, 0x47); (0x64, 0x46);
   (0x47, 0x57); (0x46, 0x13)].

Definition board_mate : board_component_t :=
  mk_board UINT64_MAX (repeat false 64)
    [0xe; 0; 0x5; 0xb; 0; 0xd; 0xa; 0xe; 0; 0; 0; 0; 0; 0; 0; 0;
     0x9; 0; 0; 0x7; 0x9; 0x9; 0x9; 0; 0; 0; 0; 0; 0; 0; 0; 0;
     0; 0; 0xa; 0; 0; 0; 0; 0; 0; 0; 0; 0; 0; 0; 0; 0;
     0; 0; 0x9; 0x9; 0; 0; 0; 0; 0; 0; 0; 0; 0; 0; 0; 0;
     0xf; 0; 0; 0x1; 0x1; 0x5; 0; 0; 0; 0; 0; 0; 0; 0; 0; 0;
     0; 0; 0; 0; 0; 0; 0; 0x9; 0; 0; 0; 0; 0; 0; 0; 0;
     0x1; 0x1; 0x1; 0; 0; 0x1; 0x1; 0x1; 0; 0; 0; 0; 0; 0; 0; 0;
     0x6; 0x2; 0; 0x3; 0; 0; 0x2; 0x6; 0; 0; 0; 0; 0; 0; 0; 0]
    PIECE_BLACK 0xf 0 0 0 17 STATE_PLAYING.

(** White pawn on 0x12, one step from rank 0x00. *)
Definition board_promotion : board_component_t :=
  mk_board UINT64_MAX (repeat false 64)
    [0; 0; 0; 0; 0; 0; 0; 0xb; 0; 0; 0; 0; 0; 0; 0; 0;
     0; 0; 0x1; 0; 0; 0; 0; 0; 0; 0; 0; 0; 0; 0; 0; 0;
     0; 0; 0; 0; 0; 0; 0; 0; 0; 0; 0; 0; 0; 0; 0; 0;
     0; 0; 0; 0; 0; 0; 0; 0; 0; 0; 0; 0; 0; 0; 0; 0;
     0; 0; 0; 0; 0; 0; 0; 0; 0; 0; 0; 0; 0; 0; 0; 0;
     0; 0; 0; 0; 0; 0; 0; 0; 0; 0; 0; 0; 0; 0; 0; 0;
     0; 0; 0; 0; 0; 0; 0; 0; 0; 0; 0; 0; 0; 0; 0; 0;
     0; 0; 0; 0x3; 0; 0; 0; 0; 0; 0; 0; 0; 0; 0; 0; 0]
    PIECE_WHITE 0x0 0 0 0 60 STATE_PLAYING.

(** A board as the C types have it: 128 cells holding piece codes, a
    32-bit move counter. *)
Definition well_formed (b : board_component_t) : Prop :=
  grid_ok (indices b) /\
  0 <= move_count b < 2 ^ 32 /\
  forall i, 0 <= cell (indices b) i < 16.

(** The fields that neither the grid phases nor the bookkeeping of
    [perform_move] touch before the final relocation. *)
Definition same_frame (b b' : board_component_t) : Prop :=
  selected_piece b' = selected_piece b /\
  legal_move_indices b' = legal_move_indices b /\
  num_white_captures b' = num_white_captures b /\
  num_black_captures b' = num_black_captures b /\
  game_state b' = game_state b /\
  current_player b' = current_player b /\
  move_count b' = move_count b.

(** [revert_move], read as stores on the grid. *)
Definition reverted_grid (from to : Z) (info : move_info_t) (g : list Z) : list Z :=
  let g1 :=
    store_cell (store_cell (store_cell g from (cell g to)) to 0)
      (capture_pos info) (capture info) in
  let rook_from := from + (if from >? to then -3 else 4) in
  let rook_to := from + (if from >? to then -1 else 1) in
  let g2 :=
    if move_type info =? MOVE_TYPE_CASTLE
    then store_cell (store_cell g1 rook_from (cell g1 rook_to)) rook_to 0
    else g1 in
  if negb (promotion info =? 0)
  then store_cell g2 from (Z.lor PIECE_PAWN (Z.land (cell g2 from) MASK_COLOR))
  else g2.

(** The move classes of [perform_move], read on the board before the move. *)
Definition is_castle (b : board_component_t) (from to : Z) : bool :=
  (Z.land (cell (indices b) from) MASK_TYPE =? PIECE_KING)
  && (Z.abs (from - to) =? 2).

Definition is_en_passant (b : board_component_t) (from to : Z) : bool :=
  (Z.land (cell (indices b) from) MASK_TYPE =? PIECE_PAWN)
  && negb (Z.abs (from - to) =? 32)
  && ((Z.abs (from - to) =? 17) || (Z.abs (from - to) =? 15))
  && (cell (indices b) to =? 0).

Definition is_promotion (b : board_component_t) (from to : Z) : bool :=
  (Z.land (cell (indices b) from) MASK_TYPE =? PIECE_PAWN)
  && ((Z.land to MASK_ROW =? 0x00) || (Z.land to MASK_ROW =? 0x70)).

(** No castle of the side to move would put its rook on an occupied
    square. *)
Definition castles_clear (b : board_component_t) : Prop :=
  forall from to,
    pseudo_legal b from to = true -> is_castle b from to = true ->
    cell (indices b) (from + (if from >? to then -1 else 1)) = 0.

(** [well_formed] and [castles_clear] as checks that compute. *)
Definition well_formed_check (b : board_component_t) : bool :=
  (length (indices b) =? 128)%nat
  && (0 <=? move_count b) && (move_count b <? 2 ^ 32)
  && forallb (fun i => (0 <=? cell (indices b) i) && (cell (indices b) i <? 16))
       (map Z.of_nat (seq 0 128)).

Definition castles_clear_check (b : board_component_t) : bool :=
  forallb (fun from =>
    forallb (fun to =>
      negb (pseudo_legal b from to && is_castle b from to)
      || (cell (indices b) (from + (if from >? to then -1 else 1)) =? 0))
      (map Z.of_nat (seq 0 128)))
    (map Z.of_nat (seq 0 128)).

(** ** The coordinates of a square and the shape of a move *)

(** The tile coordinates of a square, as [on_entity_pressed] computes them
    from a [board_position] (chess.c 542-543); [add_piece] and [move_piece]
    go the other way with [x + z * 16]. *)
Definition square_x (s : Z) : Z := Z.rem s 16.
Definition square_z (s : Z) : Z := Z.quot s 16.

(** The step of the clearance loop of [is_legal_move], lines 217-224. *)
Definition slide_step (from to : Z) : Z :=
  let dir := to - from in
  let step :=
    if Z.rem dir 17 =? 0 then 17
    else if Z.rem dir 15 =? 0 then 15
    else if Z.rem dir 16 =? 0 then 16
    else 1 in
  if Z.quot dir step <? 0 then - step else step.

(** The value of [can_move] after the switch of lines 176-214. *)
Definition shape_ok (b : board_component_t) (from to : Z) : bool :=
  let p := cell (indices b) from in
  let c := cell (indices b) to in
  let diff := Z.abs (from - to) in
  let kind := Z.land p MASK_TYPE in
  if kind =? PIECE_PAWN then fst (pawn_case from to p c b)
  else if kind =? PIECE_KNIGHT then
    (diff =? 14) || (diff =? 18) || (diff =? 31) || (diff =? 33)
  else if kind =? PIECE_KING then fst (king_case is_legal_move from to b)
  else if kind =? PIECE_BISHOP then bishop_geometry from to
  else if kind =? PIECE_ROOK then rook_geometry from to
  else if kind =? PIECE_QUEEN then bishop_geometry from to || rook_geometry from to
  else false.

(** The clearance loop of lines 226-229, entered with [can_move] true. *)
Definition path_clear (b : board_component_t) (from to : Z) : bool :=
  let step := slide_step from to in
  fst (slide_loop (Z.to_nat (Z.quot (to - from) step - 1)) (from + step) step true b).

(** Every field but the grid is the same. *)
Definition same_but_grid (b b' : board_component_t) : Prop :=
  selected_piece b' = selected_piece b /\
  legal_move_indices b' = legal_move_indices b /\
  current_player b' = current_player b /\
  castle_bits b' = castle_bits b /\
  num_white_captures b' = num_white_captures b /\
  num_black_captures b' = num_black_captures b /\
  en_passant_pos b' = en_passant_pos b /\
  move_count b' = move_count b /\
  game_state b' = game_state b.

(** The four fields that the rules read: grid, side to move, castle rights
    and en-passant square. *)
Definition rules_eq (b b' : board_component_t) : Prop :=
  indices b = indices b' /\
  current_player b = current_player b' /\
  castle_bits b = castle_bits b' /\
  en_passant_pos b = en_passant_pos b'.

(** [m] returns the same value on boards that agree on these fields, and
    leaves boards that agree on them. *)
Definition respects_rules {A : Type} (m : M A) : Prop :=
  forall b b', rules_eq b b' ->
    fst (m b) = fst (m b') /\ rules_eq (snd (m b)) (snd (m b')).

(** ** The selection pass *)

(** The board with one square emptied. *)
Definition emptied (s : Z) (b : board_component_t) : board_component_t :=
  set_indices (store_cell (indices b) s 0) b.

(** One round of the loop of [update_legal_move_indices_for_piece]. *)
Definition pass_step (from board_idx : Z) (b : board_component_t) :
    board_component_t :=
  let r := legal_and_safe from (Z.rem board_idx 8 + Z.quot board_idx 8 * 16) b in
  set_legal_move_indices
    (store_flag (legal_move_indices (snd r)) board_idx (fst r)) (snd r).

(** No castle from [from] would put its rook on an occupied square. *)
Definition castles_clear_from (b : board_component_t) (from : Z) : Prop :=
  forall to,
    pseudo_legal b from to = true -> is_castle b from to = true ->
    cell (indices b) (from + (if from >? to then -1 else 1)) = 0.

(** * Properties *)

(** ** Reading back the grid *)

Lemma nth_store_nth_same (n : nat) (g : list Z) (v : Z) :
  nth n (store_nth n g v) 0 = v.
Proof.
  revert g; induction n as [|n IH]; intros [|h t]; simpl; auto.
Qed.

Lemma nth_store_nth_other (n m : nat) (g : list Z) (v : Z) :
  n <> m -> nth m (store_nth n g v) 0 = nth m g 0.
Proof.
  revert m g; induction n as [|n IH]; intros [|m] [|h t] Hnm; simpl; auto;
    try congruence.
  - destruct m; reflexivity.
  - rewrite IH by congruence. destruct m; reflexivity.
Qed.

Lemma length_store_nth (n : nat) (g : list Z) (v : Z) :
  (n < length g)%nat -> length (store_nth n g v) = length g.
Proof.
  revert g; induction n as [|n IH]; intros [|h t] Hn; simpl in *; try lia.
  rewrite IH; lia.
Qed.

Lemma in_grid_iff (i : Z) : in_grid i = true <-> 0 <= i < 128.
Proof. unfold in_grid. rewrite andb_true_iff, Z.leb_le, Z.ltb_lt. tauto. Qed.

Lemma cell_store_cell (g : list Z) (i j v : Z) :
  cell (store_cell g i v) j =
  if (i =? j) && in_grid i then v else cell g j.
Proof.
  unfold cell, store_cell.
  destruct (Z.eqb_spec i j) as [->|Hij]; simpl.
  - destruct (in_grid j); [apply nth_store_nth_same | reflexivity].
  - destruct (in_grid i) eqn:Hi; [|reflexivity].
    destruct (in_grid j) eqn:Hj; [|reflexivity].
    apply nth_store_nth_other.
    apply in_grid_iff in Hi. apply in_grid_iff in Hj. lia.
Qed.

Lemma cell_nonzero_in_grid (g : list Z) (i : Z) :
  cell g i <> 0 -> 0 <= i < 128.
Proof.
  unfold cell. destruct (in_grid i) eqn:Hi; [|congruence].
  intros _. now apply in_grid_iff.
Qed.

Lemma grid_ok_store_cell (g : list Z) (i v : Z) :
  grid_ok g -> grid_ok (store_cell g i v).
Proof.
  unfold grid_ok, store_cell. intros Hg.
  destruct (in_grid i) eqn:Hi; [|exact Hg].
  apply in_grid_iff in Hi. rewrite length_store_nth; lia.
Qed.

(** ** Steps that only read *)

Lemma read_only_ret {A : Type} (a : A) : read_only (ret a).
Proof. intros b. reflexivity. Qed.

Lemma read_only_gets {A : Type} (f : board_component_t -> A) :
  read_only (gets f).
Proof. intros b. reflexivity. Qed.

Lemma read_only_load (i : Z) : read_only (load i).
Proof. apply read_only_gets. Qed.

Lemma read_only_bind {A B : Type} (m : M A) (k : A -> M B) :
  read_only m -> (forall a, read_only (k a)) -> read_only (bind m k).
Proof.
  intros Hm Hk b. unfold bind.
  specialize (Hm b). destruct (m b) as [a b']. simpl in Hm. subst b'.
  apply Hk.
Qed.

Lemma read_only_if {A : Type} (c : bool) (m1 m2 : M A) :
  read_only m1 -> read_only m2 -> read_only (if c then m1 else m2).
Proof. destruct c; auto. Qed.

Lemma read_only_run {A : Type} (m : M A) (b : board_component_t) :
  read_only m -> m b = (fst (m b), b).
Proof.
  intros Hm. specialize (Hm b). destruct (m b) as [a b']. simpl in *.
  now subst.
Qed.

Create HintDb readonly.
#[local] Hint Resolve read_only_ret read_only_gets read_only_load : readonly.
#[local] Hint Extern 2 (read_only (bind _ _)) =>
  apply read_only_bind; [|intro] : readonly.
#[local] Hint Extern 2 (read_only (if _ then _ else _)) =>
  apply read_only_if : readonly.

Lemma read_only_slide_loop (n : nat) (path step : Z) (can_move : bool) :
  read_only (slide_loop n path step can_move).
Proof.
  revert path can_move; induction n as [|n IH]; intros path can_move; simpl;
    auto with readonly.
Qed.

Lemma read_only_pawn_case (from to p c : Z) : read_only (pawn_case from to p c).
Proof. unfold pawn_case. cbv zeta. auto 20 with readonly. Qed.

Lemma read_only_king_case (self : Z -> Z -> M bool) (from to : Z) :
  (forall f t, read_only (self f t)) -> read_only (king_case self from to).
Proof. intros Hs. unfold king_case. cbv zeta. auto 20 with readonly. Qed.

Lemma read_only_body (self : Z -> Z -> M bool) (from to : Z) :
  (forall f t, read_only (self f t)) ->
  read_only (is_legal_move_body self from to).
Proof.
  intros Hs. unfold is_legal_move_body. cbv zeta.
  pose proof read_only_slide_loop. pose proof read_only_pawn_case.
  pose proof (fun f t => read_only_king_case self f t Hs).
  auto 30 with readonly.
Qed.

Lemma read_only_fuel (fuel : nat) (from to : Z) :
  read_only (is_legal_move_fuel fuel from to).
Proof.
  revert from to; induction fuel as [|k IH]; intros from to; simpl.
  - apply read_only_ret.
  - apply read_only_body. exact IH.
Qed.

(** C6: for every board and every pair of integers [from], [to], the board
    after [is_legal_move(board, from, to)] is the board before it, field by
    field: grid, side to move, castle rights, en-passant square, move count,
    capture counters, terminal tag, selected piece and highlight mask.  The
    recursive rook-slide call of a castling query is part of the run. *)
Theorem is_legal_move_frame (b : board_component_t) (from to : Z) :
  snd (is_legal_move from to b) = b.
Proof. apply read_only_fuel. Qed.

Lemma is_legal_move_run (b : board_component_t) (from to : Z) :
  is_legal_move from to b = (pseudo_legal b from to, b).
Proof. apply read_only_run, read_only_fuel. Qed.

(** ** The recursion of [is_legal_move] *)

Lemma bind_ext {A B : Type} (m1 m2 : M A) (k : A -> M B) (b : board_component_t) :
  m1 b = m2 b -> bind m1 k b = bind m2 k b.
Proof. unfold bind. now intros ->. Qed.

(** The body looks at [self] only for a castling query, and only at the
    rook slide of that query. *)
Lemma king_case_ext (s1 s2 : Z -> Z -> M bool) (from to : Z) (b : board_component_t) :
  (Z.abs (from - to) = 2 ->
   let dir := if from - to >? 0 then 1 else 0 in
   s1 (from + (if negb (dir =? 0) then -3 else 4))
      (from + (if negb (dir =? 0) then -1 else 1)) b =
   s2 (from + (if negb (dir =? 0) then -3 else 4))
      (from + (if negb (dir =? 0) then -1 else 1)) b) ->
  king_case s1 from to b = king_case s2 from to b.
Proof.
  intros H. unfold king_case. cbv zeta. apply bind_ext.
  destruct (Z.eqb_spec (Z.abs (from - to)) 2) as [E|E]; [|reflexivity].
  specialize (H E). cbv zeta in H.
  unfold bind, gets.
  destruct (negb (Z.land _ 1 =? 0)); [exact H | reflexivity].
Qed.

Lemma is_legal_move_body_ext (s1 s2 : Z -> Z -> M bool) (from to : Z)
    (b : board_component_t) :
  (Z.abs (from - to) = 2 ->
   let dir := if from - to >? 0 then 1 else 0 in
   s1 (from + (if negb (dir =? 0) then -3 else 4))
      (from + (if negb (dir =? 0) then -1 else 1)) b =
   s2 (from + (if negb (dir =? 0) then -3 else 4))
      (from + (if negb (dir =? 0) then -1 else 1)) b) ->
  is_legal_move_body s1 from to b = is_legal_move_body s2 from to b.
Proof.
  intros H. unfold is_legal_move_body. cbv zeta.
  destruct (negb (Z.land to 136 =? 0)); [reflexivity|].
  unfold bind, load, gets.
  destruct (cell (indices b) from =? 0); [reflexivity|].
  destruct (negb (Z.land (cell (indices b) from) MASK_COLOR =? current_player b));
    [reflexivity|].
  destruct (negb (cell (indices b) to =? 0) && _); [reflexivity|].
  match goal with
  | |- (let (_, _) := ?x in _) = (let (_, _) := ?y in _) =>
      replace x with y; [reflexivity|]
  end.
  repeat (match goal with
          | |- (if ?c then _ else _) _ = (if ?c then _ else _) _ => destruct c
          end; try reflexivity).
  symmetry. now apply king_case_ext.
Qed.

Lemma is_legal_move_fuel_step (k : nat) (from to : Z) (b : board_component_t) :
  is_legal_move_fuel (S (S (S (S k)))) from to b =
  is_legal_move_fuel (S (S (S k))) from to b.
Proof.
  cbn [is_legal_move_fuel].
  apply is_legal_move_body_ext. intros E1. cbv zeta.
  apply is_legal_move_body_ext. intros E2. cbv zeta.
  apply is_legal_move_body_ext. intros E3. cbv zeta.
  exfalso. revert E1 E2 E3.
  destruct (Z.gtb_spec (from - to) 0); simpl negb; cbv iota;
    repeat match goal with
           | |- context [if ?a >? ?c then _ else _] =>
               destruct (Z.gtb_spec a c); simpl negb; cbv iota
           end; lia.
Qed.

(** Any call depth of three or more computes what [is_legal_move] does. *)
Lemma is_legal_move_fuel_enough (k : nat) (from to : Z) (b : board_component_t) :
  is_legal_move_fuel (3 + k) from to b = is_legal_move from to b.
Proof.
  induction k as [|k IH]; [reflexivity|].
  rewrite <- IH. replace (3 + S k)%nat with (S (S (S (S k)))) by lia.
  apply is_legal_move_fuel_step.
Qed.

(** [is_legal_move] satisfies the recursive equation of the C function. *)
Lemma is_legal_move_unfold (from to : Z) (b : board_component_t) :
  is_legal_move from to b = is_legal_move_body is_legal_move from to b.
Proof.
  rewrite <- (is_legal_move_fuel_enough 1). reflexivity.
Qed.

(** ** What a pseudo-legal move implies *)

Lemma forall_in_grid (P : Z -> bool) :
  forallb P (map Z.of_nat (seq 0 128)) = true ->
  forall i, 0 <= i < 128 -> P i = true.
Proof.
  intros H i Hi. rewrite forallb_forall in H. apply H.
  apply in_map_iff. exists (Z.to_nat i). split; [lia|].
  apply in_seq. lia.
Qed.

Lemma kind_not_sliding (p k : Z) :
  Z.land p MASK_TYPE = k -> Z.land k MASK_SLIDE = 0 -> Z.land p MASK_SLIDE = 0.
Proof.
  intros <- H. rewrite <- Z.land_assoc in H. exact H.
Qed.

(** After a case split on a guard: reduce the [if], and close the branch
    in which the function has returned false. *)
Ltac guard_step :=
  cbn [negb andb orb]; cbv beta iota;
  try (intros X; cbn in X; discriminate X).

(** The four guards of lines 159-171. *)
Lemma pseudo_legal_guards (b : board_component_t) (from to : Z) :
  pseudo_legal b from to = true ->
  Z.land to 0x88 = 0 /\
  cell (indices b) from <> 0 /\
  Z.land (cell (indices b) from) MASK_COLOR = current_player b /\
  (cell (indices b) to = 0 \/
   Z.land (cell (indices b) to) MASK_COLOR <> current_player b).
Proof.
  unfold pseudo_legal. rewrite is_legal_move_unfold.
  unfold is_legal_move_body. cbv zeta.
  destruct (Z.eqb_spec (Z.land to 136) 0) as [E0|E0]; guard_step.
  unfold bind at 1, load at 1, gets at 1; cbv beta iota.
  destruct (Z.eqb_spec (cell (indices b) from) 0) as [E1|E1]; guard_step.
  unfold bind at 1, gets at 1; cbv beta iota.
  destruct (Z.eqb_spec (Z.land (cell (indices b) from) MASK_COLOR) (current_player b))
    as [E2|E2]; guard_step.
  unfold bind at 1, load at 1, gets at 1; cbv beta iota.
  unfold bind at 1, gets at 1; cbv beta iota.
  destruct (Z.eqb_spec (cell (indices b) to) 0) as [E3|E3]; guard_step.
  - intros _. auto.
  - destruct (Z.eqb_spec (Z.land (cell (indices b) to) MASK_COLOR) (current_player b))
      as [E4|E4]; guard_step.
    intros _. auto.
Qed.

(** A pseudo-legal pawn move passed the pawn case of the switch. *)
Lemma pseudo_legal_pawn (b : board_component_t) (from to : Z) :
  pseudo_legal b from to = true ->
  Z.land (cell (indices b) from) MASK_TYPE = PIECE_PAWN ->
  fst (pawn_case from to (cell (indices b) from) (cell (indices b) to) b) = true.
Proof.
  intros H Hk. revert H.
  unfold pseudo_legal. rewrite is_legal_move_unfold.
  unfold is_legal_move_body. cbv zeta.
  destruct (Z.land to 136 =? 0); guard_step.
  unfold bind at 1, load at 1, gets at 1; cbv beta iota.
  destruct (cell (indices b) from =? 0); guard_step.
  unfold bind at 1, gets at 1; cbv beta iota.
  destruct (Z.land (cell (indices b) from) MASK_COLOR =? current_player b);
    guard_step.
  unfold bind at 1, load at 1, gets at 1; cbv beta iota.
  unfold bind at 1, gets at 1; cbv beta iota.
  destruct (negb (cell (indices b) to =? 0) && _); guard_step.
  rewrite Hk. change (PIECE_PAWN =? PIECE_PAWN) with true. cbv iota.
  unfold bind at 1.
  rewrite (read_only_run _ b (read_only_pawn_case _ _ _ _)).
  rewrite (kind_not_sliding _ _ Hk eq_refl).
  change (0 =? 0) with true. cbn [negb]. rewrite andb_false_r.
  cbn. auto.
Qed.

(** C10: a piece never moves to its own square.  For every board and every
    square [sq] in 0..127, [is_legal_move(board, sq, sq)] is false: an empty
    source is rejected by the empty-source test, a piece of the other side
    by the colour test, and a piece of the side to move by the
    own-colour-capture test, before any piece geometry is looked at. *)
Theorem is_legal_move_same_square (b : board_component_t) (sq : Z) :
  0 <= sq < 128 -> pseudo_legal b sq sq = false.
Proof.
  intros _. destruct (pseudo_legal b sq sq) eqn:E; [|reflexivity].
  apply pseudo_legal_guards in E.
  destruct E as (_ & Hne & Hc & [H0 | Hn]); congruence.
Qed.

Lemma is_legal_move_same_square_witness :
  pseudo_legal initial_board 0x60 0x60 = false.
Proof. apply (is_legal_move_same_square initial_board 0x60). lia. Defined.

Lemma pawn_is_on_grid (g : list Z) (from : Z) :
  Z.land (cell g from) MASK_TYPE = PIECE_PAWN -> 0 <= from < 128.
Proof.
  intros H. apply (cell_nonzero_in_grid g). intros E. rewrite E in H.
  discriminate H.
Qed.

(** C8: a pawn's double push is pseudo-legal only from its starting rank.
    For every board and every pawn on [from], if the move to [to] with
    [|from - to| == 32] is pseudo-legal, then [to] and the square in between
    are empty, a Black pawn stands on rank 0x10 and moves up by 32, and a
    White pawn stands on rank 0x60 and moves down by 32.  So a White pawn on
    rank 0x10 or a Black pawn on rank 0x60 has no pseudo-legal double push:
    the rank test of line 183 accepts both ranks for either colour, and the
    off-board test of line 159 rejects the destination of the wrong one. *)
Theorem pawn_double_push_start_rank (b : board_component_t) (from to : Z) :
  Z.land (cell (indices b) from) MASK_TYPE = PIECE_PAWN ->
  Z.abs (from - to) = 32 ->
  pseudo_legal b from to = true ->
  let black := Z.land (cell (indices b) from) MASK_COLOR =? PIECE_BLACK in
  cell (indices b) to = 0 /\
  cell (indices b) (from + (if black then 16 else -16)) = 0 /\
  to = from + (if black then 32 else -32) /\
  Z.land from MASK_ROW = (if black then 0x10 else 0x60).
Proof.
  intros Hk Hd Hl black.
  pose proof (pawn_is_on_grid _ _ Hk) as Hfrom.
  pose proof (pseudo_legal_guards _ _ _ Hl) as (Hto & _ & _ & _).
  pose proof (pseudo_legal_pawn _ _ _ Hl Hk) as Hp.
  unfold pawn_case in Hp. cbv zeta in Hp. rewrite Hd in Hp.
  change (32 =? 16) with false in Hp. change (32 =? 15) with false in Hp.
  change (32 =? 17) with false in Hp. change (32 =? 32) with true in Hp.
  assert (Hdir : Z.land (cell (indices b) from) MASK_COLOR =
                 (if from - to >? 0 then 0 else 8)).
  { destruct (Z.eqb_spec (Z.land (cell (indices b) from) MASK_COLOR)
                (if from - to >? 0 then 0 else 8)) as [E|E]; [exact E|].
    discriminate Hp. }
  rewrite Hdir in Hp. rewrite Z.eqb_refl in Hp.
  unfold bind, load, gets, ret in Hp.
  unfold black. rewrite Hdir.
  destruct (Z.gtb_spec (from - to) 0) as [Hgt|Hle].
  - (* White: toward lower indices *)
    change (0 =? PIECE_BLACK) with false. cbv iota.
    change (negb (0 =? 0)) with false in Hp.
    cbv beta iota in Hp.
    change (32 =? 15) with false in Hp. change (32 =? 17) with false in Hp.
    cbv beta iota in Hp.
    assert (to = from + -32) by lia. subst to.
    destruct (Z.eqb_spec (cell (indices b) (from + -32)) 0) as [Hcap|Hcap];
      [|rewrite !andb_false_r in Hp; cbn in Hp;
        destruct (negb (en_passant_pos b =? 0)); discriminate Hp].
    rewrite andb_true_r in Hp.
    destruct ((Z.land from MASK_ROW =? 96) || (Z.land from MASK_ROW =? 16))
      eqn:Hrow; cbn [andb] in Hp; cbv beta iota in Hp;
      [|destruct (negb (en_passant_pos b =? 0)); discriminate Hp].
    destruct (Z.eqb_spec (cell (indices b) (from + -16)) 0) as [Hmid|Hmid];
      [|destruct (negb (en_passant_pos b =? 0)); discriminate Hp].
    repeat split; auto.
    pose proof (forall_in_grid
      (fun f => negb ((Z.land (f + -32) 0x88 =? 0) && (Z.land f MASK_ROW =? 16)))
      eq_refl from Hfrom) as Hq.
    cbv beta in Hq. rewrite Hto in Hq. rewrite Z.eqb_refl in Hq.
    destruct (Z.eqb_spec (Z.land from MASK_ROW) 96) as [E|E]; [exact E|].
    cbn [orb] in Hrow. rewrite Hrow in Hq. discriminate Hq.
  - (* Black: toward higher indices *)
    change (8 =? PIECE_BLACK) with true. cbv iota.
    change (negb (8 =? 0)) with true in Hp.
    cbv beta iota in Hp.
    change (32 =? 15) with false in Hp. change (32 =? 17) with false in Hp.
    cbv beta iota in Hp.
    assert (to = from + 32) by lia. subst to.
    destruct (Z.eqb_spec (cell (indices b) (from + 32)) 0) as [Hcap|Hcap];
      [|rewrite !andb_false_r in Hp; cbn in Hp;
        destruct (negb (en_passant_pos b =? 0)); discriminate Hp].
    rewrite andb_true_r in Hp.
    destruct ((Z.land from MASK_ROW =? 96) || (Z.land from MASK_ROW =? 16))
      eqn:Hrow; cbn [andb] in Hp; cbv beta iota in Hp;
      [|destruct (negb (en_passant_pos b =? 0)); discriminate Hp].
    destruct (Z.eqb_spec (cell (indices b) (from + 16)) 0) as [Hmid|Hmid];
      [|destruct (negb (en_passant_pos b =? 0)); discriminate Hp].
    repeat split; auto.
    pose proof (forall_in_grid
      (fun f => negb ((Z.land (f + 32) 0x88 =? 0) && (Z.land f MASK_ROW =? 96)))
      eq_refl from Hfrom) as Hq.
    cbv beta in Hq. rewrite Hto in Hq. rewrite Z.eqb_refl in Hq.
    destruct (Z.eqb_spec (Z.land from MASK_ROW) 96) as [E|E].
    + discriminate Hq.
    + cbn [orb] in Hrow. now apply Z.eqb_eq in Hrow.
Qed.

Lemma pawn_double_push_start_rank_witness :
  cell (indices initial_board) 0x44 = 0 /\
  cell (indices initial_board) (0x64 + -16) = 0 /\
  0x44 = 0x64 + -32 /\
  Z.land 0x64 MASK_ROW = 0x60.
Proof.
  apply (pawn_double_push_start_rank initial_board 0x64 0x44);
    vm_compute; reflexivity.
Defined.

(** ** [perform_move], phase by phase *)

(** Run the monadic steps at the head of the goal and split on the [if]s
    of the C code, outermost first. *)
Ltac run_steps :=
  unfold when, clear_castle_bits, load, store;
  unfold bind, gets, modify, ret;
  cbv beta iota zeta.

Ltac split_ifs :=
  repeat (match goal with
          | |- context [if ?c then _ else _] => destruct c eqn:?
          end; cbv beta iota).

Ltac phase_facts := run_steps; split_ifs; cbn; auto.

Lemma king_phase_ep (from to : Z) (info : move_info_t) (b : board_component_t) :
  en_passant_pos (snd (king_phase from to info b)) = en_passant_pos b.
Proof. unfold king_phase. phase_facts. Qed.

Lemma own_rook_phase_ep (from : Z) (b : board_component_t) :
  en_passant_pos (snd (own_rook_phase from b)) = en_passant_pos b.
Proof. unfold own_rook_phase. phase_facts. Qed.

Lemma captured_rook_phase_ep (to : Z) (b : board_component_t) :
  en_passant_pos (snd (captured_rook_phase to b)) = en_passant_pos b.
Proof. unfold captured_rook_phase. phase_facts. Qed.

Lemma promotion_phase_ep (from to : Z) (info : move_info_t) (b : board_component_t) :
  en_passant_pos (snd (promotion_phase from to info b)) = en_passant_pos b.
Proof. unfold promotion_phase. phase_facts. Qed.

Lemma relocate_phase_ep (from to : Z) (b : board_component_t) :
  en_passant_pos (snd (relocate_phase from to b)) = en_passant_pos b.
Proof. unfold relocate_phase. phase_facts. Qed.

Lemma pawn_phase_ep (from to capture0 : Z) (info : move_info_t)
    (b : board_component_t) :
  en_passant_pos (snd (pawn_phase from to capture0 info b)) =
  if (Z.land (cell (indices b) from) MASK_TYPE =? PIECE_PAWN)
     && (Z.abs (from - to) =? 32) then to else 0.
Proof.
  unfold pawn_phase. run_steps.
  destruct (Z.land (cell (indices b) from) MASK_TYPE =? PIECE_PAWN);
    [|reflexivity].
  destruct (Z.abs (from - to) =? 32); [reflexivity|].
  destruct (_ && _); reflexivity.
Qed.

(** The square [from] keeps its piece until the pawn phase: the king phase
    writes the two rook squares only. *)
Lemma king_phase_cell (from to : Z) (info : move_info_t) (b : board_component_t)
    (s : Z) :
  cell (indices (snd (king_phase from to info b))) s =
  if (Z.land (cell (indices b) from) MASK_TYPE =? PIECE_KING)
     && (Z.abs (from - to) =? 2) then
    let rook_from := from + (if from >? to then -3 else 4) in
    let rook_to := from + (if from >? to then -1 else 1) in
    if (rook_from =? s) && in_grid rook_from then 0
    else if (rook_to =? s) && in_grid rook_to then cell (indices b) rook_from
    else cell (indices b) s
  else cell (indices b) s.
Proof.
  unfold king_phase. run_steps.
  destruct (Z.land (cell (indices b) from) MASK_TYPE =? PIECE_KING);
    [|reflexivity].
  destruct (Z.abs (from - to) =? 2); [|reflexivity].
  cbn. now rewrite !cell_store_cell.
Qed.

Lemma own_rook_phase_indices (from : Z) (b : board_component_t) :
  indices (snd (own_rook_phase from b)) = indices b.
Proof. unfold own_rook_phase. phase_facts. Qed.

Lemma captured_rook_phase_indices (to : Z) (b : board_component_t) :
  indices (snd (captured_rook_phase to b)) = indices b.
Proof. unfold captured_rook_phase. phase_facts. Qed.

Lemma king_phase_keeps_from (from to : Z) (info : move_info_t)
    (b : board_component_t) :
  cell (indices (snd (king_phase from to info b))) from = cell (indices b) from.
Proof.
  rewrite king_phase_cell.
  destruct (_ && _); [|reflexivity]. cbv zeta.
  assert (H1 : (from + (if from >? to then -3 else 4) =? from) = false)
    by (apply Z.eqb_neq; destruct (from >? to); lia).
  assert (H2 : (from + (if from >? to then -1 else 1) =? from) = false)
    by (apply Z.eqb_neq; destruct (from >? to); lia).
  now rewrite H1, H2.
Qed.

(** The state handed from one step of [perform_move] to the next. *)
Lemma perform_move_run (from to : Z) (b : board_component_t) :
  perform_move from to b =
  let capture0 := cell (indices b) to in
  let info0 :=
    mk_move_info (if capture0 =? 0 then MOVE_TYPE_MOVE else MOVE_TYPE_CAPTURE)
                 capture0 to 0 (castle_bits b) (en_passant_pos b) 0 in
  let r1 := king_phase from to info0 b in
  let r2 := own_rook_phase from (snd r1) in
  let r3 := captured_rook_phase to (snd r2) in
  let r4 := pawn_phase from to capture0 (fst r1) (snd r3) in
  let r5 := promotion_phase from to (fst r4) (snd r4) in
  let r6 := relocate_phase from to (snd r5) in
  (fst r5, snd r6).
Proof.
  unfold perform_move. cbv zeta. unfold bind at 1 2 3, load at 1, gets at 1 2 3.
  cbv beta iota. unfold bind.
  destruct (king_phase _ _ _ b) as [i1 b1]. cbn [fst snd].
  destruct (own_rook_phase from b1) as [[] b2]. cbn [fst snd].
  destruct (captured_rook_phase to b2) as [[] b3]. cbn [fst snd].
  destruct (pawn_phase _ _ _ i1 b3) as [i4 b4]. cbn [fst snd].
  destruct (promotion_phase _ _ i4 b4) as [i5 b5]. cbn [fst snd].
  destruct (relocate_phase from to b5) as [[] b6]. reflexivity.
Qed.

(** C4: the en-passant square after a move.  For every board and every
    [(from, to)] (pseudo-legal or not), after [perform_move(from, to)] the
    en-passant square is [to] if the piece on [from] was a pawn and
    [|from - to| == 32], and 0 in every other case: pawn single push, pawn
    capture, en-passant capture, and every move of another piece, castling
    included. *)
Theorem perform_move_en_passant (b : board_component_t) (from to : Z) :
  en_passant_pos (snd (perform_move from to b)) =
  if (Z.land (cell (indices b) from) MASK_TYPE =? PIECE_PAWN)
     && (Z.abs (from - to) =? 32)
  then to else 0.
Proof.
  rewrite perform_move_run. cbv zeta. cbn [snd].
  rewrite relocate_phase_ep, promotion_phase_ep, pawn_phase_ep.
  rewrite captured_rook_phase_indices, own_rook_phase_indices.
  rewrite king_phase_keeps_from. reflexivity.
Qed.

(** ** Castle rights *)

Lemma bits_subset_refl (x : Z) : bits_subset x x.
Proof. intros i H. exact H. Qed.

Lemma bits_subset_trans (x y z : Z) :
  bits_subset x y -> bits_subset y z -> bits_subset x z.
Proof. intros Hxy Hyz i H. apply Hxy, Hyz, H. Qed.

Lemma bits_subset_clear (cb m : Z) :
  bits_subset (u8 (Z.land cb (Z.lnot m))) cb.
Proof.
  intros i H. unfold u8.
  destruct (Z.ltb_spec i 0) as [Hneg|Hpos]; [now apply Z.testbit_neg_r|].
  change 256 with (2 ^ 8).
  destruct (Z.ltb_spec i 8) as [Hlo|Hhi].
  - rewrite Z.mod_pow2_bits_low by lia.
    rewrite Z.land_spec, H. reflexivity.
  - apply Z.mod_pow2_bits_high. lia.
Qed.

#[local] Hint Resolve bits_subset_refl bits_subset_clear : core.

Lemma king_phase_castle_bits (from to : Z) (info : move_info_t)
    (b : board_component_t) :
  bits_subset (castle_bits (snd (king_phase from to info b))) (castle_bits b).
Proof. unfold king_phase. phase_facts. Qed.

Lemma own_rook_phase_castle_bits (from : Z) (b : board_component_t) :
  bits_subset (castle_bits (snd (own_rook_phase from b))) (castle_bits b).
Proof. unfold own_rook_phase. phase_facts. Qed.

Lemma captured_rook_phase_castle_bits (to : Z) (b : board_component_t) :
  bits_subset (castle_bits (snd (captured_rook_phase to b))) (castle_bits b).
Proof. unfold captured_rook_phase. phase_facts. Qed.

Lemma pawn_phase_castle_bits (from to capture0 : Z) (info : move_info_t)
    (b : board_component_t) :
  castle_bits (snd (pawn_phase from to capture0 info b)) = castle_bits b.
Proof. unfold pawn_phase. phase_facts. Qed.

Lemma promotion_phase_castle_bits (from to : Z) (info : move_info_t)
    (b : board_component_t) :
  castle_bits (snd (promotion_phase from to info b)) = castle_bits b.
Proof. unfold promotion_phase. phase_facts. Qed.

Lemma relocate_phase_castle_bits (from to : Z) (b : board_component_t) :
  castle_bits (snd (relocate_phase from to b)) = castle_bits b.
Proof. unfold relocate_phase. phase_facts. Qed.

Lemma perform_move_castle_bits (from to : Z) (b : board_component_t) :
  bits_subset (castle_bits (snd (perform_move from to b))) (castle_bits b).
Proof.
  rewrite perform_move_run. cbv zeta. cbn [snd].
  rewrite relocate_phase_castle_bits, promotion_phase_castle_bits,
    pawn_phase_castle_bits.
  eapply bits_subset_trans; [apply captured_rook_phase_castle_bits|].
  eapply bits_subset_trans; [apply own_rook_phase_castle_bits|].
  apply king_phase_castle_bits.
Qed.

Lemma perform_moves_castle_bits (moves : list (Z * Z)) (b : board_component_t) :
  bits_subset (castle_bits (snd (perform_moves moves b))) (castle_bits b).
Proof.
  revert b; induction moves as [|[from to] rest IH]; intros b; simpl.
  - apply bits_subset_refl.
  - unfold bind. pose proof (perform_move_castle_bits from to b) as H.
    destruct (perform_move from to b) as [info b']. simpl in H.
    eapply bits_subset_trans; [apply IH | exact H].
Qed.

(** C9: castle rights are never set again.  For every board, every
    [(from, to)] and every bit position [i], a bit that is clear in the
    castle-rights mask before [perform_move(from, to)] is clear after it;
    and the same holds after any run of makes with no undo. *)
Theorem castle_bits_only_clear (b : board_component_t) (from to : Z)
    (moves : list (Z * Z)) (i : Z) :
  Z.testbit (castle_bits b) i = false ->
  Z.testbit (castle_bits (snd (perform_move from to b))) i = false /\
  Z.testbit (castle_bits (snd (perform_moves moves b))) i = false.
Proof.
  intros H. split.
  - now apply perform_move_castle_bits.
  - now apply perform_moves_castle_bits.
Qed.

(** ** The pawn case, read as one boolean *)

Lemma pawn_case_run (from to p c : Z) (b : board_component_t) :
  fst (pawn_case from to p c b) =
  let diff := Z.abs (from - to) in
  let dir := if from - to >? 0 then 0 else 8 in
  let row := Z.land from MASK_ROW in
  let ep := en_passant_pos b in
  (Z.land p MASK_COLOR =? dir) &&
  ((diff =? 16) && (c =? 0)
   || ((diff =? 15) || (diff =? 17)) && negb (c =? 0)
   || (diff =? 32) && ((row =? 0x60) || (row =? 0x10)) && (c =? 0)
      && (cell (indices b) (from + (if negb (dir =? 0) then 16 else -16)) =? 0)
   || negb (ep =? 0) && (c =? 0)
      && ((diff =? (if negb (dir =? 0) then 15 else 17)) && (from - 1 =? ep)
          || (diff =? (if negb (dir =? 0) then 17 else 15)) && (from + 1 =? ep))).
Proof.
  unfold pawn_case. cbv zeta.
  destruct (Z.land p MASK_COLOR =? _); [|reflexivity].
  run_steps.
  destruct (from - to >? 0); cbn [andb orb negb Z.eqb]; cbv beta iota;
    repeat match goal with
           | |- context [Z.eqb ?x ?y] =>
               destruct (Z.eqb x y); cbn [andb orb negb]; cbv beta iota;
               try reflexivity
           end.
Qed.

(** A pseudo-legal pawn move is a step of 15, 16, 17 or 32; a diagonal step
    to an empty square is the en-passant capture, whose victim stands next
    to [from]. *)
Lemma pawn_case_shape (from to p c : Z) (b : board_component_t) :
  fst (pawn_case from to p c b) = true ->
  (Z.abs (from - to) = 15 \/ Z.abs (from - to) = 16 \/
   Z.abs (from - to) = 17 \/ Z.abs (from - to) = 32) /\
  ((Z.abs (from - to) = 15 \/ Z.abs (from - to) = 17) -> c = 0 ->
   en_passant_pos b = from - 1 \/ en_passant_pos b = from + 1).
Proof.
  rewrite pawn_case_run. cbv zeta. intros H.
  apply andb_true_iff in H. destruct H as [_ H].
  destruct (Z.eqb_spec (Z.abs (from - to)) 16) as [D16|D16];
    [split; [lia|intros [?|?]; lia]|].
  destruct (Z.eqb_spec (Z.abs (from - to)) 32) as [D32|D32];
    [split; [lia|intros [?|?]; lia]|].
  cbn [andb orb] in H.
  destruct (Z.eqb_spec c 0) as [Hc|Hc].
  - cbn [andb orb negb] in H. rewrite andb_false_r in H.
    cbn [orb] in H. apply andb_true_iff in H. destruct H as [_ H].
    assert (Hd : (Z.abs (from - to) = 15 \/ Z.abs (from - to) = 17) /\
                 (en_passant_pos b = from - 1 \/ en_passant_pos b = from + 1)).
    { apply orb_true_iff in H. destruct H as [H|H];
        apply andb_true_iff in H; destruct H as [Hd He];
        apply Z.eqb_eq in Hd; apply Z.eqb_eq in He;
        (split; [destruct (negb _) in Hd; lia | lia]). }
    destruct Hd as [Hd He]. split; [lia|auto].
  - cbn [andb orb negb] in H. rewrite !andb_false_r, !orb_false_r in H.
    rewrite andb_true_r in H.
    apply orb_true_iff in H.
    split; [destruct H as [H|H]; apply Z.eqb_eq in H; lia|].
    intros _ Hc'. contradiction.
Qed.

(** ** The grid after [perform_move] *)

Lemma forall_range (P : Z -> bool) (lo : Z) (n : nat) :
  forallb P (map (fun k => lo + Z.of_nat k) (seq 0 n)) = true ->
  forall i, lo <= i < lo + Z.of_nat n -> P i = true.
Proof.
  intros H i Hi. rewrite forallb_forall in H. apply H.
  apply in_map_iff. exists (Z.to_nat (i - lo)). split; [lia|].
  apply in_seq. lia.
Qed.

(** Within 32 of a square of the grid, the test of line 159 keeps the
    squares of the grid only. *)
Lemma on_board_near (from to : Z) :
  0 <= from < 128 -> Z.abs (from - to) <= 32 -> Z.land to 0x88 = 0 ->
  0 <= to < 128.
Proof.
  intros Hf Hd Hto.
  pose proof (forall_range
    (fun t => negb (Z.land t 0x88 =? 0) || in_grid t) (-32) 192 eq_refl to) as H.
  cbv beta in H. rewrite Hto in H. cbn [Z.eqb negb orb] in H.
  apply in_grid_iff, H. lia.
Qed.

Lemma pawn_phase_cell (from to capture0 : Z) (info : move_info_t)
    (b : board_component_t) (s : Z) :
  cell (indices (snd (pawn_phase from to capture0 info b))) s =
  if (Z.land (cell (indices b) from) MASK_TYPE =? PIECE_PAWN)
     && negb (Z.abs (from - to) =? 32)
     && ((Z.abs (from - to) =? 17) || (Z.abs (from - to) =? 15))
     && (capture0 =? 0)
  then if (en_passant_pos b =? s) && in_grid (en_passant_pos b) then 0
       else cell (indices b) s
  else cell (indices b) s.
Proof.
  unfold pawn_phase. run_steps.
  destruct (Z.land (cell (indices b) from) MASK_TYPE =? PIECE_PAWN);
    [|reflexivity].
  destruct (Z.abs (from - to) =? 32); [reflexivity|].
  cbn [andb negb].
  destruct (_ && _); [|reflexivity].
  cbn. now rewrite cell_store_cell.
Qed.

Lemma promotion_phase_cell (from to : Z) (info : move_info_t)
    (b : board_component_t) (s : Z) :
  cell (indices (snd (promotion_phase from to info b))) s =
  if (Z.land (cell (indices b) from) MASK_TYPE =? PIECE_PAWN)
     && ((Z.land to MASK_ROW =? 0x00) || (Z.land to MASK_ROW =? 0x70))
  then if (from =? s) && in_grid from
       then Z.lor PIECE_QUEEN (Z.land (cell (indices b) from) MASK_COLOR)
       else cell (indices b) s
  else cell (indices b) s.
Proof.
  unfold promotion_phase. run_steps.
  destruct (Z.land (cell (indices b) from) MASK_TYPE =? PIECE_PAWN);
    [|reflexivity].
  cbn [andb]. destruct (_ || _); [|reflexivity].
  cbn. now rewrite cell_store_cell.
Qed.

Lemma promotion_phase_info (from to : Z) (info : move_info_t)
    (b : board_component_t) :
  promotion (fst (promotion_phase from to info b)) =
  if (Z.land (cell (indices b) from) MASK_TYPE =? PIECE_PAWN)
     && ((Z.land to MASK_ROW =? 0x00) || (Z.land to MASK_ROW =? 0x70))
  then PIECE_QUEEN else promotion info.
Proof.
  unfold promotion_phase. run_steps.
  destruct (Z.land (cell (indices b) from) MASK_TYPE =? PIECE_PAWN);
    [|reflexivity].
  cbn [andb]. destruct (_ || _); reflexivity.
Qed.

Lemma relocate_phase_cell (from to : Z) (b : board_component_t) (s : Z) :
  cell (indices (snd (relocate_phase from to b))) s =
  if (from =? s) && in_grid from then 0
  else if (to =? s) && in_grid to then cell (indices b) from
  else cell (indices b) s.
Proof.
  unfold relocate_phase. run_steps. cbn. now rewrite !cell_store_cell.
Qed.

(** Where the piece on each square after the move comes from: every cell
    is empty, or unchanged, or holds the mover (on [to]), the castled rook
    (on the rook's destination), or the queen of a promoting pawn. *)
Lemma perform_move_cells (b : board_component_t) (from to s : Z) :
  let g := indices b in
  let g' := indices (snd (perform_move from to b)) in
  cell g' s = 0 \/
  cell g' s = cell g s \/
  (s = to /\ cell g' s = cell g from) \/
  (s = from + (if from >? to then -1 else 1) /\
   Z.land (cell g from) MASK_TYPE = PIECE_KING /\ Z.abs (from - to) = 2 /\
   cell g' s = cell g (from + (if from >? to then -3 else 4))) \/
  (s = to /\ Z.land (cell g from) MASK_TYPE = PIECE_PAWN /\
   (Z.land to MASK_ROW = 0x00 \/ Z.land to MASK_ROW = 0x70) /\
   cell g' s = Z.lor PIECE_QUEEN (Z.land (cell g from) MASK_COLOR)).
Proof.
  cbv zeta. rewrite perform_move_run. cbv zeta. cbn [snd].
  set (info0 := mk_move_info _ _ _ _ _ _ _).
  set (b1 := snd (king_phase from to info0 b)).
  set (b2 := snd (own_rook_phase from b1)).
  set (b3 := snd (captured_rook_phase to b2)).
  set (r4 := pawn_phase from to (cell (indices b) to) _ b3).
  set (b4 := snd r4).
  set (r5 := promotion_phase from to (fst r4) b4).
  assert (H3 : forall x, cell (indices b3) x = cell (indices b1) x).
  { intros x. unfold b3, b2.
    now rewrite captured_rook_phase_indices, own_rook_phase_indices. }
  assert (H1f : cell (indices b1) from = cell (indices b) from)
    by apply king_phase_keeps_from.
  (* the content of [from] when the piece is relocated *)
  assert (Hfrom5 :
    cell (indices (snd r5)) from = 0 \/
    cell (indices (snd r5)) from = cell (indices b) from \/
    (Z.land (cell (indices b) from) MASK_TYPE = PIECE_PAWN /\
     (Z.land to MASK_ROW = 0x00 \/ Z.land to MASK_ROW = 0x70) /\
     cell (indices (snd r5)) from =
       Z.lor PIECE_QUEEN (Z.land (cell (indices b) from) MASK_COLOR))).
  { assert (H4 : cell (indices b4) from = 0 \/
                 cell (indices b4) from = cell (indices b) from).
    { unfold b4, r4. rewrite pawn_phase_cell, H3, H1f.
      destruct (_ && _); [|auto]. destruct (_ && _); auto. }
    unfold r5. rewrite promotion_phase_cell.
    destruct (Z.eqb_spec (Z.land (cell (indices b4) from) MASK_TYPE) PIECE_PAWN)
      as [Hp|Hp]; cbn [andb]; [|tauto].
    destruct H4 as [H4|H4]; [rewrite H4 in Hp; discriminate Hp|].
    rewrite H4 in Hp |- *.
    destruct (Z.eqb_spec (Z.land to MASK_ROW) 0) as [R0|R0]; cbn [orb].
    - rewrite Z.eqb_refl. cbn [andb].
      destruct (in_grid from); [right; right; auto | tauto].
    - destruct (Z.eqb_spec (Z.land to MASK_ROW) 112) as [R7|R7]; [|tauto].
      rewrite Z.eqb_refl. cbn [andb].
      destruct (in_grid from); [right; right; auto | tauto]. }
  (* a square off the grid reads 0 *)
  destruct (in_grid s) eqn:Hs; [|left; unfold cell; now rewrite Hs].
  rewrite relocate_phase_cell.
  destruct (Z.eqb_spec from s) as [Hfs|Hfs]; cbn [andb].
  { subst s. rewrite Hs. auto. }
  destruct (Z.eqb_spec to s) as [Hts|Hts]; cbn [andb].
  { subst s. rewrite Hs.
    destruct Hfrom5 as [H|[H|(Hp & Hr & H)]]; rewrite H; auto 10. }
  (* any other square: the en-passant victim or a rook square of a castle *)
  unfold r5. rewrite promotion_phase_cell.
  assert (Hfs' : (from =? s) = false) by now apply Z.eqb_neq.
  rewrite Hfs'. cbn [andb].
  assert (H4 : cell (indices b4) s = 0 \/
               cell (indices b4) s = cell (indices b1) s).
  { unfold b4, r4. rewrite pawn_phase_cell, H3.
    destruct (_ && _); [|auto]. destruct (_ && _); auto. }
  assert (H1 : cell (indices b1) s = 0 \/
               cell (indices b1) s = cell (indices b) s \/
               (s = from + (if from >? to then -1 else 1) /\
                Z.land (cell (indices b) from) MASK_TYPE = PIECE_KING /\
                Z.abs (from - to) = 2 /\
                cell (indices b1) s =
                  cell (indices b) (from + (if from >? to then -3 else 4)))).
  { unfold b1. rewrite king_phase_cell.
    destruct (Z.eqb_spec (Z.land (cell (indices b) from) MASK_TYPE) PIECE_KING)
      as [Hk|Hk]; cbn [andb]; [|auto].
    destruct (Z.eqb_spec (Z.abs (from - to)) 2) as [Hd|Hd]; [|auto].
    cbv zeta. destruct (_ && _); [auto|].
    destruct (Z.eqb_spec (from + (if from >? to then -1 else 1)) s) as [E|E];
      cbn [andb]; [|auto].
    rewrite E, Hs. symmetry in E. auto 10. }
  assert (H5 : cell (indices (snd (promotion_phase from to (fst r4) b4))) s
               = cell (indices b4) s).
  { rewrite promotion_phase_cell, Hfs'. cbn [andb].
    destruct (_ && _); reflexivity. }
  destruct (_ && _);
    destruct H4 as [H4|H4]; rewrite H4; auto;
    destruct H1 as [H1|[H1|(E & Hk & Hd & H1)]]; rewrite H1; auto 10.
Qed.

(** A pseudo-legal pawn move: both squares are on the grid and differ, and
    the pawn is still on [from] when the promotion test is made. *)
Lemma pawn_move_squares (b : board_component_t) (from to : Z) :
  pseudo_legal b from to = true ->
  Z.land (cell (indices b) from) MASK_TYPE = PIECE_PAWN ->
  0 <= from < 128 /\ 0 <= to < 128 /\ from <> to /\
  forall info,
    cell (indices (snd (pawn_phase from to (cell (indices b) to) info
       (snd (captured_rook_phase to (snd (own_rook_phase from
          (snd (king_phase from to
             (mk_move_info
                (if cell (indices b) to =? 0 then MOVE_TYPE_MOVE
                 else MOVE_TYPE_CAPTURE)
                (cell (indices b) to) to 0 (castle_bits b)
                (en_passant_pos b) 0) b)))))))))
      from = cell (indices b) from.
Proof.
  intros Hl Hk.
  pose proof (pawn_is_on_grid _ _ Hk) as Hfrom.
  pose proof (pseudo_legal_guards _ _ _ Hl) as (Hto & _ & _ & _).
  pose proof (pawn_case_shape _ _ _ _ _ (pseudo_legal_pawn _ _ _ Hl Hk))
    as [Hd Hep].
  assert (Hto' : 0 <= to < 128) by (apply (on_board_near from); lia).
  repeat split; try lia.
  intros info. rewrite pawn_phase_cell.
  rewrite captured_rook_phase_indices, own_rook_phase_indices.
  rewrite captured_rook_phase_ep, own_rook_phase_ep, king_phase_ep.
  rewrite king_phase_keeps_from.
  destruct (Z.eqb_spec (cell (indices b) to) 0) as [Hc|Hc];
    [|now rewrite andb_false_r].
  destruct (Z.eqb_spec (Z.abs (from - to)) 17) as [D17|D17];
  destruct (Z.eqb_spec (Z.abs (from - to)) 15) as [D15|D15];
    cbn [orb]; rewrite ?andb_false_r, ?andb_true_r; cbn [andb];
    try reflexivity;
    (destruct (_ && _); [|reflexivity]);
    (destruct (Z.eqb_spec (en_passant_pos b) from) as [E|E];
     [destruct Hep as [?|?]; auto; lia | reflexivity]).
Qed.

(** C5: the promotion law.  For every board and every pseudo-legal
    [(from, to)]:
    - if the mover is a pawn and [to] lies on rank 0x00 or rank 0x70, then
      after [perform_move] the piece on [to] is a Queen of the mover's colour
      and the record's promotion field is Queen;
    - every cell of the grid after the move is empty, or holds the code it
      held before, or (on [to]) the code of the mover, or (on the rook's
      destination of a castle) the code of the piece taken from the rook's
      origin, or (on [to]) the Queen of a promoting pawn.  So no piece other
      than a promoting pawn changes its kind bits. *)
Theorem promotion_law (b : board_component_t) (from to : Z) :
  pseudo_legal b from to = true ->
  let g := indices b in
  let g' := indices (snd (perform_move from to b)) in
  (Z.land (cell g from) MASK_TYPE = PIECE_PAWN ->
   Z.land to MASK_ROW = 0x00 \/ Z.land to MASK_ROW = 0x70 ->
   cell g' to = Z.lor PIECE_QUEEN (Z.land (cell g from) MASK_COLOR) /\
   promotion (fst (perform_move from to b)) = PIECE_QUEEN) /\
  (forall s,
     cell g' s = 0 \/
     cell g' s = cell g s \/
     (s = to /\ cell g' s = cell g from) \/
     (s = from + (if from >? to then -1 else 1) /\
      Z.land (cell g from) MASK_TYPE = PIECE_KING /\ Z.abs (from - to) = 2 /\
      cell g' s = cell g (from + (if from >? to then -3 else 4))) \/
     (s = to /\ Z.land (cell g from) MASK_TYPE = PIECE_PAWN /\
      (Z.land to MASK_ROW = 0x00 \/ Z.land to MASK_ROW = 0x70) /\
      cell g' s = Z.lor PIECE_QUEEN (Z.land (cell g from) MASK_COLOR))).
Proof.
  intros Hl g g'. split; [|intros s; apply perform_move_cells].
  intros Hk Hrow.
  destruct (pawn_move_squares _ _ _ Hl Hk) as (Hf & Ht & Hft & H4).
  assert (Hr : (Z.land to MASK_ROW =? 0) || (Z.land to MASK_ROW =? 112) = true).
  { destruct Hrow as [-> | ->]; reflexivity. }
  unfold g'. rewrite perform_move_run. cbv zeta. cbn [fst snd].
  split.
  - rewrite relocate_phase_cell.
    assert (E1 : (from =? to) = false) by now apply Z.eqb_neq.
    rewrite E1, Z.eqb_refl. cbn [andb].
    assert (E2 : in_grid to = true) by now apply in_grid_iff.
    rewrite E2. rewrite promotion_phase_cell, H4.
    fold g. rewrite Hk. change (PIECE_PAWN =? PIECE_PAWN) with true.
    cbn [andb]. rewrite Hr, Z.eqb_refl.
    assert (E3 : in_grid from = true) by now apply in_grid_iff.
    now rewrite E3.
  - rewrite promotion_phase_info, H4. fold g. rewrite Hk.
    change (PIECE_PAWN =? PIECE_PAWN) with true. cbn [andb].
    now rewrite Hr.
Qed.

(** ** Make then undo, in general

    [perform_revert_roundtrip] below: on a well-formed board the pair
    restores the board for every pseudo-legal move to a square of the grid,
    except a castle whose rook destination is occupied. *)

Lemma board_eq (b b' : board_component_t) :
  selected_piece b' = selected_piece b ->
  legal_move_indices b' = legal_move_indices b ->
  indices b' = indices b ->
  current_player b' = current_player b ->
  castle_bits b' = castle_bits b ->
  num_white_captures b' = num_white_captures b ->
  num_black_captures b' = num_black_captures b ->
  en_passant_pos b' = en_passant_pos b ->
  move_count b' = move_count b ->
  game_state b' = game_state b ->
  b' = b.
Proof.
  destruct b, b'; simpl; intros; subst; reflexivity.
Qed.

Lemma grid_ext (g1 g2 : list Z) :
  grid_ok g1 -> grid_ok g2 -> (forall i, cell g1 i = cell g2 i) -> g1 = g2.
Proof.
  unfold grid_ok. intros H1 H2 H.
  apply (nth_ext g1 g2 0 0); [congruence|].
  intros n Hn. specialize (H (Z.of_nat n)). unfold cell in H.
  assert (Hin : in_grid (Z.of_nat n) = true) by (apply in_grid_iff; lia).
  rewrite Hin, Nat2Z.id in H. exact H.
Qed.

Lemma same_frame_refl (b : board_component_t) : same_frame b b.
Proof. unfold same_frame. tauto. Qed.

Lemma same_frame_trans (b1 b2 b3 : board_component_t) :
  same_frame b1 b2 -> same_frame b2 b3 -> same_frame b1 b3.
Proof.
  unfold same_frame.
  intros (?&?&?&?&?&?&?) (?&?&?&?&?&?&?). repeat split; congruence.
Qed.

(** Projections of a board written with the field stores. *)
Ltac board_fields :=
  cbn [selected_piece legal_move_indices indices current_player castle_bits
       num_white_captures num_black_captures en_passant_pos move_count
       game_state set_indices set_current_player set_castle_bits
       set_en_passant_pos set_move_count set_game_state
       set_num_white_captures set_num_black_captures set_selected_piece
       set_legal_move_indices].

Ltac frame_facts :=
  run_steps; split_ifs; unfold same_frame; cbn; tauto.

Lemma king_phase_frame (from to : Z) (info : move_info_t) (b : board_component_t) :
  same_frame b (snd (king_phase from to info b)).
Proof. unfold king_phase. frame_facts. Qed.

Lemma own_rook_phase_frame (from : Z) (b : board_component_t) :
  same_frame b (snd (own_rook_phase from b)).
Proof. unfold own_rook_phase. frame_facts. Qed.

Lemma captured_rook_phase_frame (to : Z) (b : board_component_t) :
  same_frame b (snd (captured_rook_phase to b)).
Proof. unfold captured_rook_phase. frame_facts. Qed.

Lemma pawn_phase_frame (from to capture0 : Z) (info : move_info_t)
    (b : board_component_t) :
  same_frame b (snd (pawn_phase from to capture0 info b)).
Proof. unfold pawn_phase. frame_facts. Qed.

Lemma promotion_phase_frame (from to : Z) (info : move_info_t)
    (b : board_component_t) :
  same_frame b (snd (promotion_phase from to info b)).
Proof. unfold promotion_phase. frame_facts. Qed.

(** The record that [perform_move] returns. *)
Lemma king_phase_info (from to : Z) (info : move_info_t) (b : board_component_t) :
  fst (king_phase from to info b) =
  if (Z.land (cell (indices b) from) MASK_TYPE =? PIECE_KING)
     && (Z.abs (from - to) =? 2)
  then with_rook_pos (from + (if from >? to then -3 else 4))
         (with_move_type MOVE_TYPE_CASTLE info)
  else info.
Proof.
  unfold king_phase. run_steps.
  destruct (_ =? PIECE_KING); [|reflexivity].
  destruct (_ =? 2); reflexivity.
Qed.

Lemma pawn_phase_info (from to capture0 : Z) (info : move_info_t)
    (b : board_component_t) :
  fst (pawn_phase from to capture0 info b) =
  if (Z.land (cell (indices b) from) MASK_TYPE =? PIECE_PAWN)
     && negb (Z.abs (from - to) =? 32)
     && ((Z.abs (from - to) =? 17) || (Z.abs (from - to) =? 15))
     && (capture0 =? 0)
  then with_capture (cell (indices b) (en_passant_pos b)) (en_passant_pos b)
         (with_move_type MOVE_TYPE_CAPTURE info)
  else info.
Proof.
  unfold pawn_phase. run_steps.
  destruct (_ =? PIECE_PAWN); [|reflexivity].
  destruct (_ =? 32); [reflexivity|].
  cbn [andb negb]. destruct (_ && _); reflexivity.
Qed.

Lemma promotion_phase_record (from to : Z) (info : move_info_t)
    (b : board_component_t) :
  fst (promotion_phase from to info b) =
  if (Z.land (cell (indices b) from) MASK_TYPE =? PIECE_PAWN)
     && ((Z.land to MASK_ROW =? 0x00) || (Z.land to MASK_ROW =? 0x70))
  then with_promotion PIECE_QUEEN info
  else info.
Proof.
  unfold promotion_phase. run_steps.
  destruct (_ =? PIECE_PAWN); [|reflexivity].
  cbn [andb]. destruct (_ || _); reflexivity.
Qed.

Lemma relocate_phase_run (from to : Z) (b : board_component_t) :
  snd (relocate_phase from to b) =
  set_move_count (u32 (move_count b + 1))
    (set_current_player (other_player (current_player b))
       (set_indices
          (store_cell (store_cell (indices b) to (cell (indices b) from)) from 0)
          b)).
Proof. reflexivity. Qed.

Lemma revert_move_run (from to : Z) (info : move_info_t) (b : board_component_t) :
  snd (revert_move from to info b) =
  set_move_count (u32 (move_count b - 1))
    (set_current_player (other_player (current_player b))
       (set_en_passant_pos (last_en_passant_pos info)
          (set_castle_bits (last_castle_bits info)
             (set_indices (reverted_grid from to info (indices b)) b)))).
Proof.
  unfold revert_move, reverted_grid. run_steps.
  destruct (move_type info =? MOVE_TYPE_CASTLE);
    destruct (negb (promotion info =? 0)); reflexivity.
Qed.

Lemma land_color_cases (p : Z) :
  Z.land p MASK_COLOR = PIECE_WHITE \/ Z.land p MASK_COLOR = PIECE_BLACK.
Proof.
  destruct (Z.testbit p 3) eqn:E; [right | left]; apply Z.bits_inj'; intros n Hn;
    rewrite Z.land_spec; change MASK_COLOR with (2 ^ 3).
  - change PIECE_BLACK with (2 ^ 3).
    destruct (Z.eq_dec n 3) as [->|Hn3].
    + rewrite E. reflexivity.
    + rewrite Z.pow2_bits_false by lia. apply andb_false_r.
  - change PIECE_WHITE with 0. rewrite Z.bits_0.
    destruct (Z.eq_dec n 3) as [->|Hn3].
    + rewrite E. reflexivity.
    + rewrite Z.pow2_bits_false by lia. apply andb_false_r.
Qed.

Lemma other_player_twice (p : Z) :
  p = PIECE_WHITE \/ p = PIECE_BLACK -> other_player (other_player p) = p.
Proof. intros [-> | ->]; reflexivity. Qed.

Lemma u32_roundtrip (n : Z) : 0 <= n < 2 ^ 32 -> u32 (u32 (n + 1) - 1) = n.
Proof.
  intros H. unfold u32.
  destruct (Z.eq_dec n (2 ^ 32 - 1)) as [->|Hn]; [reflexivity|].
  rewrite (Z.mod_small (n + 1)) by lia.
  rewrite Z.mod_small by lia. lia.
Qed.

Lemma pawn_code_restored (p : Z) :
  0 <= p < 16 -> Z.land p MASK_TYPE = PIECE_PAWN ->
  Z.lor PIECE_PAWN
    (Z.land (Z.lor PIECE_QUEEN (Z.land p MASK_COLOR)) MASK_COLOR) = p.
Proof.
  intros Hp Hk.
  pose proof (forall_range
    (fun q => negb (Z.land q MASK_TYPE =? PIECE_PAWN)
              || (Z.lor PIECE_PAWN
                    (Z.land (Z.lor PIECE_QUEEN (Z.land q MASK_COLOR)) MASK_COLOR)
                  =? q)) 0 16 eq_refl p) as H.
  cbv beta in H. rewrite Hk in H. cbn [Z.eqb Pos.eqb negb orb PIECE_PAWN] in H.
  apply Z.eqb_eq, H. lia.
Qed.

(** The scalar fields after make then undo. *)
Lemma perform_move_frame (from to : Z) (b : board_component_t) :
  let b' := snd (perform_move from to b) in
  selected_piece b' = selected_piece b /\
  legal_move_indices b' = legal_move_indices b /\
  num_white_captures b' = num_white_captures b /\
  num_black_captures b' = num_black_captures b /\
  game_state b' = game_state b /\
  current_player b' = other_player (current_player b) /\
  move_count b' = u32 (move_count b + 1).
Proof.
  cbv zeta. rewrite perform_move_run. cbv zeta. cbn [snd].
  rewrite relocate_phase_run. board_fields.
  set (info0 := mk_move_info _ _ _ _ _ _ _).
  pose proof (king_phase_frame from to info0 b) as F1.
  pose proof (own_rook_phase_frame from (snd (king_phase from to info0 b))) as F2.
  pose proof (same_frame_trans _ _ _ F1 F2) as F12.
  pose proof (captured_rook_phase_frame to
                (snd (own_rook_phase from (snd (king_phase from to info0 b))))) as F3.
  pose proof (same_frame_trans _ _ _ F12 F3) as F123.
  match goal with
  | |- context [pawn_phase ?f ?t ?c ?i ?s] =>
      pose proof (same_frame_trans _ _ _ F123 (pawn_phase_frame f t c i s)) as F4
  end.
  match goal with
  | |- context [promotion_phase ?f ?t ?i ?s] =>
      pose proof (same_frame_trans _ _ _ F4 (promotion_phase_frame f t i s)) as F5
  end.
  unfold same_frame in F5. destruct F5 as (?&?&?&?&?&Hcp&Hmc).
  rewrite Hcp, Hmc. tauto.
Qed.

Lemma perform_move_saved (from to : Z) (b : board_component_t) :
  last_castle_bits (fst (perform_move from to b)) = castle_bits b /\
  last_en_passant_pos (fst (perform_move from to b)) = en_passant_pos b.
Proof.
  rewrite perform_move_run. cbv zeta. cbn [fst].
  rewrite promotion_phase_record, pawn_phase_info, king_phase_info.
  repeat match goal with
         | |- context [if ?c then _ else _] => destruct c
         end; cbn; auto.
Qed.

Lemma king_case_run (self : Z -> Z -> M bool) (from to : Z)
    (b : board_component_t) :
  fst (king_case self from to b) =
  let diff := Z.abs (from - to) in
  let dir := if from - to >? 0 then 1 else 0 in
  (diff =? 2)
  && negb (Z.land (Z.shiftr (castle_bits b)
                     (Z.quot (current_player b) 4 + dir)) 1 =? 0)
  && fst (self (from + (if negb (dir =? 0) then -3 else 4))
               (from + (if negb (dir =? 0) then -1 else 1)) b)
  || ((diff =? 1) || (diff =? 16) || (diff =? 17) || (diff =? 15)).
Proof.
  unfold king_case. cbv zeta. unfold bind at 1.
  destruct (Z.abs (from - to) =? 2); [|reflexivity].
  unfold bind, gets. cbv beta iota.
  destruct (negb _); cbn [andb]; [|reflexivity].
  destruct (self _ _ b) as [v b']. reflexivity.
Qed.

Lemma pseudo_legal_king (b : board_component_t) (from to : Z) :
  pseudo_legal b from to = true ->
  Z.land (cell (indices b) from) MASK_TYPE = PIECE_KING ->
  fst (king_case is_legal_move from to b) = true.
Proof.
  intros H Hk. revert H.
  unfold pseudo_legal. rewrite is_legal_move_unfold.
  unfold is_legal_move_body. cbv zeta.
  destruct (Z.land to 136 =? 0); guard_step.
  unfold bind at 1, load at 1, gets at 1; cbv beta iota.
  destruct (cell (indices b) from =? 0); guard_step.
  unfold bind at 1, gets at 1; cbv beta iota.
  destruct (Z.land (cell (indices b) from) MASK_COLOR =? current_player b);
    guard_step.
  unfold bind at 1, load at 1, gets at 1; cbv beta iota.
  unfold bind at 1, gets at 1; cbv beta iota.
  destruct (negb (cell (indices b) to =? 0) && _); guard_step.
  rewrite Hk. change (PIECE_KING =? PIECE_PAWN) with false.
  change (PIECE_KING =? PIECE_KNIGHT) with false.
  change (PIECE_KING =? PIECE_KING) with true. cbv iota.
  unfold bind at 1.
  rewrite (read_only_run _ b
             (read_only_king_case _ _ _ (fun f t => read_only_fuel 3 f t))).
  rewrite (kind_not_sliding _ _ Hk eq_refl).
  change (0 =? 0) with true. cbn [negb]. rewrite andb_false_r.
  cbn. auto.
Qed.

(** A pseudo-legal king move of two squares passed the castling test: the
    bit of line 198 is set and the rook slide is pseudo-legal. *)
Lemma pseudo_legal_castle (b : board_component_t) (from to : Z) :
  pseudo_legal b from to = true ->
  Z.land (cell (indices b) from) MASK_TYPE = PIECE_KING ->
  Z.abs (from - to) = 2 ->
  let dir := if from - to >? 0 then 1 else 0 in
  Z.land (Z.shiftr (castle_bits b) (Z.quot (current_player b) 4 + dir)) 1 <> 0 /\
  pseudo_legal b (from + (if negb (dir =? 0) then -3 else 4))
                 (from + (if negb (dir =? 0) then -1 else 1)) = true.
Proof.
  intros H Hk Hd dir.
  pose proof (pseudo_legal_king _ _ _ H Hk) as Hc.
  rewrite king_case_run in Hc. cbv zeta in Hc. rewrite Hd in Hc.
  change (2 =? 2) with true in Hc. change (2 =? 1) with false in Hc.
  change (2 =? 16) with false in Hc. change (2 =? 17) with false in Hc.
  change (2 =? 15) with false in Hc.
  cbn [orb andb] in Hc. rewrite orb_false_r in Hc.
  apply andb_true_iff in Hc. destruct Hc as [Hbit Hrook].
  apply negb_true_iff, Z.eqb_neq in Hbit. split; assumption.
Qed.

Section LegalMove.

Variable b : board_component_t.
Variables from to : Z.
Hypothesis Hlegal : pseudo_legal b from to = true.

(** The states between the phases of [perform_move from to] run on [b]. *)
Local Abbreviation info0 :=
  (mk_move_info
     (if cell (indices b) to =? 0 then MOVE_TYPE_MOVE else MOVE_TYPE_CAPTURE)
     (cell (indices b) to) to 0 (castle_bits b) (en_passant_pos b) 0).
Local Abbreviation b1 := (snd (king_phase from to info0 b)).
Local Abbreviation b3 :=
  (snd (captured_rook_phase to (snd (own_rook_phase from b1)))).
Local Abbreviation r4 :=
  (pawn_phase from to (cell (indices b) to)
     (fst (king_phase from to info0 b)) b3).

Lemma legal_from_on_grid : 0 <= from < 128.
Proof.
  pose proof (pseudo_legal_guards _ _ _ Hlegal) as (_ & Hne & _ & _).
  now apply (cell_nonzero_in_grid (indices b)).
Qed.

Lemma legal_from_not_to : from <> to.
Proof.
  pose proof (pseudo_legal_guards _ _ _ Hlegal) as (_ & Hne & Hcol & Hcap).
  intros E. rewrite <- E in Hcap. destruct Hcap; congruence.
Qed.

Lemma b3_cell (x : Z) : cell (indices b3) x = cell (indices b1) x.
Proof.
  now rewrite captured_rook_phase_indices, own_rook_phase_indices.
Qed.

Lemma b3_ep : en_passant_pos b3 = en_passant_pos b.
Proof.
  now rewrite captured_rook_phase_ep, own_rook_phase_ep, king_phase_ep.
Qed.

Lemma b3_from : cell (indices b3) from = cell (indices b) from.
Proof. rewrite b3_cell. apply king_phase_keeps_from. Qed.

(** The en-passant victim stands next to [from]. *)
Lemma en_passant_victim :
  is_en_passant b from to = true ->
  en_passant_pos b = from - 1 \/ en_passant_pos b = from + 1.
Proof.
  unfold is_en_passant. intros H.
  apply andb_true_iff in H. destruct H as [H Hc].
  apply andb_true_iff in H. destruct H as [H Hd].
  apply andb_true_iff in H. destruct H as [Hk _].
  apply Z.eqb_eq in Hk. apply Z.eqb_eq in Hc.
  pose proof (pawn_case_shape _ _ _ _ _ (pseudo_legal_pawn _ _ _ Hlegal Hk))
    as [_ Hep].
  apply Hep; [|exact Hc].
  apply orb_true_iff in Hd. destruct Hd as [Hd|Hd]; apply Z.eqb_eq in Hd; auto.
Qed.

Lemma b4_cell (x : Z) :
  cell (indices (snd r4)) x =
  if is_en_passant b from to
     && ((en_passant_pos b =? x) && in_grid (en_passant_pos b))
  then 0 else cell (indices b1) x.
Proof.
  rewrite pawn_phase_cell, b3_from, b3_ep, b3_cell.
  fold (is_en_passant b from to).
  destruct (is_en_passant b from to); [|reflexivity].
  cbn [andb]. reflexivity.
Qed.

Lemma b4_from : cell (indices (snd r4)) from = cell (indices b) from.
Proof.
  rewrite b4_cell. rewrite king_phase_keeps_from.
  destruct (is_en_passant b from to) eqn:E; [|reflexivity].
  destruct (en_passant_victim E) as [H|H]; rewrite H;
    (replace (_ =? from) with false by (symmetry; apply Z.eqb_neq; lia));
    reflexivity.
Qed.

(** The record returned by [perform_move]. *)
Lemma perform_move_record :
  fst (perform_move from to b) =
  let i1 :=
    if is_castle b from to
    then with_rook_pos (from + (if from >? to then -3 else 4))
           (with_move_type MOVE_TYPE_CASTLE info0)
    else info0 in
  let i2 :=
    if is_en_passant b from to
    then with_capture (cell (indices b1) (en_passant_pos b)) (en_passant_pos b)
           (with_move_type MOVE_TYPE_CAPTURE i1)
    else i1 in
  if is_promotion b from to then with_promotion PIECE_QUEEN i2 else i2.
Proof.
  rewrite perform_move_run. cbv zeta. cbn [fst].
  rewrite promotion_phase_record, b4_from. fold (is_promotion b from to).
  rewrite pawn_phase_info, b3_from, b3_ep, b3_cell.
  fold (is_en_passant b from to).
  rewrite king_phase_info. fold (is_castle b from to). reflexivity.
Qed.

(** The grid after [perform_move]. *)
Lemma perform_move_cell (s : Z) :
  0 <= to < 128 ->
  cell (indices (snd (perform_move from to b))) s =
  if from =? s then 0
  else if to =? s then
    (if is_promotion b from to
     then Z.lor PIECE_QUEEN (Z.land (cell (indices b) from) MASK_COLOR)
     else cell (indices b) from)
  else if is_en_passant b from to
          && ((en_passant_pos b =? s) && in_grid (en_passant_pos b))
  then 0
  else cell (indices b1) s.
Proof.
  intros Hto.
  pose proof legal_from_on_grid as Hfrom.
  rewrite perform_move_run. cbv zeta. cbn [snd].
  rewrite relocate_phase_cell.
  assert (E1 : in_grid from = true) by now apply in_grid_iff.
  assert (E2 : in_grid to = true) by now apply in_grid_iff.
  rewrite E1, E2, !andb_true_r.
  destruct (Z.eqb_spec from s) as [Hfs|Hfs]; [reflexivity|].
  rewrite !promotion_phase_cell, b4_from. fold (is_promotion b from to).
  rewrite E1, Z.eqb_refl. cbn [andb].
  destruct (Z.eqb_spec to s) as [Hts|Hts].
  - destruct (is_promotion b from to); reflexivity.
  - replace (from =? s) with false by (symmetry; now apply Z.eqb_neq).
    cbn [andb]. rewrite b4_cell.
    destruct (is_promotion b from to); reflexivity.
Qed.

End LegalMove.

Lemma castle_not_pawn (b : board_component_t) (from to : Z) :
  is_castle b from to = true ->
  is_en_passant b from to = false /\ is_promotion b from to = false.
Proof.
  unfold is_castle, is_en_passant, is_promotion. intros H.
  apply andb_true_iff in H. destruct H as [Hk _]. apply Z.eqb_eq in Hk.
  rewrite Hk. split; reflexivity.
Qed.

Lemma perform_revert_grid (b : board_component_t) (from to s : Z) :
  (forall i, 0 <= cell (indices b) i < 16) ->
  0 <= to < 128 ->
  pseudo_legal b from to = true ->
  (is_castle b from to = true ->
   cell (indices b) (from + (if from >? to then -1 else 1)) = 0) ->
  cell (reverted_grid from to (fst (perform_move from to b))
          (indices (snd (perform_move from to b)))) s
  = cell (indices b) s.
Proof.
  intros Hcodes Hto Hl Hrook.
  pose proof (legal_from_on_grid _ _ _ Hl) as Hfrom.
  pose proof (legal_from_not_to _ _ _ Hl) as Hft.
  assert (E1 : in_grid from = true) by now apply in_grid_iff.
  assert (E2 : in_grid to = true) by now apply in_grid_iff.
  unfold reverted_grid. rewrite (perform_move_record _ _ _ Hl). cbv zeta.
  destruct (is_castle b from to) eqn:EC.
  - (* castle *)
    destruct (castle_not_pawn _ _ _ EC) as [EE EP]. rewrite EE, EP.
    cbn [capture_pos capture move_type promotion with_rook_pos with_move_type].
    change (MOVE_TYPE_CASTLE =? MOVE_TYPE_CASTLE) with true.
    change (negb (0 =? 0)) with false. cbv iota.
    specialize (Hrook eq_refl).
    rewrite !cell_store_cell.
    rewrite !(perform_move_cell _ _ _ Hl _ Hto). rewrite EE, EP.
    cbn [andb]. rewrite !king_phase_cell.
    fold (is_castle b from to). rewrite EC. cbv zeta.
    rewrite E1, E2, ?andb_true_r.
    assert (Hd : Z.abs (from - to) = 2).
    { unfold is_castle in EC. apply andb_true_iff in EC.
      now apply Z.eqb_eq. }
    destruct (Z.gtb_spec from to) as [Hgt|Hle];
      [replace (in_grid (from + -1)) with true
         by (symmetry; apply in_grid_iff; lia)
      |replace (in_grid (from + 1)) with true
         by (symmetry; apply in_grid_iff; lia)];
      repeat match goal with
             | |- context [?x =? ?y] =>
                 destruct (Z.eqb_spec x y); try lia; cbn [andb]
             | |- context [in_grid ?x] =>
                 destruct (in_grid x) eqn:?; cbn [andb]
             end;
      try reflexivity; try (f_equal; lia);
      try (rewrite <- Hrook; f_equal; lia).
  - (* no castle: the grid of the king phase is the grid before the move *)
    assert (Hb1 : forall x,
      cell (indices (snd (king_phase from to
        (mk_move_info
           (if cell (indices b) to =? 0 then MOVE_TYPE_MOVE else MOVE_TYPE_CAPTURE)
           (cell (indices b) to) to 0 (castle_bits b) (en_passant_pos b) 0) b))) x
      = cell (indices b) x).
    { intros x. rewrite king_phase_cell. fold (is_castle b from to).
      now rewrite EC. }
    assert (Hmt :
      ((if cell (indices b) to =? 0 then MOVE_TYPE_MOVE else MOVE_TYPE_CAPTURE)
       =? MOVE_TYPE_CASTLE) = false)
      by (destruct (_ =? 0); reflexivity).
    assert (Hempty : is_en_passant b from to = true -> cell (indices b) to = 0).
    { unfold is_en_passant. intros H. apply andb_true_iff in H.
      destruct H as [_ H]. now apply Z.eqb_eq. }
    assert (Hpawn : is_promotion b from to = true ->
      Z.lor PIECE_PAWN
        (Z.land (Z.lor PIECE_QUEEN (Z.land (cell (indices b) from) MASK_COLOR))
           MASK_COLOR) = cell (indices b) from).
    { unfold is_promotion. intros H. apply andb_true_iff in H.
      destruct H as [Hk _]. apply Z.eqb_eq in Hk.
      now apply pawn_code_restored. }
    destruct (is_en_passant b from to) eqn:EE;
      destruct (is_promotion b from to) eqn:EP;
      cbn [capture_pos capture move_type promotion with_capture
           with_move_type with_promotion];
      rewrite ?Hmt;
      change (MOVE_TYPE_CAPTURE =? MOVE_TYPE_CASTLE) with false;
      change (negb (PIECE_QUEEN =? 0)) with true;
      change (negb (0 =? 0)) with false; cbv iota;
      rewrite !cell_store_cell;
      rewrite ?(perform_move_cell _ _ _ Hl _ Hto); rewrite ?EE, ?EP;
      cbn [andb]; rewrite ?Hb1; rewrite ?E1, ?E2, ?andb_true_r;
      try (destruct (en_passant_victim _ _ _ Hl EE) as [Hv|Hv]; rewrite ?Hv);
      try specialize (Hpawn eq_refl); try specialize (Hempty eq_refl);
      repeat match goal with
             | |- context [?x =? ?y] =>
                 destruct (Z.eqb_spec x y); try lia; cbn [andb]
             | |- context [in_grid ?x] =>
                 destruct (in_grid x) eqn:?; cbn [andb]
             end;
      try reflexivity; try (f_equal; lia); try congruence.
Qed.

Lemma king_phase_grid_ok (from to : Z) (info : move_info_t) (b : board_component_t) :
  grid_ok (indices b) -> grid_ok (indices (snd (king_phase from to info b))).
Proof.
  intros H. unfold king_phase. run_steps.
  split_ifs; cbn [snd]; board_fields; auto using grid_ok_store_cell.
Qed.

Lemma pawn_phase_grid_ok (from to capture0 : Z) (info : move_info_t)
    (b : board_component_t) :
  grid_ok (indices b) ->
  grid_ok (indices (snd (pawn_phase from to capture0 info b))).
Proof.
  intros H. unfold pawn_phase. run_steps.
  split_ifs; cbn [snd]; board_fields; auto using grid_ok_store_cell.
Qed.

Lemma promotion_phase_grid_ok (from to : Z) (info : move_info_t)
    (b : board_component_t) :
  grid_ok (indices b) -> grid_ok (indices (snd (promotion_phase from to info b))).
Proof.
  intros H. unfold promotion_phase. run_steps.
  split_ifs; cbn [snd]; board_fields; auto using grid_ok_store_cell.
Qed.

Lemma perform_move_grid_ok (from to : Z) (b : board_component_t) :
  grid_ok (indices b) -> grid_ok (indices (snd (perform_move from to b))).
Proof.
  intros H. rewrite perform_move_run. cbv zeta. cbn [snd].
  rewrite relocate_phase_run. board_fields.
  repeat apply grid_ok_store_cell.
  apply promotion_phase_grid_ok, pawn_phase_grid_ok.
  rewrite captured_rook_phase_indices, own_rook_phase_indices.
  now apply king_phase_grid_ok.
Qed.

Lemma reverted_grid_ok (from to : Z) (info : move_info_t) (g : list Z) :
  grid_ok g -> grid_ok (reverted_grid from to info g).
Proof.
  intros H. unfold reverted_grid. cbv zeta.
  destruct (negb _); destruct (_ =? MOVE_TYPE_CASTLE);
    now repeat apply grid_ok_store_cell.
Qed.

(** Make then undo restores the board, field by field, for every
    pseudo-legal move to a square of the grid on a well-formed board,
    provided a castle finds the rook's destination empty. *)
Theorem perform_revert_roundtrip (b : board_component_t) (from to : Z) :
  well_formed b ->
  0 <= to < 128 ->
  pseudo_legal b from to = true ->
  (is_castle b from to = true ->
   cell (indices b) (from + (if from >? to then -1 else 1)) = 0) ->
  snd (revert_move from to (fst (perform_move from to b))
         (snd (perform_move from to b))) = b.
Proof.
  intros (Hg & Hmc & Hcodes) Hto Hl Hrook.
  rewrite revert_move_run.
  pose proof (perform_move_frame from to b) as F. cbv zeta in F.
  destruct F as (F1 & F2 & F3 & F4 & F5 & Fcp & Fmc).
  destruct (perform_move_saved from to b) as [S1 S2].
  apply board_eq; board_fields; auto.
  - apply grid_ext; [apply reverted_grid_ok, perform_move_grid_ok, Hg | exact Hg |].
    intros s. now apply perform_revert_grid.
  - rewrite Fcp. apply other_player_twice.
    pose proof (pseudo_legal_guards _ _ _ Hl) as (_ & _ & Hcol & _).
    rewrite <- Hcol. apply land_color_cases.
  - rewrite Fmc. now apply u32_roundtrip.
Qed.

(** ** King safety and the end of the game, where make/undo is exact *)

Lemma read_only_find_piece_loop (n : nat) (i piece : Z) :
  read_only (find_piece_loop n i piece).
Proof.
  revert i; induction n as [|n IH]; intros i; simpl; auto 10 with readonly.
Qed.

Lemma read_only_attack_loop (n : nat) (i pos : Z) :
  read_only (attack_loop n i pos).
Proof.
  revert i; induction n as [|n IH]; intros i; simpl.
  - apply read_only_ret.
  - apply read_only_bind; [apply read_only_fuel|].
    intros []; [apply read_only_ret | apply IH].
Qed.

Lemma read_only_is_piece_attacked (piece : Z) :
  read_only (is_piece_attacked piece).
Proof.
  unfold is_piece_attacked. apply read_only_bind.
  - apply read_only_find_piece_loop.
  - intros pos. apply read_only_attack_loop.
Qed.

Lemma is_checked_after_move_run (from to : Z) (b : board_component_t) :
  snd (is_checked_after_move from to b) =
  snd (revert_move from to (fst (perform_move from to b))
         (snd (perform_move from to b))).
Proof.
  unfold is_checked_after_move. unfold bind at 1.
  destruct (perform_move from to b) as [info b1]. cbn [fst snd].
  unfold bind at 1, gets at 1. cbv beta iota.
  unfold bind at 1.
  rewrite (read_only_run _ b1 (read_only_is_piece_attacked _)).
  unfold bind, ret. destruct (revert_move from to info b1) as [[] b2].
  reflexivity.
Qed.

Lemma legal_and_safe_frame (from to : Z) (b : board_component_t) :
  (pseudo_legal b from to = true ->
   snd (revert_move from to (fst (perform_move from to b))
          (snd (perform_move from to b))) = b) ->
  snd (legal_and_safe from to b) = b.
Proof.
  intros H. unfold legal_and_safe. unfold bind at 1.
  rewrite is_legal_move_run.
  destruct (pseudo_legal b from to); [|reflexivity].
  specialize (H eq_refl). rewrite <- is_checked_after_move_run in H.
  unfold bind, ret. destruct (is_checked_after_move from to b) as [c b'].
  exact H.
Qed.

Section ExactUndo.

Variable b : board_component_t.

(** Every make/undo that the loops of [check_end_condition_reached] run on
    [b] hands [b] back. *)
Hypothesis undo_exact :
  forall from to, 0 <= from < 128 -> 0 <= to < 128 ->
    pseudo_legal b from to = true ->
    snd (revert_move from to (fst (perform_move from to b))
           (snd (perform_move from to b))) = b.

Lemma count_to_loop_spec (n : nat) (from to acc : Z) :
  0 <= from < 128 -> 0 <= to -> to + Z.of_nat n <= 128 ->
  let r := count_to_loop n from to acc b in
  snd r = b /\ acc <= fst r /\
  (fst r = acc <->
   forall t, to <= t < to + Z.of_nat n -> fst (legal_and_safe from t b) = false).
Proof.
  revert to acc. induction n as [|n IH]; intros to acc Hf Ht Hn; cbv zeta.
  - simpl. repeat split; try lia.
  - pose proof (legal_and_safe_frame from to b) as Hfr.
    assert (Hb : snd (legal_and_safe from to b) = b)
      by (apply Hfr; intros Hl; apply undo_exact; auto; lia).
    destruct (legal_and_safe from to b) as [c b'] eqn:E.
    cbn [snd] in Hb. subst b'.
    assert (Hstep : count_to_loop (S n) from to acc b =
                    count_to_loop n from (to + 1) (acc + (if c then 1 else 0)) b)
      by (cbn [count_to_loop]; unfold bind; now rewrite E).
    rewrite Hstep. clear Hstep.
    specialize (IH (to + 1) (acc + (if c then 1 else 0)) Hf ltac:(lia) ltac:(lia)).
    cbv zeta in IH. destruct IH as (IH1 & IH2 & IH3).
    split; [exact IH1|]. split; [destruct c; lia|].
    split.
    + intros Heq t Htr.
      assert (Hc : c = false) by (destruct c; [lia | reflexivity]).
      subst c. destruct (Z.eq_dec t to) as [->|Hne].
      * now rewrite E.
      * apply IH3; [cbn in *; lia | lia].
    + intros Hall.
      assert (Hc : c = false).
      { specialize (Hall to ltac:(lia)). now rewrite E in Hall. }
      subst c. rewrite Z.add_0_r in *. apply IH3.
      intros t Htr. apply Hall. lia.
Qed.

Lemma count_from_loop_spec (n : nat) (from acc : Z) :
  0 <= from -> from + Z.of_nat n <= 128 ->
  let r := count_from_loop n from acc b in
  snd r = b /\ acc <= fst r /\
  (fst r = acc <->
   forall f t, from <= f < from + Z.of_nat n -> 0 <= t < 128 ->
     fst (legal_and_safe f t b) = false).
Proof.
  revert from acc. induction n as [|n IH]; intros from acc Hf Hn; cbv zeta.
  - simpl. repeat split; try lia.
  - pose proof (count_to_loop_spec 128 from 0 acc ltac:(lia) ltac:(lia) ltac:(lia))
      as Hrow.
    cbv zeta in Hrow. destruct Hrow as (R1 & R2 & R3).
    destruct (count_to_loop 128 from 0 acc b) as [acc' b'] eqn:E.
    cbn [fst snd] in R1, R2, R3. subst b'.
    assert (Hstep : count_from_loop (S n) from acc b =
                    count_from_loop n (from + 1) acc' b)
      by (cbn [count_from_loop]; unfold bind; now rewrite E).
    rewrite Hstep. clear Hstep.
    specialize (IH (from + 1) acc' ltac:(lia) ltac:(lia)).
    cbv zeta in IH. destruct IH as (IH1 & IH2 & IH3).
    split; [exact IH1|]. split; [lia|].
    split.
    + intros Heq f t Hfr Htr.
      assert (Ha : acc' = acc) by lia. subst acc'.
      destruct (Z.eq_dec f from) as [->|Hne].
      * apply R3; [reflexivity | lia].
      * apply IH3; [exact Heq | lia | lia].
    + intros Hall.
      assert (Ha : acc' = acc).
      { apply R3. intros t Htr. apply Hall; lia. }
      subst acc'. apply IH3. intros f t Hfr Htr. apply Hall; lia.
Qed.

Lemma check_end_condition_run :
  snd (check_end_condition_reached b) =
  set_game_state
    (if fst (count_from_loop 128 0 0 b) =? 0 then
       if fst (is_piece_attacked (Z.lor PIECE_KING (current_player b))
                 (set_current_player (other_player (current_player b)) b))
       then (if current_player b =? PIECE_WHITE
             then STATE_BLACK_WIN_BY_CHECKMATE
             else STATE_WHITE_WIN_BY_CHECKMATE)
       else STATE_DRAW_BY_STALEMATE
     else STATE_PLAYING) b.
Proof.
  unfold check_end_condition_reached.
  unfold bind at 1, gets at 1. cbv beta iota.
  unfold bind at 1, modify at 1. cbv beta iota.
  unfold bind at 1.
  rewrite (read_only_run _ _ (read_only_is_piece_attacked _)).
  unfold bind at 1, modify at 1. cbv beta iota.
  assert (Hb : set_current_player (current_player b)
                 (set_current_player (other_player (current_player b)) b) = b)
    by (destruct b; reflexivity).
  rewrite Hb. unfold bind at 1.
  pose proof (count_from_loop_spec 128 0 0 ltac:(lia) ltac:(lia)) as Hc.
  cbv zeta in Hc. destruct Hc as (C1 & _).
  destruct (count_from_loop 128 0 0 b) as [num b1].
  cbn [fst snd] in C1 |- *. subst b1.
  destruct (num =? 0); [|reflexivity].
  destruct (fst (is_piece_attacked _ _)); reflexivity.
Qed.

(** The terminal tag that [check_end_condition_reached] computes, and
    nothing else changes. *)
Theorem check_end_condition_exact :
  let player := current_player b in
  let checked :=
    fst (is_piece_attacked (Z.lor PIECE_KING player)
           (set_current_player (other_player player) b)) in
  let no_legal_move :=
    forall from to, 0 <= from < 128 -> 0 <= to < 128 ->
      fst (legal_and_safe from to b) = false in
  let b' := snd (check_end_condition_reached b) in
  (exists tag, b' = set_game_state tag b) /\
  (no_legal_move -> checked = true ->
   game_state b' = (if player =? PIECE_WHITE then STATE_BLACK_WIN_BY_CHECKMATE
                    else STATE_WHITE_WIN_BY_CHECKMATE)) /\
  (no_legal_move -> checked = false ->
   game_state b' = STATE_DRAW_BY_STALEMATE) /\
  (~ no_legal_move -> game_state b' = STATE_PLAYING).
Proof.
  cbv zeta. rewrite check_end_condition_run.
  pose proof (count_from_loop_spec 128 0 0 ltac:(lia) ltac:(lia)) as Hc.
  cbv zeta in Hc. destruct Hc as (_ & _ & C3).
  assert (C3' : fst (count_from_loop 128 0 0 b) = 0 <->
    forall from to, 0 <= from < 128 -> 0 <= to < 128 ->
      fst (legal_and_safe from to b) = false).
  { rewrite C3. split; intros H f t Hf Ht; apply H; lia. }
  clear C3. board_fields.
  split; [eexists; reflexivity|].
  destruct (Z.eqb_spec (fst (count_from_loop 128 0 0 b)) 0) as [E|E].
  - repeat split.
    + intros _ ->. reflexivity.
    + intros _ ->. reflexivity.
    + intros Hn. exfalso. apply Hn, C3', E.
  - repeat split.
    + intros Hno. exfalso. apply E, C3', Hno.
    + intros Hno. exfalso. apply E, C3', Hno.
Qed.

End ExactUndo.

(** X15: on a well-formed board where no castle would put its rook on an
    occupied square, [check_end_condition_reached] changes the terminal tag
    and nothing else, and the tag is: win by checkmate for the opponent of
    the side to move when no pair of squares of 0..127 is pseudo-legal and
    king-safe and the king of the side to move is attacked; draw by
    stalemate when there is no such pair and the king is not attacked;
    playing otherwise. *)
Theorem check_end_condition_clear_castles (b : board_component_t) :
  well_formed b -> castles_clear b ->
  let player := current_player b in
  let checked :=
    fst (is_piece_attacked (Z.lor PIECE_KING player)
           (set_current_player (other_player player) b)) in
  let no_legal_move :=
    forall from to, 0 <= from < 128 -> 0 <= to < 128 ->
      fst (legal_and_safe from to b) = false in
  let b' := snd (check_end_condition_reached b) in
  (exists tag, b' = set_game_state tag b) /\
  (no_legal_move -> checked = true ->
   game_state b' = (if player =? PIECE_WHITE then STATE_BLACK_WIN_BY_CHECKMATE
                    else STATE_WHITE_WIN_BY_CHECKMATE)) /\
  (no_legal_move -> checked = false ->
   game_state b' = STATE_DRAW_BY_STALEMATE) /\
  (~ no_legal_move -> game_state b' = STATE_PLAYING).
Proof.
  intros Hwf Hclear. apply check_end_condition_exact.
  intros from to Hf Ht Hl. apply perform_revert_roundtrip; auto.
Qed.

(** The target-square handler leaves the board alone when there is no live
    selection, when the move is not pseudo-legal, and when it is pseudo-legal
    but not king-safe and the make/undo of the safety test is exact (a
    destination on the grid, and for a castle an empty rook destination). *)
Theorem try_move_rejected_noop (is_entity_alive : Z -> bool)
    (piece_board_position piece_mask : Z -> Z) (x z : Z)
    (b : board_component_t) :
  let from := piece_board_position (selected_piece b) in
  let to := x + z * 16 in
  well_formed b ->
  is_entity_alive (selected_piece b) = false \/
  fst (legal_and_safe from to b) = false ->
  (pseudo_legal b from to = true ->
   0 <= to < 128 /\
   (is_castle b from to = true ->
    cell (indices b) (from + (if from >? to then -1 else 1)) = 0)) ->
  try_move_selected_piece is_entity_alive piece_board_position piece_mask x z b
  = (tt, b).
Proof.
  cbv zeta. intros Hwf Hrej Hexact.
  unfold try_move_selected_piece.
  unfold bind at 1, gets at 1. cbv beta iota.
  destruct (is_entity_alive (selected_piece b)) eqn:Ea; cbn [negb];
    [|reflexivity].
  destruct Hrej as [Hrej|Hrej]; [discriminate Hrej|].
  unfold bind at 1.
  pose proof (legal_and_safe_frame (piece_board_position (selected_piece b))
                (x + z * 16) b) as Hfr.
  assert (Hb : snd (legal_and_safe (piece_board_position (selected_piece b))
                      (x + z * 16) b) = b).
  { apply Hfr. intros Hl. destruct (Hexact Hl) as [Ht Hc].
    now apply perform_revert_roundtrip. }
  destruct (legal_and_safe _ _ b) as [ok b'].
  cbn [fst snd] in Hrej, Hb. subst ok b'. reflexivity.
Qed.

(** ** The castle bit that [is_legal_move] tests *)

Lemma land_1_testbit (x : Z) : Z.land x 1 <> 0 -> Z.testbit x 0 = true.
Proof.
  intros H. change 1 with (Z.ones 1) in H. rewrite Z.land_ones in H by lia.
  change (2 ^ 1) with 2 in H. rewrite <- Z.bit0_mod in H.
  destruct (Z.testbit x 0); [reflexivity | now elim H].
Qed.

(** X14: what a pseudo-legal castle has passed.  For a king moving two
    squares, toward lower indices (rook origin [from - 3]) bit 1 of the
    mover's pair of castle bits is set, toward higher indices (rook origin
    [from + 4]) bit 0 is set, and in both cases the move of the piece on the
    rook's origin to the square next to the king, [from -+ 1], is itself
    pseudo-legal. *)
Theorem castle_bit_tested (b : board_component_t) (from to : Z) :
  pseudo_legal b from to = true ->
  Z.land (cell (indices b) from) MASK_TYPE = PIECE_KING ->
  Z.abs (from - to) = 2 ->
  Z.testbit (castle_bits b)
    (Z.quot (current_player b) 4 + (if from >? to then 1 else 0)) = true /\
  pseudo_legal b (from + (if from >? to then -3 else 4))
                 (from + (if from >? to then -1 else 1)) = true.
Proof.
  intros Hl Hk Hd.
  destruct (pseudo_legal_castle _ _ _ Hl Hk Hd) as [Hbit Hrook].
  apply land_1_testbit in Hbit. rewrite Z.shiftr_spec in Hbit by lia.
  rewrite Z.add_0_l in Hbit.
  destruct (Z.gtb_spec from to) as [Hgt|Hle].
  - replace (from - to >? 0) with true in * by (symmetry; apply Z.gtb_lt; lia).
    cbn [negb Z.eqb] in Hrook. split; assumption.
  - replace (from - to >? 0) with false in *
      by (symmetry; destruct (Z.gtb_spec (from - to) 0); [lia | reflexivity]).
    cbn [negb Z.eqb] in Hrook. split; assumption.
Qed.

Lemma own_rook_phase_clears (from : Z) (b : board_component_t) :
  Z.land (cell (indices b) from) MASK_TYPE = PIECE_ROOK ->
  castle_bits (snd (own_rook_phase from b)) =
  if (from =? 0x0) || (from =? 0x70)
  then u8 (Z.land (castle_bits b)
             (Z.lnot (Z.shiftl 1 (Z.quot (current_player b) 4 + 0))))
  else if (from =? 0x7) || (from =? 0x77)
  then u8 (Z.land (castle_bits b)
             (Z.lnot (Z.shiftl 1 (Z.quot (current_player b) 4 + 1))))
  else castle_bits b.
Proof.
  intros Hk. unfold own_rook_phase. run_steps. rewrite Hk.
  change (PIECE_ROOK =? PIECE_ROOK) with true. cbv iota.
  destruct (_ || _); [reflexivity|]. destruct (_ || _); reflexivity.
Qed.

(** ** The side conditions, computed *)

Lemma well_formed_checked (b : board_component_t) :
  well_formed_check b = true -> well_formed b.
Proof.
  unfold well_formed_check, well_formed, grid_ok. intros H.
  apply andb_true_iff in H. destruct H as [H Hcells].
  apply andb_true_iff in H. destruct H as [H Hhi].
  apply andb_true_iff in H. destruct H as [Hlen Hlo].
  apply Nat.eqb_eq in Hlen. apply Z.leb_le in Hlo. apply Z.ltb_lt in Hhi.
  repeat split; try assumption; try lia;
    (destruct (in_grid i) eqn:Hi;
     [apply in_grid_iff in Hi;
      pose proof (forall_in_grid _ Hcells i Hi) as Hc; cbv beta in Hc;
      apply andb_true_iff in Hc; destruct Hc as [Hc1 Hc2];
      apply Z.leb_le in Hc1; apply Z.ltb_lt in Hc2; lia
     |unfold cell; rewrite Hi; lia]).
Qed.

Lemma castles_clear_checked (b : board_component_t) :
  castles_clear_check b = true -> castles_clear b.
Proof.
  unfold castles_clear_check, castles_clear. intros H from to Hl Hc.
  pose proof (legal_from_on_grid _ _ _ Hl) as Hf.
  pose proof (pseudo_legal_guards _ _ _ Hl) as (Hto & _).
  assert (Hd : Z.abs (from - to) = 2).
  { pose proof Hc as Hc'. unfold is_castle in Hc'.
    apply andb_true_iff in Hc'. destruct Hc' as [_ Hc'].
    apply Z.eqb_eq. exact Hc'. }
  assert (Ht : 0 <= to < 128) by (apply (on_board_near from); lia).
  pose proof (forall_in_grid _ H from Hf) as H1. cbv beta in H1.
  pose proof (forall_in_grid _ H1 to Ht) as H2. cbv beta in H2.
  clear H H1. rewrite Hl, Hc in H2. cbn [andb negb orb] in H2.
  apply Z.eqb_eq. exact H2.
Qed.

(** The general result applies to the initial position: the double push of
    the pawn of 0x64 is undone exactly. *)
Example initial_board_roundtrip :
  snd (revert_move 0x64 0x44 (fst (perform_move 0x64 0x44 initial_board))
         (snd (perform_move 0x64 0x44 initial_board))) = initial_board.
Proof.
  apply perform_revert_roundtrip.
  - apply well_formed_checked. vm_compute. reflexivity.
  - lia.
  - vm_compute. reflexivity.
  - intros H. vm_compute in H. discriminate H.
Qed.

(** The positions with a piece on a rook's destination are well formed;
    each has a pseudo-legal castle onto it. *)
Lemma failing_positions_well_formed :
  well_formed board_knight_on_72 /\ well_formed board_castle_unsafe /\
  well_formed board_mate /\
  castles_clear_check board_knight_on_72 = false /\
  castles_clear_check board_castle_unsafe = false /\
  castles_clear_check board_mate = false.
Proof.
  split; [apply well_formed_checked; vm_compute; reflexivity|].
  split; [apply well_formed_checked; vm_compute; reflexivity|].
  split; [apply well_formed_checked; vm_compute; reflexivity|].
  split; [|split]; vm_compute; reflexivity.
Qed.

(** ** Witnesses on concrete positions *)

Lemma promotion_law_witness :
  cell (indices (snd (perform_move 0x12 0x02 board_promotion))) 0x02
    = Z.lor PIECE_QUEEN PIECE_WHITE /\
  promotion (fst (perform_move 0x12 0x02 board_promotion)) = PIECE_QUEEN.
Proof.
  apply (promotion_law board_promotion 0x12 0x02);
    [vm_compute; reflexivity | reflexivity | left; reflexivity].
Defined.

Lemma castle_bits_only_clear_witness :
  Z.testbit (castle_bits (snd (perform_move 0x73 0x71 board_rook_returned))) 0
    = false /\
  Z.testbit
    (castle_bits (snd (perform_moves [(0x73, 0x71); (0x22, 0x01)] board_rook_returned)))
    0 = false.
Proof.
  apply (castle_bits_only_clear board_rook_returned 0x73 0x71
           [(0x73, 0x71); (0x22, 0x01)] 0).
  reflexivity.
Defined.

(** ** Where the code leaves the specification *)

(** C1 (fails on the code): make then undo does not restore the board.  On
    [board_knight_on_72], which satisfies the invariants of section 3.3 and
    is reached by legal play, the castle 0x73 -> 0x71 is pseudo-legal (and
    king-safe); [perform_move] moves the rook from 0x70 onto 0x72 over the
    Black knight standing there, and [revert_move] moves the rook back and
    leaves 0x72 empty: the knight is gone, every other field is restored. *)
Theorem castle_roundtrip_drops_piece :
  all_legal game_knight_on_72 initial_board = true /\
  snd (perform_moves game_knight_on_72 initial_board) = board_knight_on_72 /\
  invariants_3_3 board_knight_on_72 = true /\
  pseudo_legal board_knight_on_72 0x73 0x71 = true /\
  fst (legal_and_safe 0x73 0x71 board_knight_on_72) = true /\
  let made := perform_move 0x73 0x71 board_knight_on_72 in
  let undone := snd (revert_move 0x73 0x71 (fst made) (snd made)) in
  move_type (fst made) = MOVE_TYPE_CASTLE /\
  cell (indices board_knight_on_72) 0x72 = Z.lor PIECE_KNIGHT PIECE_BLACK /\
  cell (indices (snd made)) 0x72 = Z.lor PIECE_ROOK PIECE_WHITE /\
  cell (indices undone) 0x72 = 0 /\
  undone = set_indices (store_cell (indices board_knight_on_72) 0x72 0)
             board_knight_on_72 /\
  undone <> board_knight_on_72.
Proof.
  repeat split; try (vm_compute; reflexivity).
  intros H. apply (f_equal (fun b => cell (indices b) 0x72)) in H.
  vm_compute in H. discriminate H.
Qed.

(** C2 (fails on the code): the legality test and the make use different
    bits for the same rook.  From the initial position the rook of 0x70
    (file 0) steps out and back: [perform_move] clears bit 0 of White's pair
    when it leaves, bit 1 stays set.  On the board reached, castling toward
    lower indices, whose rook origin is [from - 3 = 0x70], is pseudo-legal
    (and king-safe) although bit 0 is clear: [is_legal_move] tests bit 1 for
    that side. *)
Theorem castle_tests_other_bit :
  all_legal game_rook_returned initial_board = true /\
  snd (perform_moves game_rook_returned initial_board) = board_rook_returned /\
  castle_bits (snd (perform_moves (firstn 6 game_rook_returned) initial_board)) = 0xf /\
  castle_bits (snd (perform_moves (firstn 7 game_rook_returned) initial_board)) = 0xe /\
  nth 6 game_rook_returned (0, 0) = (0x70, 0x71) /\
  Z.testbit (castle_bits board_rook_returned) (Z.quot PIECE_WHITE 4 + 0) = false /\
  Z.testbit (castle_bits board_rook_returned) (Z.quot PIECE_WHITE 4 + 1) = true /\
  cell (indices board_rook_returned) (0x73 - 3) = Z.lor PIECE_ROOK PIECE_WHITE /\
  pseudo_legal board_rook_returned 0x73 0x71 = true /\
  fst (legal_and_safe 0x73 0x71 board_rook_returned) = true.
Proof. repeat split; vm_compute; reflexivity. Qed.

(** C3 (fails on the code): a mate reported as [STATE_PLAYING].  On
    [board_mate], reached by legal play and with Black to move, no pair
    [(from, to)] of 0..127 is both pseudo-legal and king-safe and the Black
    king is attacked, which is a win for White.
    [check_end_condition_reached] counts one legal move and sets
    [STATE_PLAYING]: when its loop tries the castle 0x03 -> 0x01, the
    make/undo inside [is_checked_after_move] removes the White bishop from
    0x02, and the capture of the queen 0x03 -> 0x13, tried later on the
    changed board, is then safe. *)
Theorem mate_reported_as_playing :
  all_legal game_mate initial_board = true /\
  snd (perform_moves game_mate initial_board) = board_mate /\
  invariants_3_3 board_mate = true /\
  (forall from to, 0 <= from < 128 -> 0 <= to < 128 ->
     fst (legal_and_safe from to board_mate) = false) /\
  fst (is_piece_attacked (Z.lor PIECE_KING PIECE_BLACK)
         (set_current_player PIECE_WHITE board_mate)) = true /\
  game_state (snd (check_end_condition_reached board_mate)) = STATE_PLAYING /\
  cell (indices board_mate) 0x02 = Z.lor PIECE_BISHOP PIECE_WHITE /\
  cell (indices (snd (check_end_condition_reached board_mate))) 0x02 = 0.
Proof.
  split; [vm_compute; reflexivity|].
  split; [vm_compute; reflexivity|].
  split; [vm_compute; reflexivity|].
  split;
    [|split; [|split; [|split]]; vm_compute; reflexivity].
  intros from to Hf Ht.
  pose proof (forall_in_grid
    (fun f => forallb (fun t => negb (fst (legal_and_safe f t board_mate)))
                (map Z.of_nat (seq 0 128)))) as H.
  assert (Hall : forallb
    (fun f => forallb (fun t => negb (fst (legal_and_safe f t board_mate)))
                (map Z.of_nat (seq 0 128)))
    (map Z.of_nat (seq 0 128)) = true) by (vm_compute; reflexivity).
  specialize (H Hall from Hf). cbv beta in H.
  pose proof (forall_in_grid _ H to Ht) as H'. cbv beta in H'.
  now apply negb_true_iff in H'.
Qed.

(** * Further properties of the code *)

(** ** [is_legal_move] as one boolean *)

Lemma pseudo_legal_value (b : board_component_t) (from to : Z) :
  pseudo_legal b from to =
  let p := cell (indices b) from in
  let c := cell (indices b) to in
  (Z.land to 0x88 =? 0) && negb (p =? 0)
  && (Z.land p MASK_COLOR =? current_player b)
  && negb (negb (c =? 0) && (Z.land c MASK_COLOR =? current_player b))
  && shape_ok b from to
  && ((Z.land p MASK_SLIDE =? 0) || path_clear b from to).
Proof.
  unfold pseudo_legal. rewrite is_legal_move_unfold.
  unfold is_legal_move_body. cbv zeta.
  destruct (Z.land to 136 =? 0); cbn [negb andb]; cbv beta iota; [|reflexivity].
  unfold bind at 1, load at 1, gets at 1; cbv beta iota.
  destruct (cell (indices b) from =? 0); cbn [negb andb]; cbv beta iota;
    [reflexivity|].
  unfold bind at 1, gets at 1; cbv beta iota.
  destruct (Z.land (cell (indices b) from) MASK_COLOR =? current_player b);
    cbn [negb andb]; cbv beta iota; [|reflexivity].
  unfold bind at 1, load at 1, gets at 1; cbv beta iota.
  unfold bind at 1, gets at 1; cbv beta iota.
  destruct (negb (cell (indices b) to =? 0) && _); cbn [negb andb];
    cbv beta iota; [reflexivity|].
  unfold bind at 1.
  match goal with
  | |- fst (let (_, _) := ?m b in _) = _ =>
      assert (Hcan : m b = (shape_ok b from to, b))
  end.
  { unfold shape_ok. cbv zeta.
    repeat match goal with
           | |- (if ?c then _ else _) b = _ => destruct c
           end; try reflexivity.
    - apply read_only_run, read_only_pawn_case.
    - apply read_only_run, read_only_king_case. intros f t. apply read_only_fuel. }
  rewrite Hcan. unfold path_clear, slide_step. cbv zeta.
  destruct (shape_ok b from to);
    destruct (Z.land (cell (indices b) from) MASK_SLIDE =? 0);
    cbn [negb andb orb]; cbv beta iota; reflexivity.
Qed.

Lemma slide_loop_run (n : nat) (base step : Z) (a : nat) (can_move : bool)
    (b : board_component_t) :
  slide_loop n (base + Z.of_nat a * step) step can_move b =
  (can_move && forallb (fun k => cell (indices b) (base + Z.of_nat k * step) =? 0)
                 (seq a n), b).
Proof.
  revert a can_move. induction n as [|n IH]; intros a can_move.
  - cbn. now rewrite andb_true_r.
  - cbn [slide_loop seq forallb]. unfold bind, load, gets. cbv beta iota.
    replace (base + Z.of_nat a * step + step) with (base + Z.of_nat (S a) * step)
      by lia.
    rewrite IH. now rewrite andb_assoc.
Qed.

Lemma path_clear_squares (b : board_component_t) (from to : Z) :
  path_clear b from to = true ->
  forall i, 1 <= i < Z.quot (to - from) (slide_step from to) ->
    cell (indices b) (from + i * slide_step from to) = 0.
Proof.
  unfold path_clear. cbv zeta.
  set (step := slide_step from to).
  replace (from + step) with (from + Z.of_nat 1 * step) by lia.
  rewrite slide_loop_run. cbn [fst andb]. intros H i Hi.
  rewrite forallb_forall in H.
  specialize (H (Z.to_nat i)).
  rewrite Z2Nat.id in H by lia. apply Z.eqb_eq, H.
  apply in_seq. lia.
Qed.

Lemma pseudo_legal_shape (b : board_component_t) (from to : Z) :
  pseudo_legal b from to = true ->
  shape_ok b from to = true /\
  (Z.land (cell (indices b) from) MASK_SLIDE <> 0 -> path_clear b from to = true).
Proof.
  rewrite pseudo_legal_value. cbv zeta. intros H.
  apply andb_true_iff in H. destruct H as [H Hp].
  apply andb_true_iff in H. destruct H as [_ Hs].
  split; [exact Hs|]. intros Hsl.
  apply orb_true_iff in Hp. destruct Hp as [Hp|Hp]; [|exact Hp].
  apply Z.eqb_eq in Hp. contradiction.
Qed.

(** ** Differences of indices and differences of coordinates *)

Lemma grid_pairs (P : Z -> Z -> bool) :
  forallb (fun f => forallb (P f) (map Z.of_nat (seq 0 128)))
    (map Z.of_nat (seq 0 128)) = true ->
  forall f t, 0 <= f < 128 -> 0 <= t < 128 -> P f t = true.
Proof.
  intros H f t Hf Ht.
  pose proof (forall_in_grid _ H f Hf) as H1. cbv beta in H1.
  exact (forall_in_grid _ H1 t Ht).
Qed.

(** Booleans of a computed check, read as propositions. *)
Ltac bool_prop H :=
  repeat first [rewrite andb_true_iff in H | rewrite orb_true_iff in H
               |rewrite Z.eqb_eq in H | rewrite Z.leb_le in H
               |rewrite Z.ltb_lt in H].

Ltac bool_goal :=
  repeat first [rewrite andb_true_iff | rewrite orb_true_iff
               |rewrite Z.eqb_eq | rewrite Z.leb_le | rewrite Z.ltb_lt].

(** Between two squares of the 8x8 board, the index differences that the
    switch of [is_legal_move] accepts are the steps of the pieces. *)
Lemma board_geometry (from to : Z) :
  0 <= from < 128 -> 0 <= to < 128 ->
  Z.land from 0x88 = 0 -> Z.land to 0x88 = 0 ->
  let diff := Z.abs (from - to) in
  let dx := square_x to - square_x from in
  let dz := square_z to - square_z from in
  let sign := if from - to >? 0 then -1 else 1 in
  ((diff = 15 \/ diff = 16 \/ diff = 17) -> dz = sign /\ Z.abs dx <= 1) /\
  (diff = 32 -> dz = 2 * sign /\ dx = 0) /\
  ((diff = 14 \/ diff = 18 \/ diff = 31 \/ diff = 33) ->
   (Z.abs dx = 1 /\ Z.abs dz = 2) \/ (Z.abs dx = 2 /\ Z.abs dz = 1)) /\
  ((diff = 1 \/ diff = 16 \/ diff = 17 \/ diff = 15) ->
   Z.abs dx <= 1 /\ Z.abs dz <= 1) /\
  (diff = 2 -> Z.abs dx = 2 /\ dz = 0) /\
  (bishop_geometry from to = true -> Z.abs dx = Z.abs dz) /\
  (rook_geometry from to = true -> dx = 0 \/ dz = 0).
Proof.
  intros Hf Ht Hfb Htb.
  pose proof (grid_pairs
    (fun from to =>
       let diff := Z.abs (from - to) in
       let dx := square_x to - square_x from in
       let dz := square_z to - square_z from in
       let sign := if from - to >? 0 then -1 else 1 in
       negb (Z.land from 0x88 =? 0) || negb (Z.land to 0x88 =? 0)
       || (implb ((diff =? 15) || (diff =? 16) || (diff =? 17))
             ((dz =? sign) && (Z.abs dx <=? 1))
           && implb (diff =? 32) ((dz =? 2 * sign) && (dx =? 0))
           && implb ((diff =? 14) || (diff =? 18) || (diff =? 31) || (diff =? 33))
                ((Z.abs dx =? 1) && (Z.abs dz =? 2)
                 || (Z.abs dx =? 2) && (Z.abs dz =? 1))
           && implb ((diff =? 1) || (diff =? 16) || (diff =? 17) || (diff =? 15))
                ((Z.abs dx <=? 1) && (Z.abs dz <=? 1))
           && implb (diff =? 2) ((Z.abs dx =? 2) && (dz =? 0))
           && implb (bishop_geometry from to) (Z.abs dx =? Z.abs dz)
           && implb (rook_geometry from to) ((dx =? 0) || (dz =? 0))))
    ltac:(vm_compute; reflexivity) from to Hf Ht) as H.
  cbv beta zeta in H. rewrite Hfb, Htb in H. cbn [Z.eqb negb orb] in H.
  cbv zeta.
  repeat (apply andb_true_iff in H; destruct H as [H ?]).
  repeat match goal with
         | X : implb ?c ?d = true |- _ =>
             let N := fresh in
             assert (N : c = true -> d = true)
               by (let HC := fresh in intros HC; rewrite HC in X; exact X);
             clear X
         end.
  split; [|split; [|split; [|split; [|split; [|split]]]]];
    intros Y;
    match goal with
    | X : ?c = true -> ?d = true |- _ =>
        assert (c = true) as HC by (bool_goal; tauto);
        specialize (X HC); bool_prop X; tauto
    end.
Qed.

(** ** The two ends of a pseudo-legal move *)

(** X1: the two ends of an accepted move.  Whenever
    [is_legal_move(board, from, to)] returns true, [from] is a square of the
    grid that holds a piece of the side to move, [to] is another square and
    passes the off-board test [to & 0x88 == 0], the side to move is White
    (0) or Black (8), and [to] is empty or holds a piece of the other
    colour.  So the oracle never moves an empty square or a piece of the
    side that is not to move, and never captures a piece of the mover's own
    colour. *)
Theorem legal_move_endpoints (b : board_component_t) (from to : Z) :
  pseudo_legal b from to = true ->
  0 <= from < 128 /\ from <> to /\ Z.land to 0x88 = 0 /\
  cell (indices b) from <> 0 /\
  Z.land (cell (indices b) from) MASK_COLOR = current_player b /\
  (current_player b = PIECE_WHITE \/ current_player b = PIECE_BLACK) /\
  (cell (indices b) to = 0 \/
   Z.land (cell (indices b) to) MASK_COLOR = other_player (current_player b)).
Proof.
  intros Hl.
  pose proof (pseudo_legal_guards _ _ _ Hl) as (Hto & Hne & Hcol & Hcap).
  pose proof (legal_from_on_grid _ _ _ Hl) as Hf.
  pose proof (legal_from_not_to _ _ _ Hl) as Hft.
  pose proof (land_color_cases (cell (indices b) from)) as Hp.
  pose proof (land_color_cases (cell (indices b) to)) as Hc.
  rewrite Hcol in Hp.
  repeat (split; [assumption|]).
  destruct Hcap as [H0|Hn]; [left; exact H0|right].
  destruct Hp as [Hp|Hp]; rewrite Hp in *; destruct Hc as [Hc|Hc];
    rewrite Hc in *; try reflexivity; now elim Hn.
Qed.

Lemma legal_move_endpoints_witness :
  0 <= 0x60 < 128 /\ 0x60 <> 0x50 /\ Z.land 0x50 0x88 = 0 /\
  cell (indices initial_board) 0x60 <> 0 /\
  Z.land (cell (indices initial_board) 0x60) MASK_COLOR
    = current_player initial_board /\
  (current_player initial_board = PIECE_WHITE \/
   current_player initial_board = PIECE_BLACK) /\
  (cell (indices initial_board) 0x50 = 0 \/
   Z.land (cell (indices initial_board) 0x50) MASK_COLOR
     = other_player (current_player initial_board)).
Proof.
  apply (legal_move_endpoints initial_board 0x60 0x50).
  vm_compute. reflexivity.
Defined.

Ltac bool_prop' H :=
  repeat first [rewrite andb_true_iff in H | rewrite orb_true_iff in H
               |rewrite negb_true_iff in H
               |rewrite Z.eqb_eq in H | rewrite Z.eqb_neq in H
               |rewrite Z.leb_le in H | rewrite Z.ltb_lt in H].

(** X2: how a pawn moves.  A pseudo-legal move of a pawn is one of three:
    one square forward ([-16] for White, [+16] for Black) onto an empty
    square; two squares forward from rank 0x60 or 0x10 with the square
    passed and the destination both empty; or one square diagonally
    forward, onto an occupied square, or onto an empty one when the
    en-passant square is set and is the square beside the pawn on the file
    of the destination ([to - forward]). *)
Theorem pawn_move_rules (b : board_component_t) (from to : Z) :
  pseudo_legal b from to = true ->
  Z.land (cell (indices b) from) MASK_TYPE = PIECE_PAWN ->
  let p := cell (indices b) from in
  let c := cell (indices b) to in
  let forward := if Z.land p MASK_COLOR =? PIECE_WHITE then -16 else 16 in
  (to = from + forward /\ c = 0) \/
  (to = from + 2 * forward /\ c = 0 /\ cell (indices b) (from + forward) = 0 /\
   (Z.land from MASK_ROW = 0x60 \/ Z.land from MASK_ROW = 0x10)) \/
  ((to = from + forward - 1 \/ to = from + forward + 1) /\
   (c <> 0 \/
    c = 0 /\ en_passant_pos b <> 0 /\ en_passant_pos b = to - forward)).
Proof.
  intros Hl Hk. cbv zeta.
  pose proof (pseudo_legal_pawn _ _ _ Hl Hk) as H.
  rewrite pawn_case_run in H. cbv zeta in H.
  apply andb_true_iff in H. destruct H as [Hcol H]. apply Z.eqb_eq in Hcol.
  destruct (Z.gtb_spec (from - to) 0) as [Hgt|Hle].
  - rewrite Hcol. change (0 =? PIECE_WHITE) with true. cbv iota.
    change (negb (0 =? 0)) with false in H. cbv iota in H.
    bool_prop' H.
    destruct H as [[[H|H]|H]|H].
    + left. split; [lia|tauto].
    + right; right. split; [lia|left; tauto].
    + right; left. replace (from + 2 * -16) with to by lia.
      intuition lia.
    + right; right. split; [lia|right]. intuition lia.
  - rewrite Hcol. change (8 =? PIECE_WHITE) with false. cbv iota.
    change (negb (8 =? 0)) with true in H. cbv iota in H.
    bool_prop' H.
    destruct H as [[[H|H]|H]|H].
    + left. split; [lia|tauto].
    + right; right. split; [lia|left; tauto].
    + right; left. intuition lia.
    + right; right. split; [lia|right]. intuition lia.
Qed.

Lemma pawn_move_rules_witness :
  (0x50 = 0x60 + -16 /\ cell (indices initial_board) 0x50 = 0) \/
  (0x50 = 0x60 + 2 * -16 /\ cell (indices initial_board) 0x50 = 0 /\
   cell (indices initial_board) (0x60 + -16) = 0 /\
   (Z.land 0x60 MASK_ROW = 0x60 \/ Z.land 0x60 MASK_ROW = 0x10)) \/
  ((0x50 = 0x60 + -16 - 1 \/ 0x50 = 0x60 + -16 + 1) /\
   (cell (indices initial_board) 0x50 <> 0 \/
    cell (indices initial_board) 0x50 = 0 /\
    en_passant_pos initial_board <> 0 /\
    en_passant_pos initial_board = 0x50 - -16)).
Proof.
  apply (pawn_move_rules initial_board 0x60 0x50).
  - vm_compute. reflexivity.
  - reflexivity.
Defined.

(** ** The shape of a move, in tile coordinates *)

(** X3: the index differences of [is_legal_move] are the moves of chess.
    For a pseudo-legal move from a square of the 8x8 board to a square of
    the grid, with [dx] and [dz] the differences of the tile coordinates
    ([square % 16] and [square / 16]): a pawn goes one rank forward with
    [|dx| <= 1] or two ranks forward on its file; a knight moves (1, 2) or
    (2, 1); a king moves one square, or two along its rank (the castle); a
    bishop keeps [|dx| = |dz|]; a rook keeps its file or its rank; a queen
    does one or the other.  A piece whose kind bits are none of the six has
    no pseudo-legal move.  The 0x88 layout keeps the differences 14, 15, 17,
    18, 31 and 33 from wrapping round the edge of the board. *)
Theorem move_geometry (b : board_component_t) (from to : Z) :
  pseudo_legal b from to = true ->
  Z.land from 0x88 = 0 -> 0 <= to < 128 ->
  let p := cell (indices b) from in
  let kind := Z.land p MASK_TYPE in
  let dx := square_x to - square_x from in
  let dz := square_z to - square_z from in
  let forward := if Z.land p MASK_COLOR =? PIECE_WHITE then -1 else 1 in
  (kind = PIECE_PAWN /\
   (dz = forward /\ Z.abs dx <= 1 \/ dz = 2 * forward /\ dx = 0)) \/
  (kind = PIECE_KNIGHT /\
   (Z.abs dx = 1 /\ Z.abs dz = 2 \/ Z.abs dx = 2 /\ Z.abs dz = 1)) \/
  (kind = PIECE_KING /\
   (Z.abs dx <= 1 /\ Z.abs dz <= 1 \/ Z.abs dx = 2 /\ dz = 0)) \/
  (kind = PIECE_BISHOP /\ Z.abs dx = Z.abs dz) \/
  (kind = PIECE_ROOK /\ (dx = 0 \/ dz = 0)) \/
  (kind = PIECE_QUEEN /\ (Z.abs dx = Z.abs dz \/ dx = 0 \/ dz = 0)).
Proof.
  intros Hl Hfb Ht. cbv zeta.
  pose proof (legal_from_on_grid _ _ _ Hl) as Hf.
  pose proof (pseudo_legal_guards _ _ _ Hl) as (Htb & _ & _ & _).
  destruct (pseudo_legal_shape _ _ _ Hl) as [Hs _].
  pose proof (board_geometry from to Hf Ht Hfb Htb) as G. cbv zeta in G.
  destruct G as (G1 & G2 & G3 & G4 & G5 & G6 & G7).
  unfold shape_ok in Hs. cbv zeta in Hs.
  destruct (Z.eqb_spec (Z.land (cell (indices b) from) MASK_TYPE) PIECE_PAWN)
    as [K|_].
  { left. split; [exact K|].
    pose proof (pawn_case_shape _ _ _ _ _ Hs) as [Hd _].
    rewrite pawn_case_run in Hs. cbv zeta in Hs.
    apply andb_true_iff in Hs. destruct Hs as [Hcol _].
    apply Z.eqb_eq in Hcol. rewrite Hcol.
    destruct (Z.gtb_spec (from - to) 0) as [Hgt|Hle];
      [change (0 =? PIECE_WHITE) with true
      |change (8 =? PIECE_WHITE) with false]; cbv iota;
      (destruct (Z.eq_dec (Z.abs (from - to)) 32) as [D|D];
       [right; apply G2; exact D | left; apply G1; lia]). }
  destruct (Z.eqb_spec (Z.land (cell (indices b) from) MASK_TYPE) PIECE_KNIGHT)
    as [K|_].
  { right; left. split; [exact K|]. apply G3. bool_prop Hs. tauto. }
  destruct (Z.eqb_spec (Z.land (cell (indices b) from) MASK_TYPE) PIECE_KING)
    as [K|_].
  { right; right; left. split; [exact K|].
    rewrite king_case_run in Hs. cbv zeta in Hs.
    apply orb_true_iff in Hs. destruct Hs as [Hs|Hs].
    - right. apply G5.
      apply andb_true_iff in Hs. destruct Hs as [Hs _].
      apply andb_true_iff in Hs. destruct Hs as [Hs _].
      now apply Z.eqb_eq.
    - left. apply G4. bool_prop Hs. tauto. }
  destruct (Z.eqb_spec (Z.land (cell (indices b) from) MASK_TYPE) PIECE_BISHOP)
    as [K|_].
  { right; right; right; left. split; [exact K|]. now apply G6. }
  destruct (Z.eqb_spec (Z.land (cell (indices b) from) MASK_TYPE) PIECE_ROOK)
    as [K|_].
  { right; right; right; right; left. split; [exact K|]. now apply G7. }
  destruct (Z.eqb_spec (Z.land (cell (indices b) from) MASK_TYPE) PIECE_QUEEN)
    as [K|_]; [|discriminate Hs].
  right; right; right; right; right. split; [exact K|].
  apply orb_true_iff in Hs. destruct Hs as [Hs|Hs]; [left; now apply G6|].
  right. now apply G7.
Qed.

Lemma move_geometry_witness :
  let p := cell (indices initial_board) 0x71 in
  let kind := Z.land p MASK_TYPE in
  let dx := square_x 0x50 - square_x 0x71 in
  let dz := square_z 0x50 - square_z 0x71 in
  let forward := if Z.land p MASK_COLOR =? PIECE_WHITE then -1 else 1 in
  (kind = PIECE_PAWN /\
   (dz = forward /\ Z.abs dx <= 1 \/ dz = 2 * forward /\ dx = 0)) \/
  (kind = PIECE_KNIGHT /\
   (Z.abs dx = 1 /\ Z.abs dz = 2 \/ Z.abs dx = 2 /\ Z.abs dz = 1)) \/
  (kind = PIECE_KING /\
   (Z.abs dx <= 1 /\ Z.abs dz <= 1 \/ Z.abs dx = 2 /\ dz = 0)) \/
  (kind = PIECE_BISHOP /\ Z.abs dx = Z.abs dz) \/
  (kind = PIECE_ROOK /\ (dx = 0 \/ dz = 0)) \/
  (kind = PIECE_QUEEN /\ (Z.abs dx = Z.abs dz \/ dx = 0 \/ dz = 0)).
Proof.
  apply (move_geometry initial_board 0x71 0x50).
  - vm_compute. reflexivity.
  - reflexivity.
  - lia.
Defined.

(** ** Sliding pieces do not jump *)

Lemma slide_lines (from to : Z) :
  0 <= from < 128 -> 0 <= to < 128 ->
  Z.land from 0x88 = 0 -> Z.land to 0x88 = 0 -> from <> to ->
  bishop_geometry from to || rook_geometry from to = true ->
  let step := slide_step from to in
  let n := Z.quot (to - from) step in
  1 <= n <= 7 /\ to = from + n * step /\
  (bishop_geometry from to = true -> Z.abs step = 15 \/ Z.abs step = 17) /\
  (rook_geometry from to = true -> Z.abs step = 1 \/ Z.abs step = 16) /\
  forall i, 1 <= i < n -> Z.land (from + i * step) 0x88 = 0.
Proof.
  intros Hf Ht Hfb Htb Hne Hg.
  pose proof (grid_pairs
    (fun from to =>
       let step := slide_step from to in
       let n := Z.quot (to - from) step in
       negb (Z.land from 0x88 =? 0) || negb (Z.land to 0x88 =? 0)
       || (from =? to)
       || negb (bishop_geometry from to || rook_geometry from to)
       || ((1 <=? n) && (n <=? 7) && (to =? from + n * step)
           && implb (bishop_geometry from to)
                ((Z.abs step =? 15) || (Z.abs step =? 17))
           && implb (rook_geometry from to)
                ((Z.abs step =? 1) || (Z.abs step =? 16))
           && forallb (fun i => (n <=? i) || (Z.land (from + i * step) 0x88 =? 0))
                (map (fun k => 1 + Z.of_nat k) (seq 0 6))))
    ltac:(vm_compute; reflexivity) from to Hf Ht) as H.
  cbv beta zeta in H. rewrite Hfb, Htb, Hg in H.
  replace (from =? to) with false in H by (symmetry; now apply Z.eqb_neq).
  cbn [Z.eqb negb orb] in H.
  cbv zeta.
  apply andb_true_iff in H. destruct H as [H Hpath].
  apply andb_true_iff in H. destruct H as [H Hr].
  apply andb_true_iff in H. destruct H as [H Hb].
  bool_prop H. destruct H as [[H1 H2] H3].
  split; [lia|]. split; [exact H3|].
  split; [intros E; rewrite E in Hb; cbn [implb] in Hb; bool_prop Hb; exact Hb|].
  split; [intros E; rewrite E in Hr; cbn [implb] in Hr; bool_prop Hr; exact Hr|].
  intros i Hi.
  pose proof (forall_range _ 1 6 Hpath i ltac:(cbn; lia)) as Hi'.
  cbv beta in Hi'. apply orb_true_iff in Hi'.
  destruct Hi' as [Hi'|Hi']; [apply Z.leb_le in Hi'; lia|].
  now apply Z.eqb_eq.
Qed.

(** X4: sliding pieces do not jump.  For a pseudo-legal move of a piece
    with the slide bit (bishop, rook, queen) from a square of the board to
    a square of the grid, the step [s] computed at lines 217-224 is one of
    +-1, +-15, +-16, +-17, the destination is [from + n * s] with
    [1 <= n <= 7], and every square [from + i * s] strictly between the two
    is a square of the board and is empty. *)
Theorem sliding_path_is_clear (b : board_component_t) (from to : Z) :
  pseudo_legal b from to = true ->
  Z.land (cell (indices b) from) MASK_SLIDE <> 0 ->
  Z.land from 0x88 = 0 -> 0 <= to < 128 ->
  let step := slide_step from to in
  let n := Z.quot (to - from) step in
  1 <= n <= 7 /\ to = from + n * step /\
  (Z.abs step = 1 \/ Z.abs step = 15 \/ Z.abs step = 16 \/ Z.abs step = 17) /\
  forall i, 1 <= i < n ->
    Z.land (from + i * step) 0x88 = 0 /\
    cell (indices b) (from + i * step) = 0.
Proof.
  intros Hl Hsl Hfb Ht.
  pose proof (legal_from_on_grid _ _ _ Hl) as Hf.
  pose proof (legal_from_not_to _ _ _ Hl) as Hne.
  pose proof (pseudo_legal_guards _ _ _ Hl) as (Htb & _ & _ & _).
  destruct (pseudo_legal_shape _ _ _ Hl) as [Hs Hp].
  specialize (Hp Hsl).
  assert (Hg : bishop_geometry from to || rook_geometry from to = true).
  { unfold shape_ok in Hs. cbv zeta in Hs.
    repeat match type of Hs with
           | (if ?x =? ?k then _ else _) = true =>
               destruct (Z.eqb_spec x k) as [K|_];
               [first [now elim Hsl; apply (kind_not_sliding _ _ K)
                      |rewrite Hs; now rewrite ?orb_true_r
                      |exact Hs]
               |]
           end.
    discriminate Hs. }
  pose proof (slide_lines from to Hf Ht Hfb Htb Hne Hg) as L.
  cbv zeta in L |- *. destruct L as (L1 & L2 & L3 & L4 & L5).
  split; [exact L1|]. split; [exact L2|].
  split.
  { apply orb_true_iff in Hg. destruct Hg as [Hg|Hg];
      [destruct (L3 Hg) | destruct (L4 Hg)]; tauto. }
  intros i Hi. split; [now apply L5|].
  now apply path_clear_squares.
Qed.

Lemma sliding_path_is_clear_witness :
  let step := slide_step 0x61 0x34 in
  let n := Z.quot (0x34 - 0x61) step in
  1 <= n <= 7 /\ 0x34 = 0x61 + n * step /\
  (Z.abs step = 1 \/ Z.abs step = 15 \/ Z.abs step = 16 \/ Z.abs step = 17) /\
  forall i, 1 <= i < n ->
    Z.land (0x61 + i * step) 0x88 = 0 /\
    cell (indices board_rook_returned) (0x61 + i * step) = 0.
Proof.
  apply (sliding_path_is_clear board_rook_returned 0x61 0x34).
  - vm_compute. reflexivity.
  - vm_compute. discriminate.
  - reflexivity.
  - lia.
Defined.

(** X5: the switch of [get_piece_name] (chess.h) and the switch of
    [is_legal_move] know the same six kinds: a piece that has a pseudo-legal
    move is never named "Undefined". *)
Theorem moving_piece_has_name (b : board_component_t) (from to : Z) :
  pseudo_legal b from to = true ->
  get_piece_name (cell (indices b) from) <> "Undefined"%string.
Proof.
  intros Hl. destruct (pseudo_legal_shape _ _ _ Hl) as [Hs _].
  unfold shape_ok in Hs. cbv zeta in Hs. unfold get_piece_name. cbv zeta.
  repeat match goal with
         | |- context [if ?x =? ?k then _ else _] =>
             destruct (x =? k); [discriminate|]
         end.
  discriminate Hs.
Qed.

Lemma moving_piece_has_name_witness :
  get_piece_name (cell (indices initial_board) 0x60) <> "Undefined"%string.
Proof.
  apply (moving_piece_has_name initial_board 0x60 0x50).
  vm_compute. reflexivity.
Defined.

(** ** The bookkeeping of [perform_move] *)

Lemma cell_outside (g : list Z) (i : Z) : in_grid i = false -> cell g i = 0.
Proof. intros H. unfold cell. now rewrite H. Qed.

Lemma perform_move_from_empty (from to : Z) (b : board_component_t) :
  cell (indices (snd (perform_move from to b))) from = 0.
Proof.
  destruct (in_grid from) eqn:E; [|now apply cell_outside].
  rewrite perform_move_run. cbv zeta. cbn [snd].
  rewrite relocate_phase_cell. now rewrite Z.eqb_refl, E.
Qed.

(** X7: the bookkeeping of [perform_move], for every board and every pair
    [(from, to)], legal or not: the side to move flips, the move counter
    grows by one modulo 2^32, the record keeps the castle rights and the
    en-passant square of the board before the move, the selected piece, the
    highlight mask, the capture counters and the terminal tag are left
    alone, the square [from] is empty afterwards, and a grid of 128 cells
    stays one. *)
Theorem perform_move_bookkeeping (b : board_component_t) (from to : Z) :
  let made := perform_move from to b in
  let b' := snd made in
  current_player b' = other_player (current_player b) /\
  move_count b' = u32 (move_count b + 1) /\
  last_castle_bits (fst made) = castle_bits b /\
  last_en_passant_pos (fst made) = en_passant_pos b /\
  selected_piece b' = selected_piece b /\
  legal_move_indices b' = legal_move_indices b /\
  num_white_captures b' = num_white_captures b /\
  num_black_captures b' = num_black_captures b /\
  game_state b' = game_state b /\
  cell (indices b') from = 0 /\
  (length (indices b) = 128%nat -> length (indices b') = 128%nat).
Proof.
  cbv zeta.
  pose proof (perform_move_frame from to b) as F. cbv zeta in F.
  destruct F as (F1 & F2 & F3 & F4 & F5 & Fcp & Fmc).
  destruct (perform_move_saved from to b) as [S1 S2].
  repeat (split; [assumption|]).
  split; [apply perform_move_from_empty|].
  apply perform_move_grid_ok.
Qed.

(** ** Make then undo, exactly *)

Lemma make_undo_fields (from to : Z) (b : board_component_t) :
  let made := perform_move from to b in
  let u := snd (revert_move from to (fst made) (snd made)) in
  selected_piece u = selected_piece b /\
  legal_move_indices u = legal_move_indices b /\
  indices u = reverted_grid from to (fst made) (indices (snd made)) /\
  current_player u = other_player (other_player (current_player b)) /\
  castle_bits u = castle_bits b /\
  num_white_captures u = num_white_captures b /\
  num_black_captures u = num_black_captures b /\
  en_passant_pos u = en_passant_pos b /\
  move_count u = u32 (u32 (move_count b + 1) - 1) /\
  game_state u = game_state b.
Proof.
  cbv zeta. rewrite revert_move_run.
  pose proof (perform_move_frame from to b) as F. cbv zeta in F.
  destruct F as (F1 & F2 & F3 & F4 & F5 & Fcp & Fmc).
  destruct (perform_move_saved from to b) as [S1 S2].
  board_fields. rewrite Fcp, Fmc. tauto.
Qed.

Lemma store_cell_same (g : list Z) (i : Z) :
  grid_ok g -> cell g i = 0 -> store_cell g i 0 = g.
Proof.
  intros Hg Hc. apply grid_ext; [now apply grid_ok_store_cell | exact Hg |].
  intros s. rewrite cell_store_cell.
  destruct (Z.eqb_spec i s) as [->|Hne]; cbn [andb]; [|reflexivity].
  destruct (in_grid s); congruence.
Qed.

(** The grid after make then undo of a castle: the rook's destination is
    emptied, every other square is as before. *)
Lemma perform_revert_grid_castle (b : board_component_t) (from to s : Z) :
  0 <= to < 128 ->
  pseudo_legal b from to = true ->
  is_castle b from to = true ->
  cell (reverted_grid from to (fst (perform_move from to b))
          (indices (snd (perform_move from to b)))) s
  = cell (store_cell (indices b) (from + (if from >? to then -1 else 1)) 0) s.
Proof.
  intros Hto Hl EC.
  pose proof (legal_from_on_grid _ _ _ Hl) as Hfrom.
  pose proof (legal_from_not_to _ _ _ Hl) as Hft.
  assert (E1 : in_grid from = true) by now apply in_grid_iff.
  assert (E2 : in_grid to = true) by now apply in_grid_iff.
  unfold reverted_grid. rewrite (perform_move_record _ _ _ Hl). cbv zeta.
  rewrite EC.
  destruct (castle_not_pawn _ _ _ EC) as [EE EP]. rewrite EE, EP.
  cbn [capture_pos capture move_type promotion with_rook_pos with_move_type].
  change (MOVE_TYPE_CASTLE =? MOVE_TYPE_CASTLE) with true.
  change (negb (0 =? 0)) with false. cbv iota.
  rewrite !cell_store_cell.
  rewrite !(perform_move_cell _ _ _ Hl _ Hto). rewrite EE, EP.
  cbn [andb]. rewrite !king_phase_cell.
  fold (is_castle b from to). rewrite EC. cbv zeta.
  rewrite E1, E2, ?andb_true_r.
  assert (Hd : Z.abs (from - to) = 2).
  { unfold is_castle in EC. apply andb_true_iff in EC.
    now apply Z.eqb_eq. }
  destruct (Z.gtb_spec from to) as [Hgt|Hle];
    [replace (in_grid (from + -1)) with true
       by (symmetry; apply in_grid_iff; lia)
    |replace (in_grid (from + 1)) with true
       by (symmetry; apply in_grid_iff; lia)];
    repeat match goal with
           | |- context [?x =? ?y] =>
               destruct (Z.eqb_spec x y); try lia; cbn [andb]
           | |- context [in_grid ?x] =>
               destruct (in_grid x) eqn:?; cbn [andb]
           end;
    try reflexivity; try (f_equal; lia);
    try (symmetry; apply cell_outside; congruence).
Qed.

(** Make then undo, as a function of the board before. *)
Lemma perform_revert_state (b : board_component_t) (from to : Z) :
  well_formed b -> 0 <= to < 128 -> pseudo_legal b from to = true ->
  snd (revert_move from to (fst (perform_move from to b))
         (snd (perform_move from to b)))
  = if is_castle b from to
    then set_indices
           (store_cell (indices b) (from + (if from >? to then -1 else 1)) 0) b
    else b.
Proof.
  intros Hwf Hto Hl.
  destruct (is_castle b from to) eqn:EC.
  - destruct Hwf as (Hg & Hmc & Hcodes).
    pose proof (make_undo_fields from to b) as F. cbv zeta in F.
    destruct F as (F1 & F2 & F3 & F4 & F5 & F6 & F7 & F8 & F9 & F10).
    apply board_eq; board_fields; auto.
    + rewrite F3.
      apply grid_ext;
        [apply reverted_grid_ok, perform_move_grid_ok, Hg
        |now apply grid_ok_store_cell|].
      intros s. now apply perform_revert_grid_castle.
    + rewrite F4. apply other_player_twice.
      pose proof (pseudo_legal_guards _ _ _ Hl) as (_ & _ & Hcol & _).
      rewrite <- Hcol. apply land_color_cases.
    + rewrite F9. now apply u32_roundtrip.
  - apply perform_revert_roundtrip; auto. intros E. congruence.
Qed.

(** X8: what make then undo does, exactly.  On a well-formed board, for a
    pseudo-legal move to a square of the grid, [perform_move] followed by
    [revert_move] hands back the board before the move, except for a
    castle: then the board handed back is the board before with the rook's
    destination [from -+ 1] emptied.  So the pair is the identity if and
    only if the move is not a castle or the rook's destination was empty. *)
Theorem make_undo_effect (b : board_component_t) (from to : Z) :
  well_formed b -> 0 <= to < 128 -> pseudo_legal b from to = true ->
  let made := perform_move from to b in
  let undone := snd (revert_move from to (fst made) (snd made)) in
  let rook_to := from + (if from >? to then -1 else 1) in
  undone = (if is_castle b from to
            then set_indices (store_cell (indices b) rook_to 0) b else b) /\
  (undone = b <->
   (is_castle b from to = true -> cell (indices b) rook_to = 0)).
Proof.
  intros Hwf Hto Hl. cbv zeta.
  pose proof (perform_revert_state b from to Hwf Hto Hl) as Hu.
  split; [exact Hu|]. rewrite Hu.
  destruct (is_castle b from to) eqn:EC;
    [|split; [discriminate | reflexivity]].
  pose proof (legal_from_on_grid _ _ _ Hl) as Hf.
  assert (Hd : Z.abs (from - to) = 2).
  { unfold is_castle in EC. apply andb_true_iff in EC.
    now apply Z.eqb_eq. }
  assert (Hin : in_grid (from + (if from >? to then -1 else 1)) = true).
  { apply in_grid_iff. destruct (Z.gtb_spec from to); lia. }
  split.
  - intros E _.
    apply (f_equal (fun x =>
             cell (indices x) (from + (if from >? to then -1 else 1)))) in E.
    cbv beta in E. cbn [indices set_indices] in E.
    rewrite cell_store_cell, Z.eqb_refl, Hin in E. cbn [andb] in E.
    now symmetry.
  - intros E. specialize (E eq_refl).
    rewrite store_cell_same; [destruct b; reflexivity | apply Hwf | exact E].
Qed.

Lemma make_undo_effect_witness :
  let made := perform_move 0x73 0x71 board_knight_on_72 in
  let undone := snd (revert_move 0x73 0x71 (fst made) (snd made)) in
  let rook_to := 0x73 + (if 0x73 >? 0x71 then -1 else 1) in
  undone = (if is_castle board_knight_on_72 0x73 0x71
            then set_indices (store_cell (indices board_knight_on_72) rook_to 0)
                   board_knight_on_72
            else board_knight_on_72) /\
  (undone = board_knight_on_72 <->
   (is_castle board_knight_on_72 0x73 0x71 = true ->
    cell (indices board_knight_on_72) rook_to = 0)).
Proof.
  apply (make_undo_effect board_knight_on_72 0x73 0x71).
  - apply well_formed_checked. vm_compute. reflexivity.
  - lia.
  - vm_compute. reflexivity.
Defined.

(** ** The king-safety test, as the callers run it *)

Lemma legal_and_safe_state (from to : Z) (b : board_component_t) :
  snd (legal_and_safe from to b) =
  if pseudo_legal b from to
  then snd (revert_move from to (fst (perform_move from to b))
              (snd (perform_move from to b)))
  else b.
Proof.
  unfold legal_and_safe. unfold bind at 1. rewrite is_legal_move_run.
  destruct (pseudo_legal b from to); [|reflexivity].
  rewrite <- is_checked_after_move_run.
  unfold bind, ret. destruct (is_checked_after_move from to b) as [c b'].
  reflexivity.
Qed.

Lemma is_checked_after_move_value (from to : Z) (b : board_component_t) :
  fst (is_checked_after_move from to b) =
  fst (is_piece_attacked
         (Z.lor PIECE_KING (other_player (other_player (current_player b))))
         (snd (perform_move from to b))).
Proof.
  unfold is_checked_after_move. unfold bind at 1.
  pose proof (perform_move_frame from to b) as F. cbv zeta in F.
  destruct F as (_ & _ & _ & _ & _ & Fcp & _).
  destruct (perform_move from to b) as [info b1]. cbn [fst snd] in *.
  unfold bind at 1, gets at 1. cbv beta iota.
  unfold bind at 1.
  rewrite (read_only_run _ b1 (read_only_is_piece_attacked _)).
  unfold bind, ret. destruct (revert_move from to info b1) as [[] b2].
  cbn [fst]. now rewrite Fcp.
Qed.

Lemma legal_and_safe_value (from to : Z) (b : board_component_t) :
  fst (legal_and_safe from to b) =
  pseudo_legal b from to
  && negb (fst (is_piece_attacked (Z.lor PIECE_KING (current_player b))
                  (snd (perform_move from to b)))).
Proof.
  unfold legal_and_safe. unfold bind at 1. rewrite is_legal_move_run.
  destruct (pseudo_legal b from to) eqn:Hl; [|reflexivity].
  cbn [andb]. unfold bind, ret.
  pose proof (is_checked_after_move_value from to b) as Hv.
  destruct (is_checked_after_move from to b) as [c b']. cbn [fst] in *.
  rewrite Hv. rewrite other_player_twice; [reflexivity|].
  pose proof (pseudo_legal_guards _ _ _ Hl) as (_ & _ & Hcol & _).
  rewrite <- Hcol. apply land_color_cases.
Qed.

(** X9: the test that every caller runs,
    [is_legal_move(..) && !is_checked_after_move(..)].  It is true exactly
    when the move is pseudo-legal and, on the board after the move, no
    piece of the opponent has a pseudo-legal move onto the first square
    holding the mover's king.  On a well-formed board and for a target of
    the grid it leaves the board as it was, except when the move is a
    pseudo-legal castle: then the rook's destination is emptied. *)
Theorem safety_test_effect (b : board_component_t) (from to : Z) :
  well_formed b -> 0 <= to < 128 ->
  let rook_to := from + (if from >? to then -1 else 1) in
  fst (legal_and_safe from to b) =
    pseudo_legal b from to
    && negb (fst (is_piece_attacked (Z.lor PIECE_KING (current_player b))
                    (snd (perform_move from to b)))) /\
  snd (legal_and_safe from to b) =
    (if pseudo_legal b from to && is_castle b from to
     then set_indices (store_cell (indices b) rook_to 0) b else b).
Proof.
  intros Hwf Hto. cbv zeta. split; [apply legal_and_safe_value|].
  rewrite legal_and_safe_state.
  destruct (pseudo_legal b from to) eqn:Hl; [|reflexivity].
  cbn [andb].
  now apply perform_revert_state.
Qed.

Lemma safety_test_effect_witness :
  let rook_to := 0x73 + (if 0x73 >? 0x71 then -1 else 1) in
  fst (legal_and_safe 0x73 0x71 board_castle_unsafe) =
    pseudo_legal board_castle_unsafe 0x73 0x71
    && negb (fst (is_piece_attacked
                    (Z.lor PIECE_KING (current_player board_castle_unsafe))
                    (snd (perform_move 0x73 0x71 board_castle_unsafe)))) /\
  snd (legal_and_safe 0x73 0x71 board_castle_unsafe) =
    (if pseudo_legal board_castle_unsafe 0x73 0x71
        && is_castle board_castle_unsafe 0x73 0x71
     then set_indices (store_cell (indices board_castle_unsafe) rook_to 0)
            board_castle_unsafe
     else board_castle_unsafe).
Proof.
  apply (safety_test_effect board_castle_unsafe 0x73 0x71).
  - apply well_formed_checked. vm_compute. reflexivity.
  - lia.
Defined.

(** ** What a legal move writes *)

(** X10: the record that [perform_move] returns for a pseudo-legal move.
    The move type is castle for a king moving two squares, else capture
    when [to] was occupied or the move is an en-passant capture, else plain
    move.  The captured piece and its square are what stood on [to], or,
    for en passant, the piece on the en-passant square and that square.
    The rook origin is [from - 3] or [from + 4] for a castle and 0
    otherwise; the promotion field is Queen exactly for a pawn reaching
    rank 0x00 or 0x70. *)
Theorem move_record (b : board_component_t) (from to : Z) :
  pseudo_legal b from to = true ->
  let info := fst (perform_move from to b) in
  let c := cell (indices b) to in
  move_type info =
    (if is_castle b from to then MOVE_TYPE_CASTLE
     else if negb (c =? 0) || is_en_passant b from to then MOVE_TYPE_CAPTURE
     else MOVE_TYPE_MOVE) /\
  capture_pos info = (if is_en_passant b from to then en_passant_pos b else to) /\
  capture info =
    (if is_en_passant b from to then cell (indices b) (en_passant_pos b) else c) /\
  rook_pos info =
    (if is_castle b from to then from + (if from >? to then -3 else 4) else 0) /\
  promotion info = (if is_promotion b from to then PIECE_QUEEN else 0).
Proof.
  intros Hl. cbv zeta. rewrite (perform_move_record _ _ _ Hl). cbv zeta.
  destruct (is_castle b from to) eqn:EC.
  - destruct (castle_not_pawn _ _ _ EC) as [EE EP]. rewrite EE, EP.
    cbn. tauto.
  - assert (Hb1 : forall x,
      cell (indices (snd (king_phase from to
        (mk_move_info
           (if cell (indices b) to =? 0 then MOVE_TYPE_MOVE else MOVE_TYPE_CAPTURE)
           (cell (indices b) to) to 0 (castle_bits b) (en_passant_pos b) 0) b))) x
      = cell (indices b) x).
    { intros x. rewrite king_phase_cell. fold (is_castle b from to).
      now rewrite EC. }
    rewrite Hb1.
    destruct (is_en_passant b from to); destruct (is_promotion b from to);
      destruct (cell (indices b) to =? 0); cbn; tauto.
Qed.

Lemma move_record_witness :
  let info := fst (perform_move 0x73 0x71 board_knight_on_72) in
  let c := cell (indices board_knight_on_72) 0x71 in
  move_type info =
    (if is_castle board_knight_on_72 0x73 0x71 then MOVE_TYPE_CASTLE
     else if negb (c =? 0) || is_en_passant board_knight_on_72 0x73 0x71
          then MOVE_TYPE_CAPTURE
     else MOVE_TYPE_MOVE) /\
  capture_pos info =
    (if is_en_passant board_knight_on_72 0x73 0x71
     then en_passant_pos board_knight_on_72 else 0x71) /\
  capture info =
    (if is_en_passant board_knight_on_72 0x73 0x71
     then cell (indices board_knight_on_72) (en_passant_pos board_knight_on_72)
     else c) /\
  rook_pos info =
    (if is_castle board_knight_on_72 0x73 0x71
     then 0x73 + (if 0x73 >? 0x71 then -3 else 4) else 0) /\
  promotion info =
    (if is_promotion board_knight_on_72 0x73 0x71 then PIECE_QUEEN else 0).
Proof.
  apply (move_record board_knight_on_72 0x73 0x71).
  vm_compute. reflexivity.
Defined.

(** X11: the grid after a pseudo-legal move to a square of the grid, cell
    by cell: [from] is empty; [to] holds the mover, or a queen of its
    colour for a promoting pawn; the en-passant square is empty after an
    en-passant capture; after a castle the rook's origin is empty and the
    rook's destination holds what stood on the rook's origin; every other
    cell is as before. *)
Theorem move_result_grid (b : board_component_t) (from to s : Z) :
  pseudo_legal b from to = true -> 0 <= to < 128 ->
  let g := indices b in
  let rook_from := from + (if from >? to then -3 else 4) in
  let rook_to := from + (if from >? to then -1 else 1) in
  cell (indices (snd (perform_move from to b))) s =
    if s =? from then 0
    else if s =? to then
      (if is_promotion b from to
       then Z.lor PIECE_QUEEN (Z.land (cell g from) MASK_COLOR)
       else cell g from)
    else if is_en_passant b from to && (s =? en_passant_pos b) then 0
    else if is_castle b from to && (s =? rook_from) then 0
    else if is_castle b from to && (s =? rook_to) then cell g rook_from
    else cell g s.
Proof.
  intros Hl Hto. cbv zeta.
  rewrite (perform_move_cell _ _ _ Hl _ Hto).
  rewrite (Z.eqb_sym from s), (Z.eqb_sym to s).
  destruct (s =? from); [reflexivity|].
  destruct (s =? to); [reflexivity|].
  rewrite king_phase_cell. fold (is_castle b from to). cbv zeta.
  rewrite (Z.eqb_sym (en_passant_pos b) s).
  rewrite (Z.eqb_sym (from + (if from >? to then -3 else 4)) s).
  rewrite (Z.eqb_sym (from + (if from >? to then -1 else 1)) s).
  destruct (is_en_passant b from to) eqn:EE; cbn [andb].
  - assert (EC : is_castle b from to = false).
    { destruct (is_castle b from to) eqn:EC; [|reflexivity].
      destruct (castle_not_pawn _ _ _ EC). congruence. }
    rewrite EC. cbn [andb].
    destruct (Z.eqb_spec s (en_passant_pos b)) as [->|Hne]; cbn [andb];
      [|reflexivity].
    destruct (in_grid (en_passant_pos b)) eqn:Ein; [reflexivity|].
    now apply cell_outside.
  - destruct (is_castle b from to); cbn [andb]; [|reflexivity].
    destruct (Z.eqb_spec s (from + (if from >? to then -3 else 4))) as [->|Hne];
      cbn [andb].
    + destruct (in_grid _) eqn:Ein; [reflexivity|].
      assert (Hne : (from + (if from >? to then -3 else 4)
                     =? from + (if from >? to then -1 else 1)) = false)
        by (apply Z.eqb_neq; destruct (from >? to); lia).
      rewrite Hne. cbn [andb]. now apply cell_outside.
    + destruct (Z.eqb_spec s (from + (if from >? to then -1 else 1)))
        as [->|Hne']; cbn [andb]; [|reflexivity].
      destruct (in_grid _) eqn:Ein; [reflexivity|].
      rewrite (cell_outside _ _ Ein).
      pose proof (legal_from_on_grid _ _ _ Hl) as Hf.
      pose proof (legal_from_not_to _ _ _ Hl) as Hft.
      exfalso. apply not_true_iff_false in Ein. apply Ein, in_grid_iff.
      destruct (Z.gtb_spec from to); lia.
Qed.

Lemma move_result_grid_witness :
  let g := indices board_knight_on_72 in
  let rook_from := 0x73 + (if 0x73 >? 0x71 then -3 else 4) in
  let rook_to := 0x73 + (if 0x73 >? 0x71 then -1 else 1) in
  cell (indices (snd (perform_move 0x73 0x71 board_knight_on_72))) 0x72 =
    if 0x72 =? 0x73 then 0
    else if 0x72 =? 0x71 then
      (if is_promotion board_knight_on_72 0x73 0x71
       then Z.lor PIECE_QUEEN (Z.land (cell g 0x73) MASK_COLOR)
       else cell g 0x73)
    else if is_en_passant board_knight_on_72 0x73 0x71
            && (0x72 =? en_passant_pos board_knight_on_72) then 0
    else if is_castle board_knight_on_72 0x73 0x71 && (0x72 =? rook_from) then 0
    else if is_castle board_knight_on_72 0x73 0x71 && (0x72 =? rook_to)
         then cell g rook_from
    else cell g 0x72.
Proof.
  apply (move_result_grid board_knight_on_72 0x73 0x71 0x72).
  - vm_compute. reflexivity.
  - lia.
Defined.

(** ** A king that has moved does not castle *)

Lemma king_phase_clears (from to : Z) (info : move_info_t)
    (b : board_component_t) :
  Z.land (cell (indices b) from) MASK_TYPE = PIECE_KING ->
  castle_bits (snd (king_phase from to info b)) =
  u8 (Z.land (castle_bits b)
        (Z.lnot (Z.shiftl 3 (Z.quot (current_player b) 4)))).
Proof.
  intros Hk. unfold king_phase. run_steps. rewrite Hk.
  change (PIECE_KING =? PIECE_KING) with true. cbv iota.
  destruct (_ =? 2); reflexivity.
Qed.

Lemma cleared_pair (cb k i : Z) :
  0 <= k -> i = k \/ i = k + 1 ->
  Z.testbit (u8 (Z.land cb (Z.lnot (Z.shiftl 3 k)))) i = false.
Proof.
  intros Hk Hi. unfold u8. change 256 with (2 ^ 8).
  destruct (Z.ltb_spec i 8) as [Hlo|Hhi];
    [|apply Z.mod_pow2_bits_high; lia].
  rewrite Z.mod_pow2_bits_low by lia.
  rewrite Z.land_spec, Z.lnot_spec by lia.
  rewrite Z.shiftl_spec by lia.
  destruct Hi as [->| ->].
  - replace (k - k) with 0 by lia. cbn. apply andb_false_r.
  - replace (k + 1 - k) with 1 by lia. cbn. apply andb_false_r.
Qed.

(** X12: a king that has moved does not castle.  After [perform_move]
    from a square holding a king, and then any run of further makes, no
    king move of two squares is pseudo-legal for that side: the king phase
    cleared both bits of the side's pair and no code path sets them again. *)
Theorem no_castle_after_king_move (b : board_component_t) (from to : Z)
    (moves : list (Z * Z)) (f t : Z) :
  Z.land (cell (indices b) from) MASK_TYPE = PIECE_KING ->
  let b' := snd (perform_moves moves (snd (perform_move from to b))) in
  current_player b' = current_player b ->
  Z.land (cell (indices b') f) MASK_TYPE = PIECE_KING ->
  Z.abs (f - t) = 2 ->
  pseudo_legal b' f t = false.
Proof.
  intros Hk b' Hcp Hk' Hd.
  destruct (pseudo_legal b' f t) eqn:Hl; [exfalso|reflexivity].
  destruct (pseudo_legal_castle _ _ _ Hl Hk' Hd) as [Hbit _].
  cbv zeta in Hbit. apply land_1_testbit in Hbit.
  rewrite Z.shiftr_spec in Hbit by lia. rewrite Z.add_0_l in Hbit.
  pose proof (pseudo_legal_guards _ _ _ Hl) as (_ & _ & Hcol & _).
  assert (Hside : current_player b = PIECE_WHITE \/ current_player b = PIECE_BLACK)
    by (rewrite <- Hcp, <- Hcol; apply land_color_cases).
  assert (Hclear : forall i,
    i = Z.quot (current_player b) 4 \/ i = Z.quot (current_player b) 4 + 1 ->
    Z.testbit (castle_bits b') i = false).
  { intros i Hi. unfold b'.
    apply perform_moves_castle_bits.
    rewrite perform_move_run. cbv zeta. cbn [snd].
    rewrite relocate_phase_castle_bits, promotion_phase_castle_bits,
      pawn_phase_castle_bits.
    apply captured_rook_phase_castle_bits, own_rook_phase_castle_bits.
    rewrite king_phase_clears by exact Hk.
    apply cleared_pair; [|exact Hi].
    destruct Hside as [-> | ->]; cbn; lia. }
  rewrite Hcp in Hbit. rewrite Hclear in Hbit; [discriminate|].
  destruct (f - t >? 0); [right|left]; lia.
Qed.

Lemma no_castle_after_king_move_witness :
  pseudo_legal
    (snd (perform_moves [(0x22, 0x01)]
            (snd (perform_move 0x73 0x72 board_rook_returned))))
    0x72 0x70 = false.
Proof.
  apply (no_castle_after_king_move board_rook_returned 0x73 0x72
           [(0x22, 0x01)] 0x72 0x70);
    reflexivity.
Defined.

(** ** [is_piece_attacked]: which square is tested, and by whom *)

Lemma find_piece_loop_none (n : nat) (i piece : Z) (b : board_component_t) :
  (forall k, i <= k < i + Z.of_nat n -> cell (indices b) k <> piece) ->
  fst (find_piece_loop n i piece b) = 0.
Proof.
  revert i. induction n as [|n IH]; intros i H; [reflexivity|].
  cbn [find_piece_loop]. unfold bind, load, gets. cbv beta iota.
  destruct (Z.eqb_spec (cell (indices b) i) piece) as [E|E].
  - exfalso. apply (H i); [lia | exact E].
  - apply IH. intros k Hk. apply H. lia.
Qed.

Lemma find_piece_loop_first (n : nat) (i piece pos : Z) (b : board_component_t) :
  i <= pos < i + Z.of_nat n ->
  cell (indices b) pos = piece ->
  (forall k, i <= k < pos -> cell (indices b) k <> piece) ->
  fst (find_piece_loop n i piece b) = pos.
Proof.
  revert i. induction n as [|n IH]; intros i Hp Hc H; [lia|].
  cbn [find_piece_loop]. unfold bind, load, gets. cbv beta iota.
  destruct (Z.eqb_spec (cell (indices b) i) piece) as [E|E].
  - cbn. destruct (Z.eq_dec i pos) as [->|Hne]; [reflexivity|].
    exfalso. apply (H i); [lia | exact E].
  - assert (i <> pos) by congruence.
    apply IH; [lia | exact Hc |]. intros k Hk. apply H. lia.
Qed.

Lemma attack_loop_spec (n : nat) (i pos : Z) (b : board_component_t) :
  fst (attack_loop n i pos b) = true <->
  exists k, i <= k < i + Z.of_nat n /\ pseudo_legal b k pos = true.
Proof.
  revert i. induction n as [|n IH]; intros i.
  - cbn. split; [discriminate|]. intros (k & Hk & _). lia.
  - cbn [attack_loop]. unfold bind. rewrite is_legal_move_run.
    destruct (pseudo_legal b i pos) eqn:E.
    + cbn. split; [|reflexivity]. intros _. exists i. split; [lia|exact E].
    + rewrite IH. split.
      * intros (k & Hk & Hl). exists k. split; [lia|exact Hl].
      * intros (k & Hk & Hl). exists k. split; [|exact Hl].
        destruct (Z.eq_dec k i) as [->|Hne]; [congruence|lia].
Qed.

(** X13: which square [is_piece_attacked] tests.  If [pos] is the first
    index of 0..127 whose cell equals [piece], or 0 when no cell does, then
    [is_piece_attacked(board, piece)] is true exactly when some square of
    0..127 has a pseudo-legal move onto [pos] for the side to move.  In
    particular a piece that is not on the board is looked for on square 0. *)
Theorem is_piece_attacked_spec (b : board_component_t) (piece pos : Z) :
  (0 <= pos < 128 /\ cell (indices b) pos = piece /\
   (forall k, 0 <= k < pos -> cell (indices b) k <> piece)) \/
  (pos = 0 /\ forall k, 0 <= k < 128 -> cell (indices b) k <> piece) ->
  (fst (is_piece_attacked piece b) = true <->
   exists i, 0 <= i < 128 /\ pseudo_legal b i pos = true).
Proof.
  intros H.
  assert (Hpos : fst (find_piece_loop 128 0 piece b) = pos).
  { destruct H as [(Hp & Hc & Hfirst) | (-> & Hnone)].
    - apply find_piece_loop_first; [cbn; lia | exact Hc | exact Hfirst].
    - apply find_piece_loop_none. intros k Hk. apply Hnone. cbn in Hk. lia. }
  unfold is_piece_attacked. unfold bind.
  rewrite (read_only_run _ b (read_only_find_piece_loop 128 0 piece)).
  rewrite Hpos. rewrite attack_loop_spec. reflexivity.
Qed.

Lemma is_piece_attacked_spec_witness :
  fst (is_piece_attacked (Z.lor PIECE_KING PIECE_BLACK) initial_board) = true <->
  exists i, 0 <= i < 128 /\ pseudo_legal initial_board i 0x03 = true.
Proof.
  apply (is_piece_attacked_spec initial_board (Z.lor PIECE_KING PIECE_BLACK) 0x03).
  left. split; [lia|]. split; [reflexivity|].
  intros k Hk.
  assert (Hc : k = 0 \/ k = 1 \/ k = 2) by lia.
  destruct Hc as [->|[->| ->]]; vm_compute; discriminate.
Defined.

(** ** [check_end_condition_reached] on any board *)

Lemma same_but_grid_refl (b : board_component_t) : same_but_grid b b.
Proof. unfold same_but_grid. tauto. Qed.

Lemma same_but_grid_trans (b1 b2 b3 : board_component_t) :
  same_but_grid b1 b2 -> same_but_grid b2 b3 -> same_but_grid b1 b3.
Proof.
  unfold same_but_grid.
  intros (?&?&?&?&?&?&?&?&?) (?&?&?&?&?&?&?&?&?). repeat split; congruence.
Qed.

Lemma legal_and_safe_same_but_grid (from to : Z) (b : board_component_t) :
  0 <= move_count b < 2 ^ 32 ->
  same_but_grid b (snd (legal_and_safe from to b)).
Proof.
  intros Hmc. rewrite legal_and_safe_state.
  destruct (pseudo_legal b from to) eqn:Hl; [|apply same_but_grid_refl].
  pose proof (make_undo_fields from to b) as F. cbv zeta in F.
  destruct F as (F1 & F2 & F3 & F4 & F5 & F6 & F7 & F8 & F9 & F10).
  unfold same_but_grid. repeat split; try assumption.
  - rewrite F4. apply other_player_twice.
    pose proof (pseudo_legal_guards _ _ _ Hl) as (_ & _ & Hcol & _).
    rewrite <- Hcol. apply land_color_cases.
  - rewrite F9. now apply u32_roundtrip.
Qed.

Lemma count_to_loop_same_but_grid (n : nat) (from to acc : Z)
    (b : board_component_t) :
  0 <= move_count b < 2 ^ 32 ->
  same_but_grid b (snd (count_to_loop n from to acc b)).
Proof.
  revert to acc b. induction n as [|n IH]; intros to acc b Hmc.
  - apply same_but_grid_refl.
  - cbn [count_to_loop]. unfold bind.
    pose proof (legal_and_safe_same_but_grid from to b Hmc) as H.
    destruct (legal_and_safe from to b) as [c b1]. cbn [snd] in H.
    eapply same_but_grid_trans; [exact H|]. apply IH.
    destruct H as (_&_&_&_&_&_&_&Hm&_). now rewrite Hm.
Qed.

Lemma count_from_loop_same_but_grid (n : nat) (from acc : Z)
    (b : board_component_t) :
  0 <= move_count b < 2 ^ 32 ->
  same_but_grid b (snd (count_from_loop n from acc b)).
Proof.
  revert from acc b. induction n as [|n IH]; intros from acc b Hmc.
  - apply same_but_grid_refl.
  - cbn [count_from_loop]. unfold bind.
    pose proof (count_to_loop_same_but_grid 128 from 0 acc b Hmc) as H.
    destruct (count_to_loop 128 from 0 acc b) as [acc' b1]. cbn [snd] in H.
    eapply same_but_grid_trans; [exact H|]. apply IH.
    destruct H as (_&_&_&_&_&_&_&Hm&_). now rewrite Hm.
Qed.

(** The state after [check_end_condition_reached], with no assumption on
    the board. *)
Lemma check_end_condition_state (b : board_component_t) :
  snd (check_end_condition_reached b) =
  set_game_state
    (if fst (count_from_loop 128 0 0 b) =? 0 then
       if fst (is_piece_attacked (Z.lor PIECE_KING (current_player b))
                 (set_current_player (other_player (current_player b)) b))
       then (if current_player b =? PIECE_WHITE
             then STATE_BLACK_WIN_BY_CHECKMATE
             else STATE_WHITE_WIN_BY_CHECKMATE)
       else STATE_DRAW_BY_STALEMATE
     else STATE_PLAYING)
    (snd (count_from_loop 128 0 0 b)).
Proof.
  unfold check_end_condition_reached.
  unfold bind at 1, gets at 1. cbv beta iota.
  unfold bind at 1, modify at 1. cbv beta iota.
  unfold bind at 1.
  rewrite (read_only_run _ _ (read_only_is_piece_attacked _)).
  unfold bind at 1, modify at 1. cbv beta iota.
  assert (Hb : set_current_player (current_player b)
                 (set_current_player (other_player (current_player b)) b) = b)
    by (destruct b; reflexivity).
  rewrite Hb. unfold bind at 1.
  destruct (count_from_loop 128 0 0 b) as [num b1].
  cbn [fst snd].
  destruct (num =? 0); [|reflexivity].
  destruct (fst (is_piece_attacked _ _)); reflexivity.
Qed.

(** X16: [check_end_condition_reached] writes the terminal tag and, as far
    as the scalar fields go, nothing else: on any board whose move counter
    is in the range of [uint32_t], the selected piece, the highlight mask,
    the side to move, the castle rights, the capture counters, the
    en-passant square and the move counter are the same afterwards,
    although the loops run thousands of make/undo pairs. *)
Theorem end_condition_keeps_fields (b : board_component_t) :
  0 <= move_count b < 2 ^ 32 ->
  let b' := snd (check_end_condition_reached b) in
  selected_piece b' = selected_piece b /\
  legal_move_indices b' = legal_move_indices b /\
  current_player b' = current_player b /\
  castle_bits b' = castle_bits b /\
  num_white_captures b' = num_white_captures b /\
  num_black_captures b' = num_black_captures b /\
  en_passant_pos b' = en_passant_pos b /\
  move_count b' = move_count b.
Proof.
  intros Hmc. cbv zeta. rewrite check_end_condition_state.
  pose proof (count_from_loop_same_but_grid 128 0 0 b Hmc) as H.
  unfold same_but_grid in H. board_fields. tauto.
Qed.

Lemma end_condition_keeps_fields_witness :
  let b' := snd (check_end_condition_reached board_mate) in
  selected_piece b' = selected_piece board_mate /\
  legal_move_indices b' = legal_move_indices board_mate /\
  current_player b' = current_player board_mate /\
  castle_bits b' = castle_bits board_mate /\
  num_white_captures b' = num_white_captures board_mate /\
  num_black_captures b' = num_black_captures board_mate /\
  en_passant_pos b' = en_passant_pos board_mate /\
  move_count b' = move_count board_mate.
Proof.
  apply (end_condition_keeps_fields board_mate). cbn. lia.
Defined.

(** X17: what [draw_board_ui] announces after
    [check_end_condition_reached], on any board.  Nothing is drawn when the
    tag is playing.  Otherwise the text is "STALEMATE" and "Draw.", and then
    the king of the side to move was not attacked; or it is "CHECKMATE" with
    the opponent of the side to move as winner, and then that king was
    attacked.  The side to move is never announced as the winner. *)
Theorem end_of_game_announcement (b : board_component_t) :
  let checked :=
    fst (is_piece_attacked (Z.lor PIECE_KING (current_player b))
           (set_current_player (other_player (current_player b)) b)) in
  let b' := snd (check_end_condition_reached b) in
  match draw_board_ui [b'] with
  | None => game_state b' = STATE_PLAYING
  | Some (reason, winner) =>
      (checked = false /\
       reason = "STALEMATE"%string /\ winner = "Draw."%string) \/
      (checked = true /\ reason = "CHECKMATE"%string /\
       winner = if current_player b =? PIECE_WHITE
                then "Black wins."%string else "White wins."%string)
  end.
Proof.
  cbv zeta. rewrite check_end_condition_state.
  cbn [draw_board_ui]. board_fields.
  destruct (fst (count_from_loop 128 0 0 b) =? 0); [|reflexivity].
  destruct (fst (is_piece_attacked _ _)).
  - destruct (current_player b =? PIECE_WHITE); cbn; right; auto.
  - cbn. left. auto.
Qed.

(** ** The rules read four fields only *)

Lemma respects_ret {A : Type} (a : A) : respects_rules (ret a).
Proof. intros b b' H. split; [reflexivity | exact H]. Qed.

Lemma respects_bind {A B : Type} (m : M A) (k : A -> M B) :
  respects_rules m -> (forall a, respects_rules (k a)) ->
  respects_rules (bind m k).
Proof.
  intros Hm Hk b b' H. unfold bind.
  destruct (Hm b b' H) as [Hv Hs].
  destruct (m b) as [a b1]. destruct (m b') as [a' b1'].
  cbn [fst snd] in Hv, Hs. subst a'. now apply Hk.
Qed.

Lemma respects_if {A : Type} (c : bool) (m1 m2 : M A) :
  respects_rules m1 -> respects_rules m2 ->
  respects_rules (if c then m1 else m2).
Proof. destruct c; auto. Qed.

Lemma respects_when (c : bool) (m : M unit) :
  respects_rules m -> respects_rules (when c m).
Proof. intros H. unfold when. destruct c; [exact H | apply respects_ret]. Qed.

Lemma respects_gets {A : Type} (f : board_component_t -> A) :
  (forall b b', rules_eq b b' -> f b = f b') -> respects_rules (gets f).
Proof. intros Hf b b' H. split; [now apply Hf | exact H]. Qed.

Lemma respects_modify (f : board_component_t -> board_component_t) :
  (forall b b', rules_eq b b' -> rules_eq (f b) (f b')) ->
  respects_rules (modify f).
Proof. intros Hf b b' H. split; [reflexivity | now apply Hf]. Qed.

(** The reads and writes that the rules make. *)
Ltac rules_field :=
  let b := fresh "b" in
  let b' := fresh "b'" in
  let H1 := fresh in
  let H2 := fresh in
  let H3 := fresh in
  let H4 := fresh in
  intros b b' (H1 & H2 & H3 & H4); unfold rules_eq; board_fields;
  rewrite ?H1, ?H2, ?H3, ?H4; auto.

Lemma respects_load (i : Z) : respects_rules (load i).
Proof. apply respects_gets. rules_field. Qed.

Lemma respects_current_player : respects_rules (gets current_player).
Proof. apply respects_gets. rules_field. Qed.

Lemma respects_castle_bits : respects_rules (gets castle_bits).
Proof. apply respects_gets. rules_field. Qed.

Lemma respects_en_passant_pos : respects_rules (gets en_passant_pos).
Proof. apply respects_gets. rules_field. Qed.

Lemma respects_store (i v : Z) : respects_rules (store i v).
Proof. apply respects_modify. rules_field. Qed.

Lemma respects_clear_castle_bits (m k : Z) :
  respects_rules (clear_castle_bits m k).
Proof. apply respects_modify. rules_field. Qed.

Lemma respects_set_castle_bits (v : Z) :
  respects_rules (modify (set_castle_bits v)).
Proof. apply respects_modify. rules_field. Qed.

Lemma respects_set_en_passant_pos (v : Z) :
  respects_rules (modify (set_en_passant_pos v)).
Proof. apply respects_modify. rules_field. Qed.

Lemma respects_set_current_player (v : Z) :
  respects_rules (modify (set_current_player v)).
Proof. apply respects_modify. rules_field. Qed.

Lemma respects_set_game_state (v : Z) :
  respects_rules (modify (set_game_state v)).
Proof. apply respects_modify. rules_field. Qed.

Lemma respects_flip_player :
  respects_rules
    (modify (fun b => set_current_player (other_player (current_player b)) b)).
Proof. apply respects_modify. rules_field. Qed.

Create HintDb rules.
#[local] Hint Resolve respects_ret respects_load respects_current_player
  respects_castle_bits respects_en_passant_pos respects_store
  respects_clear_castle_bits respects_set_castle_bits
  respects_set_en_passant_pos respects_set_current_player
  respects_set_game_state respects_flip_player : rules.
#[local] Hint Extern 2 (respects_rules (bind _ _)) =>
  apply respects_bind; [|intro] : rules.
#[local] Hint Extern 2 (respects_rules (if _ then _ else _)) =>
  apply respects_if : rules.
#[local] Hint Extern 2 (respects_rules (when _ _)) =>
  apply respects_when : rules.
#[local] Hint Extern 3 (respects_rules (modify _)) =>
  apply respects_modify; rules_field : rules.

Lemma respects_king_phase (from to : Z) (info : move_info_t) :
  respects_rules (king_phase from to info).
Proof. unfold king_phase. cbv zeta. auto 20 with rules. Qed.

Lemma respects_own_rook_phase (from : Z) : respects_rules (own_rook_phase from).
Proof. unfold own_rook_phase. auto 20 with rules. Qed.

Lemma respects_captured_rook_phase (to : Z) :
  respects_rules (captured_rook_phase to).
Proof. unfold captured_rook_phase. cbv zeta. auto 20 with rules. Qed.

Lemma respects_pawn_phase (from to capture0 : Z) (info : move_info_t) :
  respects_rules (pawn_phase from to capture0 info).
Proof. unfold pawn_phase. cbv zeta. auto 20 with rules. Qed.

Lemma respects_promotion_phase (from to : Z) (info : move_info_t) :
  respects_rules (promotion_phase from to info).
Proof. unfold promotion_phase. cbv zeta. auto 20 with rules. Qed.

Lemma respects_relocate_phase (from to : Z) :
  respects_rules (relocate_phase from to).
Proof. unfold relocate_phase. auto 20 with rules. Qed.

Lemma respects_perform_move (from to : Z) : respects_rules (perform_move from to).
Proof.
  unfold perform_move. cbv zeta.
  pose proof respects_king_phase. pose proof respects_own_rook_phase.
  pose proof respects_captured_rook_phase. pose proof respects_pawn_phase.
  pose proof respects_promotion_phase. pose proof respects_relocate_phase.
  auto 30 with rules.
Qed.

Lemma respects_revert_move (from to : Z) (info : move_info_t) :
  respects_rules (revert_move from to info).
Proof. unfold revert_move. cbv zeta. auto 40 with rules. Qed.

Lemma respects_slide_loop (n : nat) (path step : Z) (can_move : bool) :
  respects_rules (slide_loop n path step can_move).
Proof.
  revert path can_move; induction n as [|n IH]; intros path can_move; simpl;
    auto with rules.
Qed.

Lemma respects_pawn_case (from to p c : Z) :
  respects_rules (pawn_case from to p c).
Proof. unfold pawn_case. cbv zeta. auto 30 with rules. Qed.

Lemma respects_king_case (self : Z -> Z -> M bool) (from to : Z) :
  (forall f t, respects_rules (self f t)) ->
  respects_rules (king_case self from to).
Proof. intros Hs. unfold king_case. cbv zeta. auto 20 with rules. Qed.

Lemma respects_body (self : Z -> Z -> M bool) (from to : Z) :
  (forall f t, respects_rules (self f t)) ->
  respects_rules (is_legal_move_body self from to).
Proof.
  intros Hs. unfold is_legal_move_body. cbv zeta.
  pose proof respects_slide_loop. pose proof respects_pawn_case.
  pose proof (fun f t => respects_king_case self f t Hs).
  auto 30 with rules.
Qed.

Lemma respects_fuel (fuel : nat) (from to : Z) :
  respects_rules (is_legal_move_fuel fuel from to).
Proof.
  revert from to; induction fuel as [|k IH]; intros from to; simpl.
  - apply respects_ret.
  - apply respects_body. exact IH.
Qed.

Lemma respects_find_piece_loop (n : nat) (i piece : Z) :
  respects_rules (find_piece_loop n i piece).
Proof.
  revert i; induction n as [|n IH]; intros i; simpl; auto 10 with rules.
Qed.

Lemma respects_attack_loop (n : nat) (i pos : Z) :
  respects_rules (attack_loop n i pos).
Proof.
  revert i; induction n as [|n IH]; intros i; simpl.
  - apply respects_ret.
  - apply respects_bind; [apply respects_fuel|].
    intros []; [apply respects_ret | apply IH].
Qed.

Lemma respects_is_piece_attacked (piece : Z) :
  respects_rules (is_piece_attacked piece).
Proof.
  unfold is_piece_attacked. apply respects_bind.
  - apply respects_find_piece_loop.
  - intros pos. apply respects_attack_loop.
Qed.

Lemma respects_is_checked_after_move (from to : Z) :
  respects_rules (is_checked_after_move from to).
Proof.
  unfold is_checked_after_move. cbv zeta.
  pose proof respects_perform_move. pose proof respects_is_piece_attacked.
  pose proof respects_revert_move.
  auto 20 with rules.
Qed.

Lemma respects_legal_and_safe (from to : Z) :
  respects_rules (legal_and_safe from to).
Proof.
  unfold legal_and_safe.
  apply respects_bind; [apply respects_fuel|].
  intros []; [|apply respects_ret].
  apply respects_bind; [apply respects_is_checked_after_move|].
  intros c. apply respects_ret.
Qed.

Lemma respects_count_to_loop (n : nat) (from to acc : Z) :
  respects_rules (count_to_loop n from to acc).
Proof.
  revert to acc; induction n as [|n IH]; intros to acc; simpl.
  - apply respects_ret.
  - apply respects_bind; [apply respects_legal_and_safe|]. intros c. apply IH.
Qed.

Lemma respects_count_from_loop (n : nat) (from acc : Z) :
  respects_rules (count_from_loop n from acc).
Proof.
  revert from acc; induction n as [|n IH]; intros from acc;
    cbn [count_from_loop].
  - apply respects_ret.
  - apply respects_bind; [apply respects_count_to_loop|]. intros c. apply IH.
Qed.

(** X6: the rules read four fields.  On two boards with the same grid,
    side to move, castle rights and en-passant square, [is_legal_move]
    and the king-safety test return the same value for every move,
    [perform_move] returns the same record and leaves boards that agree on
    the four fields again, and [check_end_condition_reached] computes the
    same terminal tag: the selected piece, the highlight mask, the capture
    counters, the move counter and the old terminal tag never influence
    them. *)
Theorem rules_read_four_fields (b b' : board_component_t) (from to : Z) :
  rules_eq b b' ->
  pseudo_legal b from to = pseudo_legal b' from to /\
  fst (legal_and_safe from to b) = fst (legal_and_safe from to b') /\
  fst (perform_move from to b) = fst (perform_move from to b') /\
  rules_eq (snd (perform_move from to b)) (snd (perform_move from to b')) /\
  game_state (snd (check_end_condition_reached b)) =
  game_state (snd (check_end_condition_reached b')).
Proof.
  intros H.
  split; [apply (respects_fuel 3 from to b b' H)|].
  split; [apply (respects_legal_and_safe from to b b' H)|].
  split; [apply (respects_perform_move from to b b' H)|].
  split; [apply (respects_perform_move from to b b' H)|].
  rewrite !check_end_condition_state. board_fields.
  destruct (respects_count_from_loop 128 0 0 b b' H) as [-> _].
  destruct H as (H1 & H2 & H3 & H4).
  rewrite <- H2.
  assert (Hr : rules_eq (set_current_player (other_player (current_player b)) b)
                        (set_current_player (other_player (current_player b)) b'))
    by (unfold rules_eq; board_fields; auto).
  destruct (respects_is_piece_attacked (Z.lor PIECE_KING (current_player b))
              _ _ Hr) as [-> _].
  reflexivity.
Qed.

Lemma rules_read_four_fields_witness :
  pseudo_legal initial_board 0x60 0x40
    = pseudo_legal (set_selected_piece 1 initial_board) 0x60 0x40 /\
  fst (legal_and_safe 0x60 0x40 initial_board)
    = fst (legal_and_safe 0x60 0x40 (set_selected_piece 1 initial_board)) /\
  fst (perform_move 0x60 0x40 initial_board)
    = fst (perform_move 0x60 0x40 (set_selected_piece 1 initial_board)) /\
  rules_eq (snd (perform_move 0x60 0x40 initial_board))
           (snd (perform_move 0x60 0x40 (set_selected_piece 1 initial_board))) /\
  game_state (snd (check_end_condition_reached initial_board)) =
  game_state (snd (check_end_condition_reached (set_selected_piece 1 initial_board))).
Proof.
  apply (rules_read_four_fields initial_board (set_selected_piece 1 initial_board)
           0x60 0x40).
  unfold rules_eq. cbn. auto.
Defined.

(** ** The castle query does not look across the king *)

Lemma slide_of_kind (p : Z) :
  Z.land p MASK_SLIDE = Z.land (Z.land p MASK_TYPE) MASK_SLIDE.
Proof. rewrite <- Z.land_assoc. reflexivity. Qed.

Lemma slide_step_diff (f t : Z) : slide_step f t = slide_step 0 (t - f).
Proof. unfold slide_step. now rewrite Z.sub_0_r. Qed.

Lemma pawn_case_off (f t p q : Z) (c : board_component_t) :
  Z.abs (f - t) = 2 \/ Z.abs (f - t) = 3 ->
  fst (pawn_case f t p q c) = false.
Proof.
  intros Hd. destruct (fst (pawn_case f t p q c)) eqn:E; [|reflexivity].
  apply pawn_case_shape in E. destruct E as [E _]. lia.
Qed.

(** Two boards on which a query of two or three squares reads the same. *)
Lemma near_query_cong (c c' : board_component_t) (f t : Z) :
  Z.abs (f - t) = 2 \/ Z.abs (f - t) = 3 ->
  cell (indices c') f = cell (indices c) f ->
  cell (indices c') t = cell (indices c) t ->
  current_player c' = current_player c ->
  (Z.land (cell (indices c) f) MASK_TYPE = PIECE_KING ->
   fst (king_case is_legal_move f t c') = fst (king_case is_legal_move f t c)) ->
  path_clear c' f t = path_clear c f t ->
  pseudo_legal c' f t = pseudo_legal c f t.
Proof.
  intros Hd Hf Ht Hcp Hking Hpath.
  rewrite !pseudo_legal_value. cbv zeta. rewrite Hf, Ht, Hcp, Hpath.
  f_equal. f_equal.
  unfold shape_ok. cbv zeta. rewrite Hf, Ht.
  destruct (Z.eqb_spec (Z.land (cell (indices c) f) MASK_TYPE) PIECE_PAWN);
    [now rewrite !pawn_case_off|].
  destruct (Z.eqb_spec (Z.land (cell (indices c) f) MASK_TYPE) PIECE_KNIGHT);
    [reflexivity|].
  destruct (Z.eqb_spec (Z.land (cell (indices c) f) MASK_TYPE) PIECE_KING);
    [now apply Hking|].
  reflexivity.
Qed.

Lemma emptied_cell (s x : Z) (c : board_component_t) :
  x <> s -> cell (indices (emptied s c)) x = cell (indices c) x.
Proof.
  intros H. unfold emptied. board_fields. rewrite cell_store_cell.
  replace (s =? x) with false by (symmetry; apply Z.eqb_neq; lia).
  reflexivity.
Qed.

Lemma emptied_cell_same (s : Z) (c : board_component_t) :
  cell (indices (emptied s c)) s = 0.
Proof.
  unfold emptied. board_fields. rewrite cell_store_cell, Z.eqb_refl.
  destruct (in_grid s) eqn:E; [reflexivity | now apply cell_outside].
Qed.

Lemma empty_source_illegal (c : board_component_t) (f t : Z) :
  cell (indices c) f = 0 -> pseudo_legal c f t = false.
Proof.
  intros H. destruct (pseudo_legal c f t) eqn:E; [|reflexivity].
  apply pseudo_legal_guards in E. tauto.
Qed.

(** A piece next to an occupied square does not reach the square beyond
    it: no kind moves three squares along a rank over a piece. *)
Lemma blocked_query (c : board_component_t) (from : Z) :
  cell (indices c) from <> 0 -> pseudo_legal c (from + 1) (from - 2) = false.
Proof.
  intros Hk. rewrite pseudo_legal_value. cbv zeta.
  assert (Hd : Z.abs (from + 1 - (from - 2)) = 3) by lia.
  assert (Hpath : path_clear c (from + 1) (from - 2) = false).
  { unfold path_clear. cbv zeta. rewrite slide_step_diff.
    replace (from - 2 - (from + 1)) with (-3) by lia.
    change (slide_step 0 (-3)) with (-1).
    change (Z.to_nat _) with 2%nat.
    cbn [slide_loop]. unfold bind, load, gets, ret. cbn [fst].
    replace (from + 1 + -1) with from by lia.
    apply Z.eqb_neq in Hk. rewrite Hk. reflexivity. }
  rewrite Hpath, orb_false_r.
  destruct (Z.eqb_spec (Z.land (cell (indices c) (from + 1)) MASK_SLIDE) 0)
    as [Hs|Hs]; [|apply andb_false_r].
  rewrite andb_true_r.
  assert (Hshape : shape_ok c (from + 1) (from - 2) = false);
    [|rewrite Hshape; apply andb_false_r].
  rewrite slide_of_kind in Hs.
  unfold shape_ok. cbv zeta. rewrite Hd.
  destruct (Z.eqb_spec (Z.land (cell (indices c) (from + 1)) MASK_TYPE) PIECE_PAWN);
    [apply pawn_case_off; lia|].
  destruct (Z.eqb_spec (Z.land (cell (indices c) (from + 1)) MASK_TYPE) PIECE_KNIGHT);
    [reflexivity|].
  destruct (Z.eqb_spec (Z.land (cell (indices c) (from + 1)) MASK_TYPE) PIECE_KING);
    [rewrite king_case_run; cbv zeta; rewrite Hd; reflexivity|].
  destruct (Z.eqb_spec (Z.land (cell (indices c) (from + 1)) MASK_TYPE) PIECE_BISHOP)
    as [K|_]; [rewrite K in Hs; discriminate Hs|].
  destruct (Z.eqb_spec (Z.land (cell (indices c) (from + 1)) MASK_TYPE) PIECE_ROOK)
    as [K|_]; [rewrite K in Hs; discriminate Hs|].
  destruct (Z.eqb_spec (Z.land (cell (indices c) (from + 1)) MASK_TYPE) PIECE_QUEEN)
    as [K|_]; [rewrite K in Hs; discriminate Hs|].
  reflexivity.
Qed.

Lemma castle_query_cong (c c' : board_component_t) (from t : Z) :
  Z.land (cell (indices c) from) MASK_TYPE = PIECE_KING ->
  cell (indices c') from = cell (indices c) from ->
  cell (indices c') t = cell (indices c) t ->
  current_player c' = current_player c ->
  castle_bits c' = castle_bits c ->
  (let dir := if from - t >? 0 then 1 else 0 in
   pseudo_legal c' (from + (if negb (dir =? 0) then -3 else 4))
                   (from + (if negb (dir =? 0) then -1 else 1))
   = pseudo_legal c (from + (if negb (dir =? 0) then -3 else 4))
                    (from + (if negb (dir =? 0) then -1 else 1))) ->
  pseudo_legal c' from t = pseudo_legal c from t.
Proof.
  intros Hk Hf Ht Hcp Hcb Hrook. cbv zeta in Hrook. unfold pseudo_legal in Hrook.
  rewrite !pseudo_legal_value. cbv zeta. rewrite Hf, Ht, Hcp.
  rewrite (kind_not_sliding _ _ Hk eq_refl).
  change (0 =? 0) with true. cbn [orb]. rewrite !andb_true_r.
  f_equal.
  unfold shape_ok. cbv zeta. rewrite Hf, Hk.
  change (PIECE_KING =? PIECE_PAWN) with false.
  change (PIECE_KING =? PIECE_KNIGHT) with false.
  change (PIECE_KING =? PIECE_KING) with true. cbv iota.
  rewrite !king_case_run. cbv zeta. rewrite Hcb, Hcp, Hrook. reflexivity.
Qed.

Lemma king_is_piece (p : Z) : Z.land p MASK_TYPE = PIECE_KING -> p <> 0.
Proof. intros H E. subst p. discriminate H. Qed.

(** The castle toward lower indices does not read [from + 1]. *)
Lemma castle_low_independent (c : board_component_t) (from : Z) :
  Z.land (cell (indices c) from) MASK_TYPE = PIECE_KING ->
  pseudo_legal (emptied (from + 1) c) from (from - 2)
  = pseudo_legal c from (from - 2).
Proof.
  intros Hk. pose proof (king_is_piece _ Hk) as Hne.
  apply castle_query_cong; try reflexivity; try exact Hk;
    try (apply emptied_cell; lia).
  cbv zeta. replace (from - (from - 2)) with 2 by lia.
  change (2 >? 0) with true. cbv iota. change (negb (1 =? 0)) with true.
  cbv iota.
  apply near_query_cong; try reflexivity; try (apply emptied_cell; lia);
    [lia | |].
  - intros _. rewrite !king_case_run. cbv zeta.
    replace (from + -3 - (from + -1)) with (-2) by lia.
    change (-2 >? 0) with false. cbv iota. change (negb (0 =? 0)) with false.
    cbv iota.
    replace (from + -3 + 4) with (from + 1) by lia.
    replace (from + -3 + 1) with (from - 2) by lia.
    fold (pseudo_legal (emptied (from + 1) c) (from + 1) (from - 2)).
    fold (pseudo_legal c (from + 1) (from - 2)).
    rewrite (blocked_query c from Hne).
    rewrite (empty_source_illegal _ _ _ (emptied_cell_same (from + 1) c)).
    reflexivity.
  - unfold path_clear. cbv zeta. rewrite slide_step_diff.
    replace (from + -1 - (from + -3)) with 2 by lia.
    change (slide_step 0 2) with 1.
    change (Z.to_nat _) with 1%nat.
    cbn [slide_loop]. unfold bind, load, gets, ret. cbn [fst].
    rewrite emptied_cell by lia. reflexivity.
Qed.

(** The castle toward higher indices does not read [from - 1]. *)
Lemma castle_high_independent (c : board_component_t) (from : Z) :
  Z.land (cell (indices c) from) MASK_TYPE = PIECE_KING ->
  pseudo_legal (emptied (from - 1) c) from (from + 2)
  = pseudo_legal c from (from + 2).
Proof.
  intros Hk.
  apply castle_query_cong; try reflexivity; try exact Hk;
    try (apply emptied_cell; lia).
  cbv zeta. replace (from - (from + 2)) with (-2) by lia.
  change (-2 >? 0) with false. cbv iota. change (negb (0 =? 0)) with false.
  cbv iota.
  assert (Hd : Z.abs (from + 4 - (from + 1)) = 3) by lia.
  apply near_query_cong; try reflexivity; try (apply emptied_cell; lia);
    [lia | |].
  - intros _. rewrite !king_case_run. cbv zeta. rewrite Hd. reflexivity.
  - unfold path_clear. cbv zeta. rewrite slide_step_diff.
    replace (from + 1 - (from + 4)) with (-3) by lia.
    change (slide_step 0 (-3)) with (-1).
    change (Z.to_nat _) with 2%nat.
    cbn [slide_loop]. unfold bind, load, gets, ret. cbn [fst].
    rewrite !emptied_cell by lia. reflexivity.
Qed.

(** ** The squares of the tiles *)

Lemma tile_square (idx : Z) :
  0 <= idx < 64 ->
  let t := Z.rem idx 8 + Z.quot idx 8 * 16 in
  0 <= t < 128 /\ Z.land t 0x88 = 0.
Proof.
  intros H.
  pose proof (forall_range
    (fun idx => let t := Z.rem idx 8 + Z.quot idx 8 * 16 in
                (0 <=? t) && (t <? 128) && (Z.land t 0x88 =? 0))
    0 64 ltac:(vm_compute; reflexivity) idx ltac:(cbn; lia)) as E.
  cbv beta zeta in E. cbv zeta.
  apply andb_true_iff in E. destruct E as [E E3].
  apply andb_true_iff in E. destruct E as [E1 E2].
  apply Z.leb_le in E1. apply Z.ltb_lt in E2. apply Z.eqb_eq in E3.
  repeat split; assumption.
Qed.

Lemma square_tile (t : Z) :
  0 <= t < 128 -> Z.land t 0x88 = 0 ->
  exists idx, 0 <= idx < 64 /\ Z.rem idx 8 + Z.quot idx 8 * 16 = t.
Proof.
  intros H Hb.
  pose proof (forall_in_grid
    (fun t => let idx := Z.rem t 16 + Z.quot t 16 * 8 in
              negb (Z.land t 0x88 =? 0)
              || (0 <=? idx) && (idx <? 64)
                 && (Z.rem idx 8 + Z.quot idx 8 * 16 =? t))
    ltac:(vm_compute; reflexivity) t H) as E.
  cbv beta zeta in E. rewrite Hb in E. cbn [Z.eqb negb orb] in E.
  apply andb_true_iff in E. destruct E as [E E3].
  apply andb_true_iff in E. destruct E as [E1 E2].
  apply Z.leb_le in E1. apply Z.ltb_lt in E2. apply Z.eqb_eq in E3.
  exists (Z.rem t 16 + Z.quot t 16 * 8). repeat split; assumption.
Qed.

(** ** The loop of [update_legal_move_indices_for_piece] *)

Lemma update_loop_step (n : nat) (from idx : Z) (c : board_component_t) :
  update_loop (S n) from idx c = update_loop n from (idx + 1) (pass_step from idx c).
Proof.
  cbn [update_loop]. unfold pass_step, bind, modify. cbv zeta.
  destruct (legal_and_safe from _ c) as [v c1]. reflexivity.
Qed.

Lemma update_loop_invariant (I : Z -> board_component_t -> Prop) (from : Z) :
  (forall idx c, 0 <= idx < 64 -> I idx c -> I (idx + 1) (pass_step from idx c)) ->
  forall (n : nat) idx c,
    0 <= idx -> idx + Z.of_nat n = 64 -> I idx c ->
    I 64 (snd (update_loop n from idx c)).
Proof.
  intros Hstep n. induction n as [|n IH]; intros idx c H0 Hn Hi.
  - cbn. replace 64 with idx by lia. exact Hi.
  - rewrite update_loop_step. apply IH; [lia | lia |].
    apply Hstep; [lia | exact Hi].
Qed.

Lemma well_formed_emptied (s : Z) (c : board_component_t) :
  well_formed c -> well_formed (emptied s c).
Proof.
  intros (Hg & Hmc & Hcells). unfold well_formed, emptied. board_fields.
  split; [now apply grid_ok_store_cell|]. split; [exact Hmc|].
  intros i. rewrite cell_store_cell. destruct (_ && _); [lia | apply Hcells].
Qed.

Lemma pseudo_legal_mask (m : list bool) (c : board_component_t) (f t : Z) :
  pseudo_legal (set_legal_move_indices m c) f t = pseudo_legal c f t.
Proof.
  apply (respects_fuel 3 f t). unfold rules_eq. board_fields. auto.
Qed.

(** One round: the mask entry is written, and the grid changes only when the
    target is a pseudo-legal castle, by losing what stood on the rook's
    destination. *)
Lemma pass_step_run (from idx : Z) (c : board_component_t) :
  well_formed c -> 0 <= idx < 64 ->
  let t := Z.rem idx 8 + Z.quot idx 8 * 16 in
  exists m,
    pass_step from idx c =
    set_legal_move_indices m
      (if pseudo_legal c from t && is_castle c from t
       then emptied (from + (if from >? t then -1 else 1)) c else c).
Proof.
  intros Hwf Hidx. cbv zeta.
  destruct (tile_square idx Hidx) as [Ht _]. cbv zeta in Ht.
  unfold pass_step. cbv zeta. rewrite legal_and_safe_state.
  destruct (pseudo_legal c from _) eqn:Hl; cbn [andb];
    [|eexists; reflexivity].
  rewrite (perform_revert_state c from _ Hwf Ht Hl).
  destruct (is_castle c from _); eexists; reflexivity.
Qed.

Lemma is_castle_mask (m : list bool) (c : board_component_t) (f t : Z) :
  is_castle (set_legal_move_indices m c) f t = is_castle c f t.
Proof. reflexivity. Qed.

Lemma is_castle_emptied (s : Z) (c : board_component_t) (f t : Z) :
  f <> s -> is_castle (emptied s c) f t = is_castle c f t.
Proof. intros H. unfold is_castle. now rewrite emptied_cell. Qed.

Lemma is_castle_shape (c : board_component_t) (from t : Z) :
  is_castle c from t = true ->
  Z.land (cell (indices c) from) MASK_TYPE = PIECE_KING /\ Z.abs (from - t) = 2.
Proof.
  unfold is_castle. intros H. apply andb_true_iff in H.
  destruct H as [H1 H2]. apply Z.eqb_eq in H1. apply Z.eqb_eq in H2. auto.
Qed.

(** After the pass the selection can only meet castles whose rook
    destination is empty: the pass has run their make/undo already. *)
Lemma selection_pass_clear (from : Z) (c0 : board_component_t) :
  well_formed c0 ->
  let b := snd (update_legal_move_indices_for_piece from c0) in
  well_formed b /\ selected_piece b = selected_piece c0 /\
  castles_clear_from b from.
Proof.
  intros Hwf0. cbv zeta. unfold update_legal_move_indices_for_piece.
  pose (I := fun (idx : Z) (c : board_component_t) =>
    well_formed c /\ selected_piece c = selected_piece c0 /\
    forall j, 0 <= j < idx ->
      let t := Z.rem j 8 + Z.quot j 8 * 16 in
      pseudo_legal c from t = true -> is_castle c from t = true ->
      cell (indices c) (from + (if from >? t then -1 else 1)) = 0).
  assert (Hend : I 64 (snd (update_loop 64 from 0 c0))).
  { apply (update_loop_invariant I from); [|lia|reflexivity|].
    2: { unfold I. split; [exact Hwf0|]. split; [reflexivity|].
         intros j Hj. lia. }
    intros idx c Hidx (Hwf & Hsel & Hvis).
    destruct (pass_step_run from idx c Hwf Hidx) as [m Hm]. cbv zeta in Hm.
    rewrite Hm. clear Hm.
    set (t' := Z.rem idx 8 + Z.quot idx 8 * 16) in *.
    destruct (pseudo_legal c from t' && is_castle c from t') eqn:X.
    - (* the target is a castle: its rook destination is emptied *)
      apply andb_true_iff in X. destruct X as [Hl' Hc'].
      destruct (is_castle_shape _ _ _ Hc') as [Hk Hd'].
      unfold I. split; [exact (well_formed_emptied _ _ Hwf)|].
      split; [exact Hsel|].
      intros j Hj. cbv zeta. rewrite pseudo_legal_mask, is_castle_mask.
      rewrite is_castle_emptied by (destruct (from >? t'); lia).
      set (t := Z.rem j 8 + Z.quot j 8 * 16).
      change (indices (set_legal_move_indices m ?x)) with (indices x).
      intros Hl Hc2.
      destruct (is_castle_shape _ _ _ Hc2) as [_ Hd].
      destruct (Z.eq_dec t t') as [E|E].
      + rewrite E. apply emptied_cell_same.
      + assert (Hj' : 0 <= j < idx).
        { destruct (Z.eq_dec j idx) as [Ej|Ej]; [|lia].
          exfalso. apply E. unfold t, t'. now rewrite Ej. }
        assert (Hl2 : pseudo_legal c from t = true).
        { revert Hl.
          destruct (Z.gtb_spec from t') as [G'|G'];
            destruct (Z.gtb_spec from t) as [G|G]; try lia.
          - replace t with (from + 2) by lia.
            replace (from + -1) with (from - 1) by lia.
            now rewrite castle_high_independent.
          - replace t with (from - 2) by lia.
            now rewrite castle_low_independent. }
        specialize (Hvis j Hj' Hl2 Hc2). cbv zeta in Hvis. fold t in Hvis.
        unfold emptied. cbn [indices set_indices].
        rewrite cell_store_cell. destruct (_ && _); [reflexivity | exact Hvis].
    - (* any other target: the grid is as before *)
      unfold I. split; [exact Hwf|]. split; [exact Hsel|].
      intros j Hj. cbv zeta. rewrite pseudo_legal_mask, is_castle_mask.
      change (indices (set_legal_move_indices m ?x)) with (indices x).
      intros Hl Hc2.
      destruct (Z.eq_dec j idx) as [Ej|Ej].
      + exfalso. subst j. fold t' in Hl, Hc2. rewrite Hl, Hc2 in X.
        discriminate X.
      + apply (Hvis j ltac:(lia) Hl Hc2). }
  destruct Hend as (Hwf & Hsel & Hvis).
  split; [exact Hwf|]. split; [exact Hsel|].
  intros to Hl Hc.
  destruct (is_castle_shape _ _ _ Hc) as [_ Hd].
  pose proof (legal_from_on_grid _ _ _ Hl) as Hf.
  pose proof (pseudo_legal_guards _ _ _ Hl) as (Hto & _).
  assert (Ht : 0 <= to < 128) by (apply (on_board_near from); lia).
  destruct (square_tile to Ht Hto) as (j & Hj & Ej).
  specialize (Hvis j Hj). cbv zeta in Hvis. rewrite Ej in Hvis.
  now apply Hvis.
Qed.

(** ** The target-square handler on the states it is called on *)

(** Pressing a piece of the side to move: the piece is selected and the
    pass of [update_legal_move_indices_for_piece] runs (chess.c 546-549). *)
Lemma on_entity_pressed_own
    (has_piece has_tile is_entity_alive : Z -> bool)
    (piece_board_position piece_mask piece_board tile_board tile_x tile_z : Z -> Z)
    (e : Z) (b : board_component_t) :
  has_piece e = true ->
  is_entity_alive (piece_board e) = true ->
  Z.land (piece_mask e) MASK_COLOR = current_player b ->
  on_entity_pressed has_piece has_tile is_entity_alive piece_board_position
    piece_mask piece_board tile_board tile_x tile_z e b
  = update_legal_move_indices_for_piece (piece_board_position e)
      (set_selected_piece e b).
Proof.
  intros Hp Ha Hc. unfold on_entity_pressed. rewrite Hp, Ha.
  unfold bind at 1, gets at 1. cbv beta iota zeta.
  rewrite Hc, Z.eqb_refl. cbn [negb]. cbv iota.
  unfold bind at 1, ret at 1. cbv beta iota.
  unfold bind at 1, modify at 1. cbv beta iota. reflexivity.
Qed.

(** C7: a rejected target is a no-op.  The handler is run on a board with
    no live selection, or with a selection that the program made: a live
    selection is written only by [on_entity_pressed] (chess.c 546-549), by
    pressing a piece of the side to move on a well-formed board, which also
    runs the pass of [update_legal_move_indices_for_piece] for that piece.
    On such a board, for a target [x + z * 16] that is a square of the grid
    or the off-board position -1 of a captured piece, if the selection is
    not alive or the move of the selected piece to the target is not both
    pseudo-legal and king-safe, then [try_move_selected_piece] returns with
    the board it was given: grid, side to move, castle rights, en-passant
    square, move count, capture counters, terminal tag, selected piece and
    highlight mask.  It returns [tt]: there is no error value. *)
Theorem rejected_target_is_noop
    (has_piece has_tile is_entity_alive : Z -> bool)
    (piece_board_position piece_mask piece_board tile_board tile_x tile_z : Z -> Z)
    (x z : Z) (b : board_component_t) :
  let handler :=
    try_move_selected_piece is_entity_alive piece_board_position piece_mask in
  let pressed :=
    on_entity_pressed has_piece has_tile is_entity_alive piece_board_position
      piece_mask piece_board tile_board tile_x tile_z in
  let from := piece_board_position (selected_piece b) in
  let to := x + z * 16 in
  (is_entity_alive (selected_piece b) = true ->
   exists b0 e,
     well_formed b0 /\ has_piece e = true /\
     is_entity_alive (piece_board e) = true /\
     Z.land (piece_mask e) MASK_COLOR = current_player b0 /\
     b = snd (pressed e b0)) ->
  -1 <= to < 128 ->
  is_entity_alive (selected_piece b) = false \/
  fst (legal_and_safe from to b) = false ->
  handler x z b = (tt, b).
Proof.
  cbv zeta. intros Hlive Hto Hrej.
  destruct (is_entity_alive (selected_piece b)) eqn:Ea.
  - destruct (Hlive eq_refl) as (b0 & e & Hwf0 & Hp & Hb & Hc & Eb).
    rewrite (on_entity_pressed_own _ _ _ _ _ _ _ _ _ e b0 Hp Hb Hc) in Eb.
    pose proof (selection_pass_clear (piece_board_position e)
                  (set_selected_piece e b0) Hwf0) as Hpass.
    cbv zeta in Hpass. rewrite <- Eb in Hpass.
    destruct Hpass as (Hwf & Hsel & Hclear). cbn [selected_piece set_selected_piece] in Hsel.
    apply try_move_rejected_noop; [exact Hwf | |].
    + right. destruct Hrej as [Hrej|Hrej]; [discriminate Hrej | exact Hrej].
    + intros Hl. pose proof (pseudo_legal_guards _ _ _ Hl) as (Hon & _).
      split.
      * destruct (Z.eq_dec (x + z * 16) (-1)) as [E|E]; [|lia].
        rewrite E in Hon. discriminate Hon.
      * rewrite Hsel in *. now apply Hclear.
  - unfold try_move_selected_piece. unfold bind at 1, gets at 1.
    cbv beta iota. rewrite Ea. reflexivity.
Qed.

Lemma rejected_target_is_noop_witness :
  let alive := fun e => (e =? 1) || (e =? 2) in
  let handler :=
    try_move_selected_piece alive (fun _ => 0x73)
      (fun _ => Z.lor PIECE_KING PIECE_WHITE) in
  let pressed :=
    on_entity_pressed (fun e => e =? 1) (fun _ => false) alive (fun _ => 0x73)
      (fun _ => Z.lor PIECE_KING PIECE_WHITE) (fun _ => 2) (fun _ => 2)
      (fun _ => 0) (fun _ => 0) in
  handler 1 7 (snd (pressed 1 board_castle_unsafe))
  = (tt, snd (pressed 1 board_castle_unsafe)).
Proof.
  apply (rejected_target_is_noop (fun e => e =? 1) (fun _ => false)
           (fun e => (e =? 1) || (e =? 2)) (fun _ => 0x73)
           (fun _ => Z.lor PIECE_KING PIECE_WHITE) (fun _ => 2) (fun _ => 2)
           (fun _ => 0) (fun _ => 0) 1 7).
  - intros _. exists board_castle_unsafe, 1.
    split; [apply well_formed_checked; vm_compute; reflexivity|].
    split; [reflexivity|]. split; [reflexivity|]. split; reflexivity.
  - cbn. lia.
  - right. vm_compute. reflexivity.
Defined.

(** ** The highlight mask *)

Lemma nth_store_flag_nth_same (n : nat) (l : list bool) (v : bool) :
  nth n (store_flag_nth n l v) false = v.
Proof.
  revert l; induction n as [|n IH]; intros [|h t]; simpl; auto.
Qed.

Lemma nth_store_flag_nth_other (n m : nat) (l : list bool) (v : bool) :
  n <> m -> nth m (store_flag_nth n l v) false = nth m l false.
Proof.
  revert m l; induction n as [|n IH]; intros [|m] [|h t] Hnm; simpl; auto;
    try congruence.
  - destruct m; reflexivity.
  - rewrite IH by congruence. destruct m; reflexivity.
Qed.

Lemma in_mask_iff (i : Z) : in_mask i = true <-> 0 <= i < 64.
Proof. unfold in_mask. rewrite andb_true_iff, Z.leb_le, Z.ltb_lt. tauto. Qed.

Lemma flag_store_flag (l : list bool) (i j : Z) (v : bool) :
  flag (store_flag l i v) j =
  if (i =? j) && in_mask i then v else flag l j.
Proof.
  unfold flag, store_flag.
  destruct (Z.eqb_spec i j) as [->|Hij]; simpl.
  - destruct (in_mask j); [apply nth_store_flag_nth_same | reflexivity].
  - destruct (in_mask i) eqn:Hi; [|reflexivity].
    destruct (in_mask j) eqn:Hj; [|reflexivity].
    apply nth_store_flag_nth_other.
    apply in_mask_iff in Hi. apply in_mask_iff in Hj. lia.
Qed.

Lemma tile_index (x z : Z) :
  0 <= x < 8 -> 0 <= z < 8 ->
  0 <= x + z * 8 < 64 /\
  Z.rem (x + z * 8) 8 + Z.quot (x + z * 8) 8 * 16 = x + z * 16.
Proof.
  intros Hx Hz. split; [lia|].
  rewrite Z.rem_mod_nonneg, Z.quot_div_nonneg by lia.
  rewrite Z.mod_add, Z.div_add by lia.
  rewrite Z.mod_small, Z.div_small by lia. lia.
Qed.

Lemma set_mask_same (b : board_component_t) :
  set_legal_move_indices (legal_move_indices b) b = b.
Proof. destruct b. reflexivity. Qed.

(** The pass on a board on which every make/undo it runs is exact: the
    grid and every scalar are as before, and the entry of each tile tells
    whether the move to its square is pseudo-legal and king-safe. *)
Lemma update_mask_spec (from : Z) (b : board_component_t) :
  well_formed b -> castles_clear_from b from ->
  let b' := snd (update_legal_move_indices_for_piece from b) in
  b' = set_legal_move_indices (legal_move_indices b') b /\
  forall x z, 0 <= x < 8 -> 0 <= z < 8 ->
    tile_shown b' x z = fst (legal_and_safe from (x + z * 16) b).
Proof.
  intros Hwf Hclear. cbv zeta. unfold update_legal_move_indices_for_piece.
  pose (I := fun (idx : Z) (c : board_component_t) =>
    exists m, c = set_legal_move_indices m b /\
      forall j, 0 <= j < idx ->
        flag m j = fst (legal_and_safe from (Z.rem j 8 + Z.quot j 8 * 16) b)).
  assert (Hend : I 64 (snd (update_loop 64 from 0 b))).
  { apply (update_loop_invariant I from); [|lia|reflexivity|].
    2: { exists (legal_move_indices b). split; [now rewrite set_mask_same|].
         intros j Hj. lia. }
    intros idx c Hidx (m & -> & Hm).
    destruct (tile_square idx Hidx) as [Ht _]. cbv zeta in Ht.
    set (t := Z.rem idx 8 + Z.quot idx 8 * 16) in *.
    assert (Hst : snd (legal_and_safe from t (set_legal_move_indices m b))
                  = set_legal_move_indices m b).
    { apply legal_and_safe_frame. rewrite pseudo_legal_mask. intros Hl.
      apply perform_revert_roundtrip; [exact Hwf | exact Ht | |].
      - now rewrite pseudo_legal_mask.
      - rewrite is_castle_mask. intros Hc. now apply Hclear. }
    assert (Hv : fst (legal_and_safe from t (set_legal_move_indices m b))
                 = fst (legal_and_safe from t b)).
    { apply (respects_legal_and_safe from t). unfold rules_eq.
      cbn [indices current_player castle_bits en_passant_pos
           set_legal_move_indices]. auto. }
    unfold pass_step. cbv zeta. fold t. rewrite Hst, Hv.
    eexists. split; [reflexivity|].
    intros j Hj. cbn [legal_move_indices set_legal_move_indices].
    rewrite flag_store_flag.
    destruct (Z.eqb_spec idx j) as [<-|Hne]; cbn [andb].
    + replace (in_mask idx) with true by (symmetry; apply in_mask_iff; lia).
      reflexivity.
    + apply Hm. lia. }
  destruct Hend as (m & Hb & Hm). rewrite Hb.
  cbn [legal_move_indices set_legal_move_indices].
  split; [reflexivity|].
  intros x z Hx Hz. unfold tile_shown.
  cbn [legal_move_indices set_legal_move_indices].
  destruct (tile_index x z Hx Hz) as [Hj Ej].
  rewrite (Hm _ Hj), Ej. reflexivity.
Qed.

(** X18: the highlight mask is the set of legal targets.  On a
    well-formed board where no castle from [from] would put its rook on an
    occupied square, [update_legal_move_indices_for_piece] changes the mask
    and nothing else, and afterwards the tile [(x, z)] is shown by
    [update_tiles] (entry [x + z * 8]) exactly when the move from [from] to
    the square [x + z * 16] is pseudo-legal and leaves the mover's king
    unattacked. *)
Theorem highlight_mask_is_legal_targets (from : Z) (b : board_component_t) :
  well_formed b -> castles_clear_from b from ->
  let b' := snd (update_legal_move_indices_for_piece from b) in
  b' = set_legal_move_indices (legal_move_indices b') b /\
  forall x z, 0 <= x < 8 -> 0 <= z < 8 ->
    tile_shown b' x z = true <->
    pseudo_legal b from (x + z * 16) = true /\
    fst (is_piece_attacked (Z.lor PIECE_KING (current_player b))
           (snd (perform_move from (x + z * 16) b))) = false.
Proof.
  intros Hwf Hclear. cbv zeta.
  destruct (update_mask_spec from b Hwf Hclear) as [H1 H2]. cbv zeta in H1, H2.
  split; [exact H1|]. intros x z Hx Hz.
  rewrite (H2 x z Hx Hz), legal_and_safe_value.
  rewrite andb_true_iff, negb_true_iff. reflexivity.
Qed.

Lemma highlight_mask_is_legal_targets_witness :
  let b' := snd (update_legal_move_indices_for_piece 0x64 initial_board) in
  b' = set_legal_move_indices (legal_move_indices b') initial_board /\
  forall x z, 0 <= x < 8 -> 0 <= z < 8 ->
    tile_shown b' x z = true <->
    pseudo_legal initial_board 0x64 (x + z * 16) = true /\
    fst (is_piece_attacked (Z.lor PIECE_KING (current_player initial_board))
           (snd (perform_move 0x64 (x + z * 16) initial_board))) = false.
Proof.
  apply (highlight_mask_is_legal_targets 0x64 initial_board).
  - apply well_formed_checked. vm_compute. reflexivity.
  - intros to Hl Hc. vm_compute in Hc. discriminate Hc.
Defined.

(** ** Pressing a piece *)

Lemma castles_clear_from_selected (e from : Z) (b : board_component_t) :
  castles_clear_from b from ->
  castles_clear_from (set_selected_piece e b) from.
Proof.
  intros H to Hl Hc. apply (H to); [|exact Hc].
  rewrite <- Hl. apply (respects_fuel 3 from to). unfold rules_eq.
  cbn [indices current_player castle_bits en_passant_pos set_selected_piece].
  auto.
Qed.

(** X19: pressing a piece of the side to move selects it.  On a
    well-formed board where no castle from the piece's square would put its
    rook on an occupied square, [on_entity_pressed] stores the entity as
    the selected piece, rewrites the highlight mask and changes nothing
    else; the tile [(x, z)] is then shown exactly when the handler would
    accept the move of that piece to [x + z * 16]. *)
Theorem press_own_piece_selects
    (has_piece has_tile is_entity_alive : Z -> bool)
    (piece_board_position piece_mask piece_board tile_board tile_x tile_z : Z -> Z)
    (e : Z) (b : board_component_t) :
  let pressed :=
    on_entity_pressed has_piece has_tile is_entity_alive piece_board_position
      piece_mask piece_board tile_board tile_x tile_z in
  let from := piece_board_position e in
  has_piece e = true ->
  is_entity_alive (piece_board e) = true ->
  Z.land (piece_mask e) MASK_COLOR = current_player b ->
  well_formed b -> castles_clear_from b from ->
  let b' := snd (pressed e b) in
  selected_piece b' = e /\
  b' = set_legal_move_indices (legal_move_indices b') (set_selected_piece e b) /\
  forall x z, 0 <= x < 8 -> 0 <= z < 8 ->
    tile_shown b' x z = fst (legal_and_safe from (x + z * 16) b).
Proof.
  cbv zeta. intros Hp Ha Hc Hwf Hclear.
  rewrite (on_entity_pressed_own _ _ _ _ _ _ _ _ _ e b Hp Ha Hc).
  pose proof (update_mask_spec (piece_board_position e) (set_selected_piece e b)
                Hwf (castles_clear_from_selected _ _ _ Hclear)) as H.
  cbv zeta in H. destruct H as [H1 H2].
  split; [rewrite H1; reflexivity|]. split; [exact H1|].
  intros x z Hx Hz. rewrite (H2 x z Hx Hz).
  apply (respects_legal_and_safe (piece_board_position e) (x + z * 16)).
  unfold rules_eq.
  cbn [indices current_player castle_bits en_passant_pos set_selected_piece].
  auto.
Qed.

Lemma press_own_piece_selects_witness :
  let pressed :=
    on_entity_pressed (fun e => e =? 1) (fun _ => false)
      (fun e => (e =? 1) || (e =? 2)) (fun _ => 0x64)
      (fun _ => Z.lor PIECE_PAWN PIECE_WHITE) (fun _ => 2) (fun _ => 2)
      (fun _ => 0) (fun _ => 0) in
  let b' := snd (pressed 1 initial_board) in
  selected_piece b' = 1 /\
  b' = set_legal_move_indices (legal_move_indices b')
         (set_selected_piece 1 initial_board) /\
  forall x z, 0 <= x < 8 -> 0 <= z < 8 ->
    tile_shown b' x z = fst (legal_and_safe 0x64 (x + z * 16) initial_board).
Proof.
  apply (press_own_piece_selects (fun e => e =? 1) (fun _ => false)
           (fun e => (e =? 1) || (e =? 2)) (fun _ => 0x64)
           (fun _ => Z.lor PIECE_PAWN PIECE_WHITE) (fun _ => 2) (fun _ => 2)
           (fun _ => 0) (fun _ => 0) 1 initial_board).
  - reflexivity.
  - reflexivity.
  - reflexivity.
  - apply well_formed_checked. vm_compute. reflexivity.
  - intros to Hl Hc. vm_compute in Hc. discriminate Hc.
Defined.

(** X20: pressing a piece of the other side.  With no selection
    ([UINT64_MAX]) the board is left alone.  With a selection the handler is
    called with the coordinates [p % 16] and [p / 16] of the piece's
    [board_position] [p], which name the square [p] again for every integer
    [p]; for a captured piece, parked by [move_piece_offboard] on
    position -1, the press changes nothing. *)
Theorem press_opponent_piece
    (has_piece has_tile is_entity_alive : Z -> bool)
    (piece_board_position piece_mask piece_board tile_board tile_x tile_z : Z -> Z)
    (e : Z) (b : board_component_t) :
  let pressed :=
    on_entity_pressed has_piece has_tile is_entity_alive piece_board_position
      piece_mask piece_board tile_board tile_x tile_z in
  let handler :=
    try_move_selected_piece is_entity_alive piece_board_position piece_mask in
  let p := piece_board_position e in
  has_piece e = true ->
  is_entity_alive (piece_board e) = true ->
  Z.land (piece_mask e) MASK_COLOR <> current_player b ->
  pressed e b =
    (if selected_piece b =? UINT64_MAX then (tt, b)
     else handler (square_x p) (square_z p) b) /\
  square_x p + square_z p * 16 = p /\
  (p = -1 -> pressed e b = (tt, b)).
Proof.
  cbv zeta. intros Hp Ha Hc.
  assert (Hrun :
    on_entity_pressed has_piece has_tile is_entity_alive piece_board_position
      piece_mask piece_board tile_board tile_x tile_z e b =
    (if selected_piece b =? UINT64_MAX then (tt, b)
     else try_move_selected_piece is_entity_alive piece_board_position piece_mask
            (square_x (piece_board_position e))
            (square_z (piece_board_position e)) b)).
  { unfold on_entity_pressed. rewrite Hp, Ha.
    unfold bind at 1, gets at 1. cbv beta iota zeta.
    apply Z.eqb_neq in Hc. rewrite Hc. cbn [negb]. cbv iota.
    unfold bind at 1. unfold bind at 1, gets at 1, ret at 1. cbv beta iota.
    destruct (selected_piece b =? UINT64_MAX); reflexivity. }
  assert (Hsq : square_x (piece_board_position e)
                + square_z (piece_board_position e) * 16
                = piece_board_position e).
  { unfold square_x, square_z.
    pose proof (Z.quot_rem' (piece_board_position e) 16). lia. }
  split; [exact Hrun|]. split; [exact Hsq|].
  intros Hoff. rewrite Hrun.
  destruct (selected_piece b =? UINT64_MAX); [reflexivity|].
  unfold try_move_selected_piece.
  unfold bind at 1, gets at 1. cbv beta iota.
  destruct (is_entity_alive (selected_piece b)); cbn [negb]; [|reflexivity].
  rewrite Hsq, Hoff. unfold bind at 1.
  unfold legal_and_safe. unfold bind at 1. rewrite is_legal_move_run.
  assert (Hl : pseudo_legal b (piece_board_position (selected_piece b)) (-1)
               = false).
  { destruct (pseudo_legal b _ (-1)) eqn:E; [|reflexivity].
    apply pseudo_legal_guards in E. destruct E as [E _]. discriminate E. }
  rewrite Hl. reflexivity.
Qed.

Lemma press_opponent_piece_witness :
  let pressed :=
    on_entity_pressed (fun e => e =? 1) (fun _ => false)
      (fun e => (e =? 1) || (e =? 2)) (fun _ => -1)
      (fun _ => Z.lor PIECE_PAWN PIECE_BLACK) (fun _ => 2) (fun _ => 2)
      (fun _ => 0) (fun _ => 0) in
  let handler :=
    try_move_selected_piece (fun e => (e =? 1) || (e =? 2)) (fun _ => -1)
      (fun _ => Z.lor PIECE_PAWN PIECE_BLACK) in
  pressed 1 initial_board =
    (if selected_piece initial_board =? UINT64_MAX then (tt, initial_board)
     else handler (square_x (-1)) (square_z (-1)) initial_board) /\
  square_x (-1) + square_z (-1) * 16 = -1 /\
  (-1 = -1 -> pressed 1 initial_board = (tt, initial_board)).
Proof.
  apply (press_opponent_piece (fun e => e =? 1) (fun _ => false)
           (fun e => (e =? 1) || (e =? 2)) (fun _ => -1)
           (fun _ => Z.lor PIECE_PAWN PIECE_BLACK) (fun _ => 2) (fun _ => 2)
           (fun _ => 0) (fun _ => 0) 1 initial_board).
  - reflexivity.
  - reflexivity.
  - cbn. discriminate.
Defined.

(** ** The pieces that [create_board] spawns *)

(** X21: the entities and the grid start in step.  Writing the mask of
    each of the 32 pieces that [create_board] spawns on the square
    [x + z * 16] that [add_piece] gives it, on an empty grid, yields the
    default grid of [register_all_components]; no two pieces share a
    square, every piece stands on the 8x8 board, and every mask has a
    piece name, hence a mesh. *)
Theorem created_pieces_match_grid :
  fold_left (fun g '(mask, x, z) => store_cell g (add_piece_position x z) mask)
    create_board_pieces (repeat 0 128) = initial_indices /\
  NoDup (map (fun '(mask, x, z) => add_piece_position x z) create_board_pieces) /\
  length create_board_pieces = 32%nat /\
  Forall (fun '(mask, x, z) =>
            0 <= x < 8 /\ 0 <= z < 8 /\ get_piece_name mask <> "Undefined"%string)
    create_board_pieces.
Proof.
  split; [vm_compute; reflexivity|].
  split.
  { vm_compute.
    repeat (apply NoDup_cons; [cbn; lia|]). apply NoDup_nil. }
  split; [reflexivity|].
  let l := eval vm_compute in create_board_pieces in
  change create_board_pieces with l.
  repeat (apply Forall_cons;
          [split; [lia|split; [lia|vm_compute; discriminate]]|]).
  apply Forall_nil.
Qed.

(** ** The target-square handler when the move is accepted *)

Lemma u32_range (v : Z) : 0 <= u32 v < 2 ^ 32.
Proof. unfold u32. apply Z.mod_pos_bound. lia. Qed.

(** X22: an accepted target applies one move.  With a live selection, a
    move that is pseudo-legal and king-safe, a well-formed board, a target
    of the grid (or -1), and no castle from the selection onto an occupied
    rook destination, [try_move_selected_piece] leaves the board obtained
    by [perform_move], then [check_end_condition_reached], then one more
    capture for the mover's colour when the record says capture (none for
    a castle or a plain move), then clearing the selection and the
    highlight mask.  The side to move has flipped and the move counter has
    grown by one. *)
Theorem try_move_applies_move (is_entity_alive : Z -> bool)
    (piece_board_position piece_mask : Z -> Z) (x z : Z)
    (b : board_component_t) :
  let handler :=
    try_move_selected_piece is_entity_alive piece_board_position piece_mask in
  let from := piece_board_position (selected_piece b) in
  let to := x + z * 16 in
  is_entity_alive (selected_piece b) = true ->
  fst (legal_and_safe from to b) = true ->
  well_formed b -> -1 <= to < 128 -> castles_clear_from b from ->
  let made := perform_move from to b in
  let ended := snd (check_end_condition_reached (snd made)) in
  let is_white :=
    Z.land (piece_mask (selected_piece b)) MASK_COLOR =? PIECE_WHITE in
  handler x z b =
    (tt,
     set_legal_move_indices (repeat false 64)
       (set_selected_piece UINT64_MAX
          (if move_type (fst made) =? MOVE_TYPE_CAPTURE then
             if is_white
             then set_num_black_captures (u8 (num_black_captures ended + 1)) ended
             else set_num_white_captures (u8 (num_white_captures ended + 1)) ended
           else ended))) /\
  current_player (snd (handler x z b)) = other_player (current_player b) /\
  move_count (snd (handler x z b)) = u32 (move_count b + 1).
Proof.
  cbv zeta. intros Ha Hok Hwf Hto Hclear.
  set (from := piece_board_position (selected_piece b)) in *.
  set (to := x + z * 16) in *.
  assert (Hl : pseudo_legal b from to = true).
  { rewrite legal_and_safe_value in Hok. apply andb_true_iff in Hok. tauto. }
  assert (Hto' : 0 <= to < 128).
  { pose proof (pseudo_legal_guards _ _ _ Hl) as (Hon & _).
    destruct (Z.eq_dec to (-1)) as [E|E]; [|lia].
    rewrite E in Hon. discriminate Hon. }
  assert (Hst : snd (legal_and_safe from to b) = b).
  { apply legal_and_safe_frame. intros _.
    apply perform_revert_roundtrip; auto. }
  assert (Hrun :
    try_move_selected_piece is_entity_alive piece_board_position piece_mask x z b =
    (tt,
     set_legal_move_indices (repeat false 64)
       (set_selected_piece UINT64_MAX
          (if move_type (fst (perform_move from to b)) =? MOVE_TYPE_CAPTURE then
             if Z.land (piece_mask (selected_piece b)) MASK_COLOR =? PIECE_WHITE
             then set_num_black_captures
                    (u8 (num_black_captures
                           (snd (check_end_condition_reached
                                   (snd (perform_move from to b)))) + 1))
                    (snd (check_end_condition_reached (snd (perform_move from to b))))
             else set_num_white_captures
                    (u8 (num_white_captures
                           (snd (check_end_condition_reached
                                   (snd (perform_move from to b)))) + 1))
                    (snd (check_end_condition_reached (snd (perform_move from to b))))
           else snd (check_end_condition_reached (snd (perform_move from to b))))))).
  { unfold try_move_selected_piece.
    unfold bind at 1, gets at 1. cbv beta iota. rewrite Ha. cbn [negb]. cbv iota.
    fold from. fold to. unfold bind at 1.
    destruct (legal_and_safe from to b) as [ok b1]. cbn [fst snd] in Hok, Hst.
    subst ok b1. cbn [negb]. cbv iota.
    unfold bind at 1. destruct (perform_move from to b) as [info b2].
    cbn [fst snd].
    unfold bind at 1.
    destruct (check_end_condition_reached b2) as [[] b3]. cbn [fst snd].
    unfold when.
    destruct (Z.eqb_spec (move_type info) MOVE_TYPE_MOVE) as [E0|E0];
      destruct (Z.eqb_spec (move_type info) MOVE_TYPE_CASTLE) as [E2|E2];
      destruct (Z.eqb_spec (move_type info) MOVE_TYPE_CAPTURE) as [E1|E1];
      try (exfalso; unfold MOVE_TYPE_MOVE, MOVE_TYPE_CASTLE, MOVE_TYPE_CAPTURE in *;
           lia);
      cbn [negb]; cbv iota;
      try destruct (Z.land _ MASK_COLOR =? PIECE_WHITE);
      reflexivity. }
  split; [exact Hrun|]. rewrite Hrun. cbn [snd].
  pose proof (perform_move_frame from to b) as F. cbv zeta in F.
  destruct F as (_ & _ & _ & _ & _ & Fcp & Fmc).
  assert (Hmc : 0 <= move_count (snd (perform_move from to b)) < 2 ^ 32)
    by (rewrite Fmc; apply u32_range).
  pose proof (count_from_loop_same_but_grid 128 0 0 _ Hmc) as S.
  unfold same_but_grid in S. destruct S as (_&_&Scp&_&_&_&_&Smc&_).
  assert (Ecp : current_player
                  (snd (check_end_condition_reached (snd (perform_move from to b))))
                = other_player (current_player b))
    by (rewrite check_end_condition_state; board_fields; now rewrite Scp).
  assert (Emc : move_count
                  (snd (check_end_condition_reached (snd (perform_move from to b))))
                = u32 (move_count b + 1))
    by (rewrite check_end_condition_state; board_fields; now rewrite Smc).
  destruct (_ =? MOVE_TYPE_CAPTURE); [destruct (_ =? PIECE_WHITE)|];
    board_fields; auto.
Qed.

Lemma try_move_applies_move_witness :
  let alive := fun e => (e =? 1) || (e =? 2) in
  let b :=
    snd (on_entity_pressed (fun e => e =? 1) (fun _ => false) alive
           (fun _ => 0x64) (fun _ => Z.lor PIECE_PAWN PIECE_WHITE)
           (fun _ => 2) (fun _ => 2) (fun _ => 0) (fun _ => 0) 1 initial_board) in
  let handler :=
    try_move_selected_piece alive (fun _ => 0x64)
      (fun _ => Z.lor PIECE_PAWN PIECE_WHITE) in
  let made := perform_move 0x64 (4 + 4 * 16) b in
  let ended := snd (check_end_condition_reached (snd made)) in
  let is_white := Z.land (Z.lor PIECE_PAWN PIECE_WHITE) MASK_COLOR =? PIECE_WHITE in
  handler 4 4 b =
    (tt,
     set_legal_move_indices (repeat false 64)
       (set_selected_piece UINT64_MAX
          (if move_type (fst made) =? MOVE_TYPE_CAPTURE then
             if is_white
             then set_num_black_captures (u8 (num_black_captures ended + 1)) ended
             else set_num_white_captures (u8 (num_white_captures ended + 1)) ended
           else ended))) /\
  current_player (snd (handler 4 4 b)) = other_player (current_player b) /\
  move_count (snd (handler 4 4 b)) = u32 (move_count b + 1).
Proof.
  apply (try_move_applies_move (fun e => (e =? 1) || (e =? 2)) (fun _ => 0x64)
           (fun _ => Z.lor PIECE_PAWN PIECE_WHITE) 4 4).
  - reflexivity.
  - vm_compute. reflexivity.
  - apply well_formed_checked. vm_compute. reflexivity.
  - cbn. lia.
  - intros to Hl Hc. vm_compute in Hc. discriminate Hc.
Defined.

(** ** Witnesses of the general results on concrete positions *)

Lemma castle_bit_tested_witness :
  Z.testbit (castle_bits board_rook_returned)
    (Z.quot (current_player board_rook_returned) 4
     + (if 0x73 >? 0x71 then 1 else 0)) = true /\
  pseudo_legal board_rook_returned (0x73 + (if 0x73 >? 0x71 then -3 else 4))
    (0x73 + (if 0x73 >? 0x71 then -1 else 1)) = true.
Proof.
  apply (castle_bit_tested board_rook_returned 0x73 0x71).
  - vm_compute. reflexivity.
  - reflexivity.
  - reflexivity.
Defined.

Lemma check_end_condition_clear_castles_witness :
  game_state (snd (check_end_condition_reached initial_board)) = STATE_PLAYING.
Proof.
  apply (check_end_condition_clear_castles initial_board).
  - apply well_formed_checked. vm_compute. reflexivity.
  - apply castles_clear_checked. vm_compute. reflexivity.
  - intros H. specialize (H 0x64 0x44 ltac:(lia) ltac:(lia)).
    vm_compute in H. discriminate H.
Defined.
